(** * FastKeyTracker: the key-combination detector of
      [selection_autocomplete_popup_configurable.py]

    A shallow embedding of the class [FastKeyTracker] (lines 196-421 of the
    source) and the properties of its press / release / sweep / watchdog
    operations.

    Modelling choices.
    - A pynput key is an opaque token compared by equality: a member of the
      enum [Key] is identified by its name, a [KeyCode] by its character.
    - [self.key_states] (a dict key -> press time) is a [gmap]; the order of
      its items only shows in log lines.  [self.combinations] (a dict
      name -> frozenset) is iterated by [check_combinations], so it is an
      association list with the insertion order of a Python dict.
    - Times are the floats returned by [time.time()], in seconds: finite
      floats, each modelled as the rational it denotes.  The four time tests
      of the source subtract two floats before they compare; the subtraction
      is the float subtraction [float_sub], which rounds the exact
      difference to the nearest float.  Every call of [time.time()] in the
      source is an argument of the function that makes the call, so one
      operation may see several, different clock readings.
    - Log lines (all the [self.logger] calls and the debug flags that only
      guard them) are left out.
    - Every operation is one atomic step on the tracker; the interleaving of
      the timer thread with the listener thread is not modelled. *)

From Stdlib Require Import QArith Qround Qpower Lqa Ascii DecimalString.
From stdpp Require Import gmap strings list fin_maps.

(** ** Keys *)

(** [pynput.keyboard.Key.<name>] and [pynput.keyboard.KeyCode.from_char(c)]. *)
Inductive KeyIdentity : Type :=
  | Key (name : string)
  | KeyCode (char : string).

#[global] Instance KeyIdentity_eq_dec : EqDecision KeyIdentity.
Proof. solve_decision. Defined.

Definition KeyIdentity_to_sum (k : KeyIdentity) : string + string :=
  match k with Key n => inl n | KeyCode c => inr c end.

Definition KeyIdentity_of_sum (x : string + string) : KeyIdentity :=
  match x with inl n => Key n | inr c => KeyCode c end.

#[global] Instance KeyIdentity_countable : Countable KeyIdentity.
Proof.
  apply (inj_countable' KeyIdentity_to_sum KeyIdentity_of_sum).
  intros [n|c]; reflexivity.
Defined.

(** ** Float comparisons and truthiness *)

(** [x > y] on two times. *)
Definition Qgtb (x y : Q) : bool := negb (Qle_bool x y).

(** Truthiness of a float: [0.0] is false, every other value is true. *)
Definition float_truthy (t : Q) : bool := negb (Qeq_bool t 0).

(** ** Float subtraction *)

(** [2 ** e]. *)
Definition pow2 (e : Z) : Q := Qpower 2 e.

(** The exponent of a positive [q]: the [e] with
    [2 ** e <= q < 2 ** (e + 1)]. *)
Definition binade (q : Q) : Z :=
  if Qle_bool 1 q then Z.log2 (Qfloor q)
  else (- Z.log2_up (Qceiling (/ q)))%Z.

(** The integer nearest to [q], the even one of the two when [q] is half
    way between them. *)
Definition round_half_even (q : Q) : Z :=
  let f := Qfloor q in
  match (q - inject_Z f ?= 1 # 2)%Q with
  | Lt => f
  | Gt => (f + 1)%Z
  | Eq => if Z.even f then f else (f + 1)%Z
  end.

(** A positive [q] rounded to 53 significant bits. *)
Definition round_positive (q : Q) : Q :=
  let e := (binade q - 52)%Z in
  (inject_Z (round_half_even (q * pow2 (- e))) * pow2 e)%Q.

(** The float nearest to [q], the even one of two that are as near: the
    rounding of the arithmetic of Python floats (IEEE 754 binary64).  The
    exponent is not bounded here.  For the difference of two floats that
    changes no comparison with a float: a difference below the normal range
    is a float already, and one past the largest float stays past it. *)
Definition round_float (q : Q) : Q :=
  match (q ?= 0)%Q with
  | Eq => 0%Q
  | Gt => round_positive q
  | Lt => (- round_positive (- q))%Q
  end.

(** [a - b] on floats. *)
Definition float_sub (a b : Q) : Q := round_float (a - b)%Q.

(** The literals [0.8] and [0.3] of the source: the floats nearest to 8/10
    and to 3/10. *)
Definition float_0_8 : Q := 3602879701896397 # 4503599627370496.
Definition float_0_3 : Q := 5404319552844595 # 18014398509481984.

(** ** The combination table: a Python dict iterated in insertion order *)

Section PyDict.
Context {V : Type}.

(** [d[name] = v]: an existing name keeps its place, a new one goes last. *)
Fixpoint dict_setitem (name : string) (v : V) (d : list (string * V))
  : list (string * V) :=
  match d with
  | [] => [(name, v)]
  | (n, w) :: d' =>
      if decide (n = name) then (n, v) :: d'
      else (n, w) :: dict_setitem name v d'
  end.

(** [d.get(name)]. *)
Fixpoint dict_get (name : string) (d : list (string * V)) : option V :=
  match d with
  | [] => None
  | (n, w) :: d' => if decide (n = name) then Some w else dict_get name d'
  end.
End PyDict.

(** ** The tracker *)

(** [self.stats]. *)
Record Stats : Type := mkStats {
  total_key_presses : nat;
  combinations_detected : nat;
  combinations_timeout : nat;
  stuck_keys_cleaned : nat
}.

(** The three timing settings read from the [timing] section of the
    configuration in [__init__]. *)
Record Timing : Type := mkTiming {
  cfg_combination_timeout : Q;
  cfg_max_key_hold_time : Q;
  cfg_cleanup_interval : Q
}.

(** The fallbacks of [config.getfloat]: 0.8, 2.0 and 0.5 seconds. *)
Definition default_timing : Timing :=
  {| cfg_combination_timeout := float_0_8;
     cfg_max_key_hold_time := 2;
     cfg_cleanup_interval := 1 # 2 |}.

Record FastKeyTracker : Type := mkTracker {
  combination_timeout : Q;
  max_key_hold_time : Q;
  cleanup_interval : Q;
  key_states : gmap KeyIdentity Q;
  combinations : list (string * gset KeyIdentity);
  combination_start_time : option Q;
  last_activity : Q;
  stats : Stats
}.

Definition set_key_states (ks : gmap KeyIdentity Q) (s : FastKeyTracker) :=
  mkTracker (combination_timeout s) (max_key_hold_time s) (cleanup_interval s)
    ks (combinations s) (combination_start_time s) (last_activity s) (stats s).

Definition set_combinations (c : list (string * gset KeyIdentity))
    (s : FastKeyTracker) :=
  mkTracker (combination_timeout s) (max_key_hold_time s) (cleanup_interval s)
    (key_states s) c (combination_start_time s) (last_activity s) (stats s).

Definition set_combination_start_time (o : option Q) (s : FastKeyTracker) :=
  mkTracker (combination_timeout s) (max_key_hold_time s) (cleanup_interval s)
    (key_states s) (combinations s) o (last_activity s) (stats s).

Definition set_last_activity (t : Q) (s : FastKeyTracker) :=
  mkTracker (combination_timeout s) (max_key_hold_time s) (cleanup_interval s)
    (key_states s) (combinations s) (combination_start_time s) t (stats s).

Definition set_stats (st : Stats) (s : FastKeyTracker) :=
  mkTracker (combination_timeout s) (max_key_hold_time s) (cleanup_interval s)
    (key_states s) (combinations s) (combination_start_time s)
    (last_activity s) st.

Definition incr_total_key_presses (st : Stats) : Stats :=
  mkStats (S (total_key_presses st)) (combinations_detected st)
    (combinations_timeout st) (stuck_keys_cleaned st).

Definition incr_combinations_detected (st : Stats) : Stats :=
  mkStats (total_key_presses st) (S (combinations_detected st))
    (combinations_timeout st) (stuck_keys_cleaned st).

Definition incr_combinations_timeout (st : Stats) : Stats :=
  mkStats (total_key_presses st) (combinations_detected st)
    (S (combinations_timeout st)) (stuck_keys_cleaned st).

Definition add_stuck_keys_cleaned (n : nat) (st : Stats) : Stats :=
  mkStats (total_key_presses st) (combinations_detected st)
    (combinations_timeout st) (stuck_keys_cleaned st + n).

(** ** [add_combination] (lines 232-253) *)

(** [{Key.ctrl, Key.shift, Key.alt}]. *)
Definition modifier_keys : gset KeyIdentity :=
  {[ Key "ctrl"%string; Key "shift"%string; Key "alt"%string ]}.

Definition add_combination (name : string) (keys : list KeyIdentity)
    (s : FastKeyTracker) : bool * FastKeyTracker :=
  let key_set : gset KeyIdentity := list_to_set keys in
  if decide (size key_set = 0%nat) then (false, s)
  else if decide (size key_set = 1%nat ∧ key_set ⊆ modifier_keys)
  then (false, s)
  else (true, set_combinations (dict_setitem name key_set (combinations s)) s).

(** ** [check_combinations] (lines 321-359) *)

(** The test of the loop body, [current_keys == combo_keys]. *)
Definition exact_match (current_keys : gset KeyIdentity)
    (entry : string * gset KeyIdentity) : bool :=
  bool_decide (current_keys = entry.2).

Definition check_combinations (s : FastKeyTracker)
    : option string * FastKeyTracker :=
  let current_keys : gset KeyIdentity := dom (key_states s) in
  if decide (current_keys = ∅) then (None, s)
  else
    match List.find (exact_match current_keys) (combinations s) with
    | Some (name, _) =>
        (Some name,
         set_combination_start_time None
           (set_key_states ∅
              (set_stats (incr_combinations_detected (stats s)) s)))
    | None => (None, s)
    end.

(** ** [cleanup_stuck_keys] (lines 361-382) *)

(** [current_time - press_time > self.max_key_hold_time]. *)
Definition held_too_long (s : FastKeyTracker) (current_time : Q)
    (item : KeyIdentity * Q) : bool :=
  Qgtb (float_sub current_time item.2) (max_key_hold_time s).

(** The list [stuck_keys] built by the first loop. *)
Definition stuck_keys (current_time : Q) (s : FastKeyTracker)
    : list KeyIdentity :=
  (filter (λ item, held_too_long s current_time item)
     (map_to_list (key_states s))).*1.

(** [current_time] is the reading of [time.time()] at line 363. *)
Definition cleanup_stuck_keys (current_time : Q) (s : FastKeyTracker)
    : FastKeyTracker :=
  match stuck_keys current_time s with
  | [] => s
  | stuck =>
      let s1 := set_stats (add_stuck_keys_cleaned (length stuck) (stats s)) s in
      let s2 := set_key_states (foldr delete (key_states s1) stuck) s1 in
      if decide (key_states s2 = ∅)
      then set_combination_start_time None s2
      else s2
  end.

(** ** [on_key_press] (lines 264-302) *)

(** The condition of the [elif] at line 279,
    [self.combination_start_time and (current_time -
    self.combination_start_time) > self.combination_timeout]: the left
    operand is tested for truthiness, so [None] and [0.0] both make the
    condition false. *)
Definition combination_timed_out (current_time : Q) (s : FastKeyTracker)
    : bool :=
  match combination_start_time s with
  | None => false
  | Some start =>
      float_truthy start
      && Qgtb (float_sub current_time start) (combination_timeout s)
  end.

(** Lines 266-290: everything before the final match evaluation.
    [current_time] is the reading at line 266, [sweep_time] the later one
    made inside [cleanup_stuck_keys]. *)
Definition on_key_press_update (key : KeyIdentity) (current_time sweep_time : Q)
    (s : FastKeyTracker) : FastKeyTracker :=
  let s1 := set_stats (incr_total_key_presses (stats s)) s in
  let s2 := cleanup_stuck_keys sweep_time s1 in
  let s3 :=
    if decide (key_states s2 = ∅)
    then set_combination_start_time (Some current_time) s2
    else if combination_timed_out current_time s2
    then set_combination_start_time (Some current_time)
           (set_key_states ∅
              (set_stats (incr_combinations_timeout (stats s2)) s2))
    else s2 in
  set_last_activity current_time
    (set_key_states (<[key := current_time]> (key_states s3)) s3).

(** Line 302: [return self.check_combinations()]. *)
Definition on_key_press (key : KeyIdentity) (current_time sweep_time : Q)
    (s : FastKeyTracker) : option string * FastKeyTracker :=
  check_combinations (on_key_press_update key current_time sweep_time s).

(** ** [on_key_release] (lines 304-319) *)

(** [release_time] is the reading of [time.time()] at line 308.  The method
    has no [return]: its value is always [None]. *)
Definition on_key_release (key : KeyIdentity) (release_time : Q)
    (s : FastKeyTracker) : option string * FastKeyTracker :=
  match key_states s !! key with
  | Some _ =>
      let s1 := set_key_states (delete key (key_states s)) s in
      let s2 := set_last_activity release_time s1 in
      (None,
       if decide (key_states s2 = ∅)
       then set_combination_start_time None s2
       else s2)
  | None => (None, s)
  end.

(** ** [force_reset] (lines 384-394) *)

Definition force_reset (reset_time : Q) (s : FastKeyTracker) : FastKeyTracker :=
  let s1 := if decide (key_states s = ∅) then s else set_key_states ∅ s in
  set_last_activity reset_time (set_combination_start_time None s1).

(** ** [start_monitoring] (lines 400-421) *)

(** One run of the inner function [monitor]: [current_time] is read at line
    404, [sweep_time] inside [cleanup_stuck_keys], [reset_time] inside
    [force_reset].  The threshold 5.0 is a literal of the source. *)
Definition monitor (current_time sweep_time reset_time : Q)
    (s : FastKeyTracker) : FastKeyTracker :=
  let s1 := cleanup_stuck_keys sweep_time s in
  if Qgtb (float_sub current_time (last_activity s1)) 5
     && bool_decide (key_states s1 ≠ ∅)
  then force_reset reset_time s1
  else s1.

(** ** [__init__] (lines 199-230) *)

(** The fields as [__init__] sets them; [init_time] is the reading at line
    217. *)
Definition initial_fields (cfg : Timing) (init_time : Q) : FastKeyTracker :=
  {| combination_timeout := cfg_combination_timeout cfg;
     max_key_hold_time := cfg_max_key_hold_time cfg;
     cleanup_interval := cfg_cleanup_interval cfg;
     key_states := ∅;
     combinations := [];
     combination_start_time := None;
     last_activity := init_time;
     stats := mkStats 0 0 0 0 |}.

(** [__init__] ends with [self.start_monitoring()], which runs [monitor]
    once at once. *)
Definition new_tracker (cfg : Timing)
    (init_time current_time sweep_time reset_time : Q) : FastKeyTracker :=
  monitor current_time sweep_time reset_time (initial_fields cfg init_time).

(** ** Notions used by the statements *)

(** The state a successful match leaves (lines 332-344). *)
Definition matched_state (s : FastKeyTracker) : FastKeyTracker :=
  set_combination_start_time None
    (set_key_states ∅ (set_stats (incr_combinations_detected (stats s)) s)).

(** [name] is the first entry of the table, in iteration order, whose key
    set equals [held]. *)
Definition first_exact_match (held : gset KeyIdentity)
    (table : list (string * gset KeyIdentity)) (name : string) : Prop :=
  ∃ i R, table !! i = Some (name, R) ∧ R = held
         ∧ ∀ j n' R', (j < i)%nat → table !! j = Some (n', R') → R' ≠ held.

(** The key sets [add_combination] refuses: the empty set, and a single
    key that is one of [Key.ctrl], [Key.shift], [Key.alt]. *)
Definition refused_key_set (key_set : gset KeyIdentity) : Prop :=
  key_set = ∅
  ∨ ∃ m, (m = Key "ctrl" ∨ m = Key "shift" ∨ m = Key "alt")
         ∧ key_set = {[ m ]}.

(** The calls of [add_combination] made during set-up, in order. *)
Definition register_all (regs : list (string * list KeyIdentity))
    (s : FastKeyTracker) : FastKeyTracker :=
  foldl (λ acc reg, (add_combination reg.1 reg.2 acc).2) s regs.

(** The entry an accepted call [add_combination(name, keys)] stores. *)
Definition registered_entry (reg : string * list KeyIdentity)
    : string * gset KeyIdentity :=
  (reg.1, list_to_set reg.2).

(** What holds of every stored entry: the key set is not refused. *)
Definition table_valid (table : list (string * gset KeyIdentity)) : Prop :=
  NoDup table.*1 ∧ ∀ name R, (name, R) ∈ table → ¬ refused_key_set R.

(** No entry of the table is the single key [key]. *)
Definition not_a_combination (key : KeyIdentity) (s : FastKeyTracker) : Prop :=
  ∀ name, (name, ({[ key ]} : gset KeyIdentity)) ∉ combinations s.

(** The timer is unset exactly when no key is held. *)
Definition timer_invariant (s : FastKeyTracker) : Prop :=
  combination_start_time s = None ↔ key_states s = ∅.

(** The operations of the tracker, each with the clock readings it makes. *)
Inductive operation : Type :=
  | Press (key : KeyIdentity) (current_time sweep_time : Q)
  | Release (key : KeyIdentity) (release_time : Q)
  | Sweep (current_time : Q)
  | Tick (current_time sweep_time reset_time : Q)
  | Evaluate
  | ForceReset (reset_time : Q)
  | Register (name : string) (keys : list KeyIdentity).

Definition run (op : operation) (s : FastKeyTracker) : FastKeyTracker :=
  match op with
  | Press key current_time sweep_time =>
      (on_key_press key current_time sweep_time s).2
  | Release key release_time => (on_key_release key release_time s).2
  | Sweep current_time => cleanup_stuck_keys current_time s
  | Tick current_time sweep_time reset_time =>
      monitor current_time sweep_time reset_time s
  | Evaluate => (check_combinations s).2
  | ForceReset reset_time => force_reset reset_time s
  | Register name keys => (add_combination name keys s).2
  end.

(** ** Concrete trackers *)

Module Scenario.

Definition ctrl : KeyIdentity := Key "ctrl".
Definition alt : KeyIdentity := Key "alt".
Definition space : KeyIdentity := Key "space".
Definition f1 : KeyIdentity := Key "f1".

(** A tracker built at clock reading 100 with the default timing. *)
Definition fresh : FastKeyTracker :=
  new_tracker default_timing 100 100 100 100.

(** [add_combination('A', [Key.ctrl, Key.space])]. *)
Definition with_A : FastKeyTracker :=
  (add_combination "A" [ctrl; space] fresh).2.

(** ctrl goes down at 100. *)
Definition ctrl_down : FastKeyTracker :=
  (on_key_press ctrl 100 100 with_A).2.

(** The same with a hold limit of 10 seconds in the configuration. *)
Definition patient : FastKeyTracker :=
  new_tracker (mkTiming float_0_8 10 (1 # 2)) 100 100 100 100.

Definition patient_ctrl_down : FastKeyTracker :=
  (on_key_press ctrl 100 100 patient).2.

End Scenario.

(** C2 as the spec states it, for one clock reading per press: after a press
    at [t0] that leaves a window starting at [t0], a press at [t2] past the
    timeout counts one timeout and leaves its key alone in the store, with
    the window at [t2]. *)
Definition timeout_claim (s0 : FastKeyTracker) (k1 k2 : KeyIdentity)
    (t0 t2 : Q) : Prop :=
  let s1 := (on_key_press k1 t0 t0 s0).2 in
  let s2 := (on_key_press k2 t2 t2 s1).2 in
  combination_start_time s1 = Some t0 →
  (combination_timeout s1 < t2 - t0)%Q →
  combinations_timeout (stats s2) = S (combinations_timeout (stats s1))
  ∧ dom (key_states s2) = {[ k2 ]}
  ∧ combination_start_time s2 = Some t2.

(** C9 as the spec states it: every entry of the table has at least two
    keys. *)
Definition two_key_claim (regs : list (string * list KeyIdentity)) : Prop :=
  ∀ name R,
    (name, R) ∈ combinations (register_all regs Scenario.fresh) →
    (2 ≤ size R)%nat.

(** ** Runs and the notions the run-level properties use *)

(** A run: the operations applied one after the other. *)
Definition run_all (ops : list operation) (s : FastKeyTracker)
    : FastKeyTracker :=
  foldl (λ acc op, run op acc) s ops.

(** Every press is accounted for: it still holds a key, or it went into one
    of the three other counters. *)
Definition accounted (s : FastKeyTracker) : Prop :=
  (combinations_detected (stats s) + combinations_timeout (stats s)
   + stuck_keys_cleaned (stats s) + size (key_states s)
   ≤ total_key_presses (stats s))%nat.

(** Counter by counter comparison of two [stats] dicts. *)
Definition stats_le (a b : Stats) : Prop :=
  (total_key_presses a ≤ total_key_presses b)%nat
  ∧ (combinations_detected a ≤ combinations_detected b)%nat
  ∧ (combinations_timeout a ≤ combinations_timeout b)%nat
  ∧ (stuck_keys_cleaned a ≤ stuck_keys_cleaned b)%nat.

(** The timing settings of a tracker. *)
Definition timing_of (s : FastKeyTracker) : Timing :=
  mkTiming (combination_timeout s) (max_key_hold_time s) (cleanup_interval s).

(** Every held key was pressed inside the open window and not after the
    last recorded activity. *)
Definition window_ordered (s : FastKeyTracker) : Prop :=
  ∀ k pt, key_states s !! k = Some pt →
    ∃ start, combination_start_time s = Some start
             ∧ (start <= pt)%Q ∧ (pt <= last_activity s)%Q.

(** The clock readings of a press or a release are not before the last
    recorded activity. *)
Definition clock_not_before (s : FastKeyTracker) (op : operation) : Prop :=
  match op with
  | Press _ current_time _ => (last_activity s <= current_time)%Q
  | Release _ release_time => (last_activity s <= release_time)%Q
  | _ => True
  end.

(** Presses one after the other, with what each one returns. *)
Fixpoint press_all (presses : list (KeyIdentity * Q * Q)) (s : FastKeyTracker)
    : list (option string) * FastKeyTracker :=
  match presses with
  | [] => ([], s)
  | (key, current_time, sweep_time) :: rest =>
      let r := on_key_press key current_time sweep_time s in
      let rs := press_all rest r.2 in
      (r.1 :: rs.1, rs.2)
  end.

(** ** Python strings *)

(** A [str] is modelled as a [string] whose characters are the code points
    below 256.  The character classes below are those of CPython's Unicode
    database restricted to that range, and every statement about strings
    is about the strings of that range.  (From 256 on there are, for
    instance, further digits that [str.isdigit] accepts and [int] refuses,
    further white space and further letters.) *)

(** [c.isspace()]: also what [str.strip()] removes. *)
Definition isspace_char (c : Ascii.ascii) : bool :=
  let n := Ascii.nat_of_ascii c in
  ((9 <=? n) && (n <=? 13)) || ((28 <=? n) && (n <=? 32))
  || (n =? 133) || (n =? 160).

(** [c.lower()]. *)
Definition lower_char (c : Ascii.ascii) : Ascii.ascii :=
  let n := Ascii.nat_of_ascii c in
  if ((65 <=? n) && (n <=? 90))
     || ((192 <=? n) && (n <=? 222) && negb (n =? 215))
  then Ascii.ascii_of_nat (n + 32)
  else c.

(** [c.isdigit()]: the ten decimal digits and the superscripts one, two and
    three. *)
Definition isdigit_char (c : Ascii.ascii) : bool :=
  let n := Ascii.nat_of_ascii c in
  ((48 <=? n) && (n <=? 57)) || (n =? 178) || (n =? 179) || (n =? 185).

(** The digits [int()] accepts. *)
Definition isdecimal_char (c : Ascii.ascii) : bool :=
  let n := Ascii.nat_of_ascii c in (48 <=? n) && (n <=? 57).

(** [c.isalpha()]. *)
Definition isalpha_char (c : Ascii.ascii) : bool :=
  let n := Ascii.nat_of_ascii c in
  ((65 <=? n) && (n <=? 90)) || ((97 <=? n) && (n <=? 122))
  || (n =? 170) || (n =? 181) || (n =? 186)
  || ((192 <=? n) && (n <=? 214)) || ((216 <=? n) && (n <=? 246))
  || ((248 <=? n) && (n <=? 255)).

(** [s.lower()]. *)
Fixpoint lower (s : string) : string :=
  match s with
  | EmptyString => EmptyString
  | String c s' => String (lower_char c) (lower s')
  end.

(** [s.lstrip()]. *)
Fixpoint lstrip (s : string) : string :=
  match s with
  | EmptyString => EmptyString
  | String c s' => if isspace_char c then lstrip s' else s
  end.

(** [s.rstrip()]. *)
Fixpoint rstrip (s : string) : string :=
  match s with
  | EmptyString => EmptyString
  | String c s' =>
      match rstrip s' with
      | EmptyString => if isspace_char c then EmptyString
                       else String c EmptyString
      | r => String c r
      end
  end.

(** [s.strip()]. *)
Definition strip (s : string) : string := rstrip (lstrip s).

(** [s.split(sep)] for a separator of one character: never the empty
    list. *)
Fixpoint split (sep : Ascii.ascii) (s : string) : list string :=
  match s with
  | EmptyString => [EmptyString]
  | String c s' =>
      if decide (c = sep) then EmptyString :: split sep s'
      else match split sep s' with
           | part :: parts => String c part :: parts
           | [] => [String c EmptyString]
           end
  end.

(** [sep.join(parts)]. *)
Fixpoint join (sep : Ascii.ascii) (parts : list string) : string :=
  match parts with
  | [] => EmptyString
  | [part] => part
  | part :: rest => (part ++ String sep (join sep rest))%string
  end.

(** [s.count(c)] for one character. *)
Fixpoint count (c : Ascii.ascii) (s : string) : nat :=
  match s with
  | EmptyString => 0
  | String c' s' => (if decide (c' = c) then 1 else 0) + count c s'
  end.

(** [all(p(c) for c in s)]. *)
Fixpoint string_forallb (p : Ascii.ascii → bool) (s : string) : bool :=
  match s with
  | EmptyString => true
  | String c s' => p c && string_forallb p s'
  end.

(** [s.isdigit()] and [s.isalpha()]: false on the empty string. *)
Definition isdigit (s : string) : bool :=
  negb (String.length s =? 0) && string_forallb isdigit_char s.

Definition isalpha (s : string) : bool :=
  negb (String.length s =? 0) && string_forallb isalpha_char s.

(** [s.startswith(c)] for one character. *)
Definition startswith (c : Ascii.ascii) (s : string) : bool :=
  match s with
  | String c' _ => bool_decide (c' = c)
  | EmptyString => false
  end.

(** [s[1:]]. *)
Definition tail (s : string) : string :=
  match s with
  | String _ s' => s'
  | EmptyString => EmptyString
  end.

(** ** Exceptions *)

(** The exceptions the modelled code tells apart; [OtherException] is any
    exception of another class. *)
Inductive exn : Type := ValueError | AttributeError | OtherException.

Inductive result (A : Type) : Type :=
  | Ok (a : A)
  | Raise (e : exn).
Arguments Ok {A} a.
Arguments Raise {A} e.

(** The value of a string of decimal digits. *)
Fixpoint decimal_value (acc : N) (s : string) : N :=
  match s with
  | EmptyString => acc
  | String c s' =>
      decimal_value (acc * 10 + (Ascii.N_of_ascii c - 48))%N s'
  end.

(** [int(s)] for a string on which [s.isdigit()] holds.  A superscript
    digit is refused with [ValueError]; so is, in interpreters that limit
    the conversion ([sys.get_int_max_str_digits()], here
    [int_max_str_digits], 0 for no limit), a string of more digits than the
    limit once it has more than 640. *)
Definition int (int_max_str_digits : nat) (s : string) : result N :=
  if negb (string_forallb isdecimal_char s) then Raise ValueError
  else if (640 <? String.length s)
          && (0 <? int_max_str_digits)
          && (int_max_str_digits <? String.length s)
  then Raise ValueError
  else Ok (decimal_value 0 s).

(** [f'{n}']. *)
Definition format_N (n : N) : string :=
  NilEmpty.string_of_uint (N.to_uint n).

(** ** [parse_key_combination] (lines 609-636) *)

(** One turn of the loop: the key the part stands for, [None] when the
    part adds no key. *)
Definition parse_part (int_max_str_digits : nat) (part : string)
    : result (option KeyIdentity) :=
  if decide (part = "ctrl"%string) then Ok (Some (Key "ctrl"))
  else if decide (part = "shift"%string) then Ok (Some (Key "shift"))
  else if decide (part = "alt"%string) then Ok (Some (Key "alt"))
  else if decide (part = "space"%string) then Ok (Some (Key "space"))
  else if decide (part = "tab"%string) then Ok (Some (Key "tab"))
  else if decide (part = "enter"%string) then Ok (Some (Key "enter"))
  else if startswith "f"%char part && (1 <? String.length part)
          && isdigit (tail part)
  then match int int_max_str_digits (tail part) with
       | Raise e => Raise e
       | Ok f_num =>
           if ((1 <=? f_num) && (f_num <=? 12))%N
           then Ok (Some (Key ("f" ++ format_N f_num)%string))
           else Ok None
       end
  else if (String.length part =? 1) && isalpha part
  then Ok (Some (KeyCode part))
  else Ok None.

(** The loop over the parts. *)
Fixpoint parse_parts (int_max_str_digits : nat) (parts : list string)
    : result (list KeyIdentity) :=
  match parts with
  | [] => Ok []
  | part :: rest =>
      match parse_part int_max_str_digits part with
      | Raise e => Raise e
      | Ok found =>
          match parse_parts int_max_str_digits rest with
          | Raise e => Raise e
          | Ok keys =>
              Ok (match found with Some key => key :: keys | None => keys end)
          end
      end
  end.

Definition parse_key_combination (int_max_str_digits : nat)
    (key_string : string) : result (list KeyIdentity) :=
  let parts := (λ part, lower (strip part)) <$> split "+"%char key_string in
  parse_parts int_max_str_digits parts.

(** The keys [parse_key_combination] knows by name. *)
Definition named_keys : list KeyIdentity :=
  Key <$> ["ctrl"; "shift"; "alt"; "space"; "tab"; "enter";
           "f1"; "f2"; "f3"; "f4"; "f5"; "f6";
           "f7"; "f8"; "f9"; "f10"; "f11"; "f12"]%string.

(** A key [parse_key_combination] can produce: a named key, or the key of
    one letter that is its own lower case. *)
Definition supported_key (k : KeyIdentity) : Prop :=
  k ∈ named_keys
  ∨ ∃ c, isalpha_char c = true ∧ lower_char c = c
         ∧ k = KeyCode (String c EmptyString).

(** The word for a key in a key string of the configuration file, as
    [parse_key_combination] reads it: the name of a named key, the bare
    letter of a letter key.  (This is not [key_to_string] below, which the
    tracker uses in its log lines.) *)
Definition key_token (k : KeyIdentity) : string :=
  match k with
  | Key name => name
  | KeyCode char => char
  end.

(** No [+] in [s]. *)
Definition no_plus (s : string) : bool :=
  string_forallb (λ c, negb (bool_decide (c = "+"%char))) s.

(** [key_to_string] (lines 255-262): [key.name] for a member of [Key], the
    character between quotes for a [KeyCode]. *)
Definition key_to_string (k : KeyIdentity) : string :=
  match k with
  | Key name => name
  | KeyCode char => ("'" ++ char ++ "'")%string
  end.

(** The names [parse_key_combination] compares a part with. *)
Definition key_words : list string :=
  ["ctrl"; "shift"; "alt"; "space"; "tab"; "enter"]%string.

(** The parts that add no key: the empty part, a function key whose
    number is not 1 to 12, a single character that is not a letter, and a
    longer word that is neither a name nor a function key. *)
Definition adds_no_key (part : string) : Prop :=
  part = EmptyString
  ∨ (startswith "f"%char part = true ∧ isdigit (tail part) = true
     ∧ ¬ (1 ≤ decimal_value 0 (tail part) ≤ 12)%N)
  ∨ (String.length part = 1 ∧ isalpha part = false)
  ∨ (1 < String.length part ∧ (part ∉ key_words)
     ∧ ¬ (startswith "f"%char part = true ∧ isdigit (tail part) = true)).

(** What a part adds: nothing when it is one of those, otherwise the key it
    names; a function key by its number, so that f01 names f1. *)
Definition part_key (part : string) (found : option KeyIdentity) : Prop :=
  match found with
  | None => adds_no_key part
  | Some k =>
      ¬ adds_no_key part
      ∧ ((part ∈ key_words ∧ k = Key part)
         ∨ (String.length part = 1 ∧ k = KeyCode part)
         ∨ (startswith "f"%char part = true ∧ 1 < String.length part
            ∧ k = Key ("f" ++ format_N (decimal_value 0 (tail part)))))
  end.

(** Not a character [isdigit] accepts and [int] refuses: below 256 those
    are the superscript digits two, three and one. *)
Definition int_safe_char (c : Ascii.ascii) : bool :=
  negb (isdigit_char c) || isdecimal_char c.

(** [x < y] on two times. *)
Definition Qltb (x y : Q) : bool := negb (Qle_bool y x).

(** ** [SelectionAutocompleteFastCombo] (lines 424-979): the key handling *)

(** The class around the tracker.  Of its state, what the key handlers read
    or write is kept: the tracker, the cooldown, the time of the last
    completion, the popup flag and the [stats] dict.  The threads it starts
    are its output; what they do (clipboard, HTTP, typing) is not
    modelled. *)
Module App.

(** [self.stats]. *)
Record AppStats : Type := mkAppStats {
  quick_requests : nat;
  popup_requests : nat;
  successful_completions : nat;
  failed_completions : nat;
  key_resets : nat;
  invalid_combinations : nat
}.

Record t : Type := mk {
  key_tracker : FastKeyTracker;
  completion_cooldown : Q;
  last_completion_time : Q;
  popup_active : bool;
  app_stats : AppStats
}.

(** The target of the thread [handle_completion] starts. *)
Inductive worker : Type := _quick_worker | _popup_worker.

Definition set_key_tracker (tracker : FastKeyTracker) (app : t) : t :=
  mk tracker (completion_cooldown app) (last_completion_time app)
    (popup_active app) (app_stats app).

Definition set_last_completion_time (time : Q) (app : t) : t :=
  mk (key_tracker app) (completion_cooldown app) time (popup_active app)
    (app_stats app).

Definition set_popup_active (b : bool) (app : t) : t :=
  mk (key_tracker app) (completion_cooldown app) (last_completion_time app)
    b (app_stats app).

Definition set_app_stats (st : AppStats) (app : t) : t :=
  mk (key_tracker app) (completion_cooldown app) (last_completion_time app)
    (popup_active app) st.

Definition incr_quick_requests (st : AppStats) : AppStats :=
  mkAppStats (S (quick_requests st)) (popup_requests st)
    (successful_completions st) (failed_completions st) (key_resets st)
    (invalid_combinations st).

Definition incr_popup_requests (st : AppStats) : AppStats :=
  mkAppStats (quick_requests st) (S (popup_requests st))
    (successful_completions st) (failed_completions st) (key_resets st)
    (invalid_combinations st).

Definition incr_successful_completions (st : AppStats) : AppStats :=
  mkAppStats (quick_requests st) (popup_requests st)
    (S (successful_completions st)) (failed_completions st) (key_resets st)
    (invalid_combinations st).

Definition incr_failed_completions (st : AppStats) : AppStats :=
  mkAppStats (quick_requests st) (popup_requests st)
    (successful_completions st) (S (failed_completions st)) (key_resets st)
    (invalid_combinations st).

Definition incr_key_resets (st : AppStats) : AppStats :=
  mkAppStats (quick_requests st) (popup_requests st)
    (successful_completions st) (failed_completions st) (S (key_resets st))
    (invalid_combinations st).

Definition incr_invalid_combinations (st : AppStats) : AppStats :=
  mkAppStats (quick_requests st) (popup_requests st)
    (successful_completions st) (failed_completions st) (key_resets st)
    (S (invalid_combinations st)).

(** [self.stats['invalid_combinations'] += 1], where [self.stats] may not
    have been assigned yet ([None]): reading a missing attribute raises
    [AttributeError]. *)
Definition count_invalid_combination (stats : option AppStats)
    : result (option AppStats) :=
  match stats with
  | None => Raise AttributeError
  | Some st => Ok (Some (incr_invalid_combinations st))
  end.

(** [setup_key_combinations] (lines 585-607), on the tracker and the
    [stats] attribute of the object. *)
Definition setup_key_combinations (int_max_str_digits : nat)
    (quick_keys popup_keys : string) (tracker : FastKeyTracker)
    (stats : option AppStats) : result (FastKeyTracker * option AppStats) :=
  match parse_key_combination int_max_str_digits quick_keys with
  | Raise e => Raise e
  | Ok quick_combo =>
  match parse_key_combination int_max_str_digits popup_keys with
  | Raise e => Raise e
  | Ok popup_combo =>
      let quick := add_combination "quick" quick_combo tracker in
      let popup := add_combination "popup" popup_combo quick.2 in
      match (if quick.1 then Ok stats else count_invalid_combination stats)
      with
      | Raise e => Raise e
      | Ok stats1 =>
      match (if popup.1 then Ok stats1 else count_invalid_combination stats1)
      with
      | Raise e => Raise e
      | Ok stats2 =>
          let reset_combo := [Key "ctrl"; Key "alt"; KeyCode "r"] in
          Ok ((add_combination "reset" reset_combo popup.2).2, stats2)
      end
      end
  end
  end.

(** What [load_config] (lines 453-491) and [FastKeyTracker.__init__]
    (lines 204-206) read from the configuration file, as far as the key
    handling uses it. *)
Record Config : Type := mkConfig {
  timing : Timing;
  cooldown : Q;
  quick_keys : string;
  popup_keys : string
}.

(** [__init__] (lines 425-451).  [loaded] is what lines 426-430 come to:
    [load_config], [setup_logging] and the reading of the settings in
    [FastKeyTracker.__init__] either raise an exception ([ValueError] from
    [getint], [getfloat] or [getboolean], [AttributeError] from
    [getattr(logging, ...)], or any other from [configparser] or the file
    system), which ends [__init__], or give the settings.  The four clock
    readings are those of the tracker's [__init__].
    [setup_key_combinations] runs before [self.stats] is assigned. *)
Definition __init__ (int_max_str_digits : nat) (loaded : result Config)
    (init_time current_time sweep_time reset_time : Q) : result t :=
  match loaded with
  | Raise e => Raise e
  | Ok config =>
      let tracker :=
        new_tracker (timing config) init_time current_time sweep_time
          reset_time in
      match setup_key_combinations int_max_str_digits (quick_keys config)
              (popup_keys config) tracker None with
      | Raise e => Raise e
      | Ok (tracker', _) =>
          Ok (mk tracker' (cooldown config) 0 false
                (mkAppStats 0 0 0 0 0 0))
      end
  end.

(** [handle_emergency_reset] (lines 823-829). *)
Definition handle_emergency_reset (reset_time : Q) (app : t) : t :=
  let app1 := set_key_tracker (force_reset reset_time (key_tracker app)) app in
  let app2 := set_app_stats (incr_key_resets (app_stats app1)) app1 in
  set_popup_active false app2.

(** [handle_completion] (lines 831-848): the thread it starts, if any.
    [current_time] is the reading at line 833. *)
Definition handle_completion (completion_type : string) (current_time : Q)
    (app : t) : option worker * t :=
  if Qltb (float_sub current_time (last_completion_time app))
       (completion_cooldown app)
  then (None, app)
  else
    let app1 := set_last_completion_time current_time app in
    let app2 :=
      if decide (completion_type = "quick"%string)
      then set_app_stats (incr_quick_requests (app_stats app1)) app1
      else if decide (completion_type = "popup"%string)
      then set_app_stats (incr_popup_requests (app_stats app1)) app1
      else app1 in
    (Some (if decide (completion_type = "popup"%string)
           then _popup_worker else _quick_worker),
     app2).

(** [on_key_press] (lines 805-816).  [current_time] and [sweep_time] are the
    readings of the tracker's press, [completion_time] that of
    [handle_completion], [reset_time] that of [force_reset].  The test
    [if combination:] fails on [None] and on the empty name. *)
Definition on_key_press (key : KeyIdentity)
    (current_time sweep_time completion_time reset_time : Q) (app : t)
    : option worker * t :=
  if popup_active app then (None, app)
  else
    let r := on_key_press key current_time sweep_time (key_tracker app) in
    let app1 := set_key_tracker r.2 app in
    match r.1 with
    | None => (None, app1)
    | Some combination =>
        if decide (combination = EmptyString) then (None, app1)
        else if decide (combination = "reset"%string)
        then (None, handle_emergency_reset reset_time app1)
        else handle_completion combination completion_time app1
    end.

(** [on_key_release] (lines 818-821). *)
Definition on_key_release (key : KeyIdentity) (release_time : Q) (app : t)
    : t :=
  if negb (popup_active app)
  then set_key_tracker
         (on_key_release key release_time (key_tracker app)).2 app
  else app.

(** [show_popup_options] up to the moment the popup is on screen (lines
    775-783): [options] is what [generate_multiple_options] returned. *)
Definition show_popup_options (options : list string) (app : t) : t :=
  let app1 := set_popup_active true app in
  match options with
  | [] => set_popup_active false app1
  | _ => app1
  end.

(** The callback [on_selection] of the popup (lines 785-796).
    [inject_ok] is what [inject_text] returns when it is called. *)
Definition on_selection (selected_option : option string) (inject_ok : bool)
    (reset_time : Q) (app : t) : t :=
  let app1 := set_popup_active false app in
  let app2 :=
    match selected_option with
    | None => app1
    | Some text =>
        if decide (text = EmptyString) then app1
        else if inject_ok
        then set_app_stats (incr_successful_completions (app_stats app1)) app1
        else set_app_stats (incr_failed_completions (app_stats app1)) app1
    end in
  set_key_tracker (force_reset reset_time (key_tracker app2)) app2.

(** What the listener delivers. *)
Inductive key_event : Type :=
  | KeyDown (key : KeyIdentity)
      (current_time sweep_time completion_time reset_time : Q)
  | KeyUp (key : KeyIdentity) (release_time : Q).

(** One event: the thread started, if any, and the new state. *)
Definition deliver (ev : key_event) (app : t) : option worker * t :=
  match ev with
  | KeyDown key current_time sweep_time completion_time reset_time =>
      on_key_press key current_time sweep_time completion_time reset_time app
  | KeyUp key release_time => (None, on_key_release key release_time app)
  end.

(** The events in order: the threads started and the final state. *)
Fixpoint deliver_all (events : list key_event) (app : t)
    : list worker * t :=
  match events with
  | [] => ([], app)
  | ev :: rest =>
      let r := deliver ev app in
      let rs := deliver_all rest r.2 in
      (match r.1 with Some w => w :: rs.1 | None => rs.1 end, rs.2)
  end.

End App.

(** What happens to the application: a key event, a tick of the watchdog
    of its tracker (the timer thread of [start_monitoring], which does not
    look at [popup_active]), the popup coming up, and its callback. *)
Inductive app_operation : Type :=
  | Event (ev : App.key_event)
  | Watchdog (current_time sweep_time reset_time : Q)
  | PopupShown (options : list string)
  | Selected (selected_option : option string) (inject_ok : bool)
      (reset_time : Q).

Definition app_run (op : app_operation) (app : App.t) : App.t :=
  match op with
  | Event ev => (App.deliver ev app).2
  | Watchdog current_time sweep_time reset_time =>
      App.set_key_tracker
        (monitor current_time sweep_time reset_time (App.key_tracker app))
        app
  | PopupShown options => App.show_popup_options options app
  | Selected selected_option inject_ok reset_time =>
      App.on_selection selected_option inject_ok reset_time app
  end.



Definition app_run_all (ops : list app_operation) (app : App.t) : App.t :=
  foldl (λ acc op, app_run op acc) app ops.

(** Every request and every emergency reset the application counts answers
    a combination the tracker detected. *)
Definition requests_accounted (app : App.t) : Prop :=
  (App.quick_requests (App.app_stats app)
   + App.popup_requests (App.app_stats app)
   + App.key_resets (App.app_stats app)
   ≤ combinations_detected (stats (App.key_tracker app)))%nat.

(** The tracker holds no key and has no open window. *)
Definition idle (s : FastKeyTracker) : Prop :=
  key_states s = ∅ ∧ combination_start_time s = None.

(** ** Concrete applications *)

(** The application with the default bindings and a 0.3 s cooldown. *)
Definition default_config : App.Config :=
  App.mkConfig default_timing float_0_3 "ctrl+space" "shift+f1".

Definition default_app : App.t :=
  match App.__init__ 4300 (Ok default_config) 100 100 100 100 with
  | Ok app => app
  | Raise _ =>
      App.mk (initial_fields default_timing 100) float_0_3 0 false
        (App.mkAppStats 0 0 0 0 0 0)
  end.

(** A tracker on which ctrl, alt and r are registered as "reset", with
    ctrl and alt held: r completes the combination. *)
Definition reset_ready : App.t :=
  App.set_key_tracker
    (on_key_press (Key "alt") (801 # 8) (801 # 8)
       (on_key_press (Key "ctrl") 100 100 (App.key_tracker default_app)).2).2
    default_app.

(** ** Completions *)

(** Texts are strings of code points below 256, as above; the classes
    [\s] and [\d] of the patterns are [isspace_char] and [isdecimal_char]
    there. *)

(** *** The regular expressions of [clean_completion_minimal] *)

(** The length of the longest prefix of [s] whose characters satisfy [p]:
    what a greedy [[...]*] consumes. *)
Fixpoint run_length (p : Ascii.ascii → bool) (s : string) : nat :=
  match s with
  | String c s' => if p c then S (run_length p s') else 0
  | EmptyString => 0
  end.

(** [s[n:]]. *)
Fixpoint drop_chars (n : nat) (s : string) : string :=
  match n, s with
  | S n', String _ s' => drop_chars n' s'
  | _, _ => s
  end.

(** [re.sub(pattern, repl, s)] for a pattern that never matches the empty
    string: [match_at s] is the length of the match of the pattern at the
    start of [s], if there is one.  The scan goes from left to right; after
    a match it goes on behind the match.  [skip] counts the characters of
    the current match still to be passed. *)
Fixpoint sub_from (match_at : string → option nat) (repl : string)
    (skip : nat) (s : string) : string :=
  match s with
  | EmptyString => EmptyString
  | String c s' =>
      match skip with
      | S k => sub_from match_at repl k s'
      | 0 =>
          match match_at s with
          | Some (S k) => (repl ++ sub_from match_at repl k s')%string
          | _ => String c (sub_from match_at repl 0 s')
          end
      end
  end.

Definition sub (match_at : string → option nat) (repl s : string) : string :=
  sub_from match_at repl 0 s.

(** [[a-zA-Z]]. *)
Definition is_ascii_letter (c : Ascii.ascii) : bool :=
  let n := Ascii.nat_of_ascii c in
  ((65 <=? n) && (n <=? 90)) || ((97 <=? n) && (n <=? 122)).

(** The pattern of line 719: a backslash, letters, and a group in braces
    up to the first closing brace. *)
Definition command_at (s : string) : option nat :=
  match s with
  | String "\"%char s1 =>
      let letters := run_length is_ascii_letter s1 in
      if letters =? 0 then None
      else
        match drop_chars letters s1 with
        | String "{"%char s2 =>
            let body :=
              run_length (λ c, negb (bool_decide (c = "}"%char))) s2 in
            match drop_chars body s2 with
            | String "}"%char _ => Some (1 + letters + 1 + body + 1)
            | _ => None
            end
        | _ => None
        end
  | _ => None
  end.

(** The pattern of line 720: three backquotes, characters other than a
    backquote, three backquotes. *)
Definition fence_at (s : string) : option nat :=
  match s with
  | String "`"%char (String "`"%char (String "`"%char s1)) =>
      let body := run_length (λ c, negb (bool_decide (c = "`"%char))) s1 in
      match drop_chars body s1 with
      | String "`"%char (String "`"%char (String "`"%char _)) =>
          Some (3 + body + 3)
      | _ => None
      end
  | _ => None
  end.

(** A pattern [[...]+]. *)
Definition run_at (p : Ascii.ascii → bool) (s : string) : option nat :=
  match run_length p s with
  | 0 => None
  | n => Some n
  end.

Definition newline : Ascii.ascii := Ascii.ascii_of_nat 10.

(** [clean_completion_minimal] (lines 712-726). *)
Definition clean_completion_minimal (text : string) : string :=
  if decide (text = EmptyString) then EmptyString
  else
    let text1 := sub command_at "" text in
    let text2 := sub fence_at "" text1 in
    let text3 := sub (run_at (λ c, bool_decide (c = newline))) " " text2 in
    let text4 := sub (run_at isspace_char) " " text3 in
    let text5 :=
      if negb (bool_decide (text4 = EmptyString))
         && negb (startswith " "%char text4)
      then String " "%char text4
      else text4 in
    strip text5.

(** What the request of [call_ollama_unified] comes to: an exception
    anywhere in the [try] block, or a status code together with the
    [response] field of the body (the empty string when the field is
    missing). *)
Inductive reply : Type :=
  | Failed
  | Status (status_code : Z) (response : string).

(** [call_ollama_unified] (lines 681-710) on the reply to its request. *)
Definition call_ollama_unified (r : reply) : option string :=
  match r with
  | Failed => None
  | Status status_code response =>
      if decide (status_code = 200%Z)
      then Some (clean_completion_minimal (strip response))
      else None
  end.

(** The temperature of call [i] (line 736): the floats 0.2 to 0.6, and 0.3
    from the sixth call on. *)
Definition temperatures : list Q :=
  [round_float (2 # 10); float_0_3; round_float (4 # 10);
   round_float (5 # 10); round_float (6 # 10)].

Definition temperature (i : nat) : Q := nth i temperatures float_0_3.

(** One turn of the loop of [generate_multiple_options] (lines 739-742). *)
Definition add_option (completion : option string) (options : list string)
    : list string :=
  match completion with
  | None => options
  | Some text =>
      if negb (bool_decide (text = EmptyString))
         && (10 <? String.length (strip text))
      then if decide (text ∈ options) then options else options ++ [text]
      else options
  end.

(** [generate_multiple_options] (lines 728-744).  [post i temp] is the reply
    to the request of call [i], sent with temperature [temp];
    [range(count)] is empty for a negative [count]. *)
Definition generate_multiple_options (post : nat → Q → reply) (count : Z)
    : list string :=
  foldl (λ options i,
           add_option (call_ollama_unified (post i (temperature i))) options)
    [] (seq 0 (Z.to_nat count)).

(** ** The popup *)

(** The first [n] characters of [s]. *)
Fixpoint take_chars (n : nat) (s : string) : string :=
  match n, s with
  | S n', String c s' => String c (take_chars n' s')
  | _, _ => EmptyString
  end.

(** [s[:n]], also for a negative [n]. *)
Definition slice_to (n : Z) (s : string) : string :=
  let len := Z.of_nat (String.length s) in
  let stop := if (n <? 0)%Z then Z.max 0 (len + n) else Z.min n len in
  take_chars (Z.to_nat stop) s.

(** The text on the button of an option (lines 95-102). *)
Definition preview_text (max_preview : Z) (option : string) : string :=
  if (max_preview <? Z.of_nat (String.length option))%Z
  then (slice_to max_preview option ++ "...")%string
  else option.

Definition button_text (show_numbers : bool) (max_preview : Z) (i : nat)
    (option : string) : string :=
  if show_numbers
  then ("[" ++ format_N (N.of_nat (i + 1)) ++ "] "
        ++ preview_text max_preview option)%string
  else preview_text max_preview option.

(** The pattern of line 177 at the start of [s]: a bracketed number and
    the white space behind it. *)
Definition numbering_at (s : string) : option nat :=
  match s with
  | String "["%char s1 =>
      let digits := run_length isdecimal_char s1 in
      if digits =? 0 then None
      else
        match drop_chars digits s1 with
        | String "]"%char s2 =>
            Some (1 + digits + 1 + run_length isspace_char s2)
        | _ => None
        end
  | _ => None
  end.

(** [re.sub(r'^\[\d+\]\s*', '', s)]: the pattern is anchored, so only a
    match at the start is removed. *)
Definition remove_numbering (s : string) : string :=
  match numbering_at s with
  | Some n => drop_chars n s
  | None => s
  end.

(** What a selection in the popup passes to the callback.  The text of a
    button reads back as it was set. *)
Module CompletionPopup.

(** [select_first_option] (lines 172-180), bound to Enter: the text of the
    first button, without its number.  [None] when there is no button and
    nothing is selected. *)
Definition select_first_option (show_numbers : bool) (max_preview : Z)
    (options : list string) : option string :=
  match options with
  | [] => None
  | option :: _ =>
      let first_text := button_text show_numbers max_preview 0 option in
      Some (if startswith "["%char first_text
            then remove_numbering first_text
            else first_text)
  end.

(** The digit keys (lines 147-148): key [digit] is bound for
    [1 <= digit < min(10, len(options) + 1)] and selects
    [options[digit - 1]]. *)
Definition select_by_digit (digit : nat) (options : list string)
    : option string :=
  if (1 <=? digit) && (digit <? Nat.min 10 (length options + 1))
  then options !! (digit - 1)
  else None.

End CompletionPopup.

(** ** Predicates on completions *)

(** [re.sub] of a pattern [[...]+] by one space, as a scan that remembers
    whether it is inside a run. *)
Fixpoint squeeze (p : Ascii.ascii → bool) (in_run : bool) (s : string)
    : string :=
  match s with
  | EmptyString => EmptyString
  | String c s' =>
      if p c
      then if in_run then squeeze p true s'
           else String " "%char (squeeze p true s')
      else String c (squeeze p false s')
  end.

(** The white space of [s] is single spaces; [after_space] tells that the
    character before [s] is white space. *)
Fixpoint single_spaced (after_space : bool) (s : string) : bool :=
  match s with
  | EmptyString => true
  | String c s' =>
      if isspace_char c
      then bool_decide (c = " "%char) && negb after_space
           && single_spaced true s'
      else single_spaced false s'
  end.

(** * Properties *)

(** ** Comparisons *)

Lemma Qgtb_true (x y : Q) : Qgtb x y = true ↔ (y < x)%Q.
Proof.
  unfold Qgtb. rewrite negb_true_iff, <- not_true_iff_false, Qle_bool_iff.
  split; [apply Qnot_le_lt | apply Qlt_not_le].
Qed.

Lemma Qgtb_false (x y : Q) : Qgtb x y = false ↔ (x <= y)%Q.
Proof. unfold Qgtb. rewrite negb_false_iff. apply Qle_bool_iff. Qed.

Lemma float_truthy_true (t : Q) : float_truthy t = true ↔ ¬ (t == 0)%Q.
Proof.
  unfold float_truthy. rewrite negb_true_iff, <- not_true_iff_false.
  by rewrite Qeq_bool_iff.
Qed.

(** ** Float subtraction *)

Lemma pow2_pos (e : Z) : (0 < pow2 e)%Q.
Proof. apply Qpower_0_lt. reflexivity. Qed.

Lemma pow2_plus (a b : Z) : (pow2 (a + b) == pow2 a * pow2 b)%Q.
Proof. apply Qpower_plus. discriminate. Qed.

Lemma pow2_le (a b : Z) : (a ≤ b)%Z → (pow2 a <= pow2 b)%Q.
Proof. intros H. apply Qpower_le_compat_l; [exact H|]. discriminate. Qed.

Lemma pow2_inject (e : Z) : (0 ≤ e)%Z → (pow2 e == inject_Z (2 ^ e))%Q.
Proof. intros H. unfold pow2. by rewrite (Zpower_Qpower 2 e H). Qed.

Lemma pow2_opp (e : Z) : (pow2 (- e) * pow2 e == 1)%Q.
Proof.
  rewrite <- pow2_plus. replace (- e + e)%Z with 0%Z by lia. reflexivity.
Qed.

Lemma pow2_succ (e : Z) : (pow2 (e + 1) == 2 * pow2 e)%Q.
Proof. rewrite pow2_plus. change (pow2 1) with 2%Q. ring. Qed.

(** *** Rounding to an integer *)

Lemma round_half_even_cases (q : Q) :
  round_half_even q = Qfloor q ∨ round_half_even q = (Qfloor q + 1)%Z.
Proof.
  unfold round_half_even.
  destruct (_ ?= _)%Q; [destruct (Z.even _)| |]; auto.
Qed.

Lemma round_half_even_inject (n : Z) : round_half_even (inject_Z n) = n.
Proof.
  unfold round_half_even. rewrite Qfloor_Z.
  assert ((inject_Z n - inject_Z n ?= 1 # 2)%Q = Lt) as ->; [|done].
  apply (proj1 (Qlt_alt _ _)). lra.
Qed.

Lemma round_half_even_mono (x y : Q) :
  (x <= y)%Q → (round_half_even x ≤ round_half_even y)%Z.
Proof.
  intros Hxy. pose proof (Qfloor_resp_le _ _ Hxy) as Hf.
  destruct (Z.eq_dec (Qfloor x) (Qfloor y)) as [Heq|Hne].
  - unfold round_half_even. rewrite <- Heq.
    destruct (x - inject_Z (Qfloor x) ?= 1 # 2)%Q eqn:Hx;
      destruct (y - inject_Z (Qfloor x) ?= 1 # 2)%Q eqn:Hy;
      try (destruct (Z.even (Qfloor x))); try lia;
      repeat match goal with
        | H : (_ ?= _)%Q = Eq |- _ => apply Qeq_alt in H
        | H : (_ ?= _)%Q = Lt |- _ => apply Qlt_alt in H
        | H : (_ ?= _)%Q = Gt |- _ => apply Qgt_alt in H
        end; lra.
  - destruct (round_half_even_cases x) as [-> | ->],
      (round_half_even_cases y) as [-> | ->]; lia.
Qed.

Lemma round_half_even_ge (n : Z) (x : Q) :
  (inject_Z n <= x)%Q → (n ≤ round_half_even x)%Z.
Proof.
  intros H. rewrite <- (round_half_even_inject n).
  by apply round_half_even_mono.
Qed.

Lemma round_half_even_le (n : Z) (x : Q) :
  (x <= inject_Z n)%Q → (round_half_even x ≤ n)%Z.
Proof.
  intros H. rewrite <- (round_half_even_inject n).
  by apply round_half_even_mono.
Qed.

(** *** The exponent *)

Lemma binade_spec (q : Q) :
  (0 < q)%Q → (pow2 (binade q) <= q)%Q ∧ (q < pow2 (binade q + 1))%Q.
Proof.
  intros Hq. unfold binade. destruct (Qle_bool 1 q) eqn:Hle.
  - apply Qle_bool_iff in Hle.
    assert (1 ≤ Qfloor q)%Z as Hf.
    { change 1%Z with (Qfloor 1). by apply Qfloor_resp_le. }
    destruct (Z.log2_spec (Qfloor q)) as [Hlo Hhi]; [lia|].
    pose proof (Z.log2_nonneg (Qfloor q)) as Hnn.
    rewrite !pow2_inject by lia. split.
    + apply Qle_trans with (inject_Z (Qfloor q)); [|apply Qfloor_le].
      by rewrite <- Zle_Qle.
    + apply Qlt_le_trans with (inject_Z (Qfloor q + 1)); [apply Qlt_floor|].
      rewrite <- Zle_Qle. rewrite <- Z.add_1_r in Hhi. lia.
  - assert (q < 1)%Q as Hlt.
    { apply Qnot_le_lt. intros H%Qle_bool_iff. congruence. }
    assert (1 < / q)%Q as Hinv.
    { apply Qlt_shift_inv_l; [done|]. lra. }
    set (c := Qceiling (/ q)).
    assert (1 < c)%Z as Hc.
    { rewrite Zlt_Qlt. apply Qlt_le_trans with (/ q)%Q; [done|].
      apply Qle_ceiling. }
    destruct (Z.log2_up_spec c Hc) as [Hlo Hhi].
    pose proof (Z.log2_up_pos c Hc) as Hpos.
    set (u := Z.log2_up c) in *.
    assert (/ q <= pow2 u)%Q as Hup.
    { rewrite pow2_inject by lia.
      apply Qle_trans with (inject_Z c); [apply Qle_ceiling|].
      by rewrite <- Zle_Qle. }
    assert (pow2 (u - 1) < / q)%Q as Hdown.
    { rewrite pow2_inject by lia.
      apply Qle_lt_trans with (inject_Z (c - 1)); [|apply Qceiling_lt].
      rewrite <- Zle_Qle. rewrite <- Z.sub_1_r in Hlo. lia. }
    pose proof (pow2_pos u) as Hpu. pose proof (pow2_pos (u - 1)) as Hpu1.
    pose proof (pow2_opp u) as Hou. pose proof (pow2_opp (u - 1)) as Hou1.
    replace (- u + 1)%Z with (- (u - 1))%Z by lia.
    pose proof (pow2_pos (- u)) as Hnu.
    pose proof (pow2_pos (- (u - 1))) as Hnu1.
    assert (q * / q == 1)%Q as Hqq by (apply Qmult_inv_r; lra).
    split.
    + apply Qnot_lt_le. intros Hcontra.
      assert (q * / q < pow2 (- u) * pow2 u)%Q; [|lra].
      apply Qle_lt_trans with (q * pow2 u)%Q.
      * apply Qmult_le_l; [done|done].
      * apply Qmult_lt_r; [done|done].
    + apply Qnot_le_lt. intros Hcontra.
      assert (pow2 (- (u - 1)) * pow2 (u - 1) < q * / q)%Q; [|lra].
      apply Qle_lt_trans with (q * pow2 (u - 1))%Q.
      * apply Qmult_le_r; [done|done].
      * apply Qmult_lt_l; [done|done].
Qed.

Lemma binade_mono (a b : Q) :
  (0 < a)%Q → (a <= b)%Q → (binade a ≤ binade b)%Z.
Proof.
  intros Ha Hab.
  destruct (binade_spec a Ha) as [Hlo _].
  destruct (binade_spec b) as [_ Hhi]; [lra|].
  destruct (Z_le_gt_dec (binade a) (binade b)) as [|Hgt]; [done|].
  assert (pow2 (binade b + 1) <= pow2 (binade a))%Q by (apply pow2_le; lia).
  lra.
Qed.

(** *** Rounding *)

Lemma round_positive_bounds (q : Q) :
  (0 < q)%Q →
  (pow2 (binade q) <= round_positive q)%Q
  ∧ (round_positive q <= pow2 (binade q + 1))%Q.
Proof.
  intros Hq. destruct (binade_spec q Hq) as [Hlo Hhi].
  unfold round_positive. set (e := (binade q - 52)%Z).
  pose proof (pow2_pos e) as He. pose proof (pow2_pos (- e)) as Hne.
  pose proof (pow2_opp e) as Hoe.
  assert (pow2 (binade q) == inject_Z (2 ^ 52) * pow2 e)%Q as Hb.
  { rewrite <- pow2_inject by lia. rewrite <- pow2_plus.
    by replace (52 + e)%Z with (binade q) by lia. }
  assert (pow2 (binade q + 1) == inject_Z (2 ^ 53) * pow2 e)%Q as Hb1.
  { rewrite <- pow2_inject by lia. rewrite <- pow2_plus.
    by replace (53 + e)%Z with (binade q + 1)%Z by lia. }
  rewrite Hb, Hb1. rewrite Hb in Hlo. rewrite Hb1 in Hhi.
  split; (apply Qmult_le_r; [done|]); rewrite <- Zle_Qle.
  - apply round_half_even_ge.
    apply Qle_trans with (inject_Z (2 ^ 52) * (pow2 e * pow2 (- e)))%Q.
    + rewrite Qmult_comm in Hoe. rewrite Hoe. lra.
    + rewrite Qmult_assoc. by apply Qmult_le_r.
  - apply round_half_even_le.
    apply Qle_trans with (inject_Z (2 ^ 53) * (pow2 e * pow2 (- e)))%Q.
    + rewrite Qmult_assoc. apply Qmult_le_r; [done|]. by apply Qlt_le_weak.
    + rewrite Qmult_comm in Hoe. rewrite Hoe. lra.
Qed.

Lemma round_positive_pos (q : Q) : (0 < q)%Q → (0 < round_positive q)%Q.
Proof.
  intros Hq. destruct (round_positive_bounds q Hq) as [Hlo _].
  pose proof (pow2_pos (binade q)). lra.
Qed.

Lemma round_positive_mono (a b : Q) :
  (0 < a)%Q → (a <= b)%Q → (round_positive a <= round_positive b)%Q.
Proof.
  intros Ha Hab. pose proof (binade_mono a b Ha Hab) as Hbin.
  destruct (Z.eq_dec (binade a) (binade b)) as [Heq|Hne].
  - unfold round_positive. rewrite Heq.
    pose proof (pow2_pos (binade b - 52)).
    pose proof (pow2_pos (- (binade b - 52))).
    apply Qmult_le_r; [done|]. rewrite <- Zle_Qle.
    apply round_half_even_mono. by apply Qmult_le_r.
  - destruct (round_positive_bounds a Ha) as [_ Hhi].
    destruct (round_positive_bounds b) as [Hlo _]; [lra|].
    assert (pow2 (binade a + 1) <= pow2 (binade b))%Q
      by (apply pow2_le; lia).
    lra.
Qed.

Lemma round_float_mono (a b : Q) :
  (a <= b)%Q → (round_float a <= round_float b)%Q.
Proof.
  intros Hab. unfold round_float.
  destruct (a ?= 0)%Q eqn:Ha; destruct (b ?= 0)%Q eqn:Hb;
    repeat match goal with
      | H : (_ ?= _)%Q = Eq |- _ => apply Qeq_alt in H
      | H : (_ ?= _)%Q = Lt |- _ => apply Qlt_alt in H
      | H : (_ ?= _)%Q = Gt |- _ => apply Qgt_alt in H
      end; try lra.
  - assert (0 < round_positive b)%Q by (apply round_positive_pos; lra). lra.
  - assert (0 < round_positive (- a))%Q by (apply round_positive_pos; lra).
    lra.
  - assert (round_positive (- b) <= round_positive (- a))%Q
      by (apply round_positive_mono; lra).
    lra.
  - assert (0 < round_positive (- a))%Q by (apply round_positive_pos; lra).
    assert (0 < round_positive b)%Q by (apply round_positive_pos; lra).
    lra.
  - by apply round_positive_mono.
Qed.

#[global] Instance round_float_proper : Proper (Qeq ==> Qeq) round_float.
Proof.
  intros a b Hab. apply Qle_antisym; apply round_float_mono; lra.
Qed.

Lemma float_sub_mono (a b c d : Q) :
  (a <= c)%Q → (d <= b)%Q → (float_sub a b <= float_sub c d)%Q.
Proof. intros H1 H2. apply round_float_mono. lra. Qed.

Lemma round_float_nonneg (q : Q) : (0 <= q)%Q → (0 <= round_float q)%Q.
Proof. intros H. change 0%Q with (round_float 0). by apply round_float_mono. Qed.

(** A difference that stays within a float bound stays within it when it
    is rounded. *)
Lemma float_sub_le (a b bound : Q) :
  (round_float bound == bound)%Q → (a - b <= bound)%Q →
  (float_sub a b <= bound)%Q.
Proof.
  intros Hfloat Hle. rewrite <- Hfloat. by apply round_float_mono.
Qed.

Lemma float_sub_lt_mono (a b c d bound : Q) :
  (bound < float_sub a b)%Q → (a <= c)%Q → (d <= b)%Q →
  (bound < float_sub c d)%Q.
Proof.
  intros Hlt H1 H2. apply Qlt_le_trans with (float_sub a b); [done|].
  by apply float_sub_mono.
Qed.

(** ** The setters *)

Lemma stats_eta (st : Stats) :
  mkStats (total_key_presses st) (combinations_detected st)
    (combinations_timeout st) (stuck_keys_cleaned st) = st.
Proof. by destruct st. Qed.

Lemma add_stuck_keys_cleaned_0 (st : Stats) : add_stuck_keys_cleaned 0 st = st.
Proof. destruct st. unfold add_stuck_keys_cleaned. simpl. f_equal. lia. Qed.

(** ** The staleness sweep *)

Section sweep.
Variables (now : Q) (s : FastKeyTracker).

Lemma elem_of_stuck_keys (k : KeyIdentity) :
  k ∈ stuck_keys now s ↔
  ∃ pt, key_states s !! k = Some pt
        ∧ (max_key_hold_time s < float_sub now pt)%Q.
Proof.
  unfold stuck_keys. rewrite list_elem_of_fmap. split.
  - intros [[k' pt] [-> [Hp Hin]%list_elem_of_filter]].
    apply elem_of_map_to_list in Hin. exists pt. split; [done|].
    apply Is_true_true, Qgtb_true in Hp. exact Hp.
  - intros [pt [Hk Hlt]]. exists (k, pt). split; [done|].
    apply list_elem_of_filter. split.
    + apply Is_true_true, Qgtb_true. exact Hlt.
    + by apply elem_of_map_to_list.
Qed.

Lemma NoDup_stuck_keys : NoDup (stuck_keys now s).
Proof.
  unfold stuck_keys.
  apply (sublist_NoDup _ ((map_to_list (key_states s)).*1)).
  - apply NoDup_fst_map_to_list.
  - apply fmap_sublist. apply sublist_filter.
Qed.

(** Every [del self.key_states[key]] of the second loop finds its key:
    the loop raises no [KeyError]. *)
Lemma stuck_keys_held :
  Forall (λ k, is_Some (key_states s !! k)) (stuck_keys now s).
Proof.
  apply Forall_forall. intros k [pt [Hk _]]%elem_of_stuck_keys. by exists pt.
Qed.

Lemma cleanup_key_states :
  key_states (cleanup_stuck_keys now s)
  = foldr delete (key_states s) (stuck_keys now s).
Proof.
  unfold cleanup_stuck_keys. destruct (stuck_keys now s) as [|k l]; [done|].
  cbv zeta. case_decide; reflexivity.
Qed.

Lemma cleanup_lookup (k : KeyIdentity) :
  key_states (cleanup_stuck_keys now s) !! k
  = match key_states s !! k with
    | Some pt =>
        if Qgtb (float_sub now pt) (max_key_hold_time s) then None else Some pt
    | None => None
    end.
Proof.
  rewrite cleanup_key_states.
  destruct (key_states s !! k) as [pt|] eqn:Hk.
  - destruct (Qgtb (float_sub now pt) (max_key_hold_time s)) eqn:Hgt.
    + apply lookup_foldr_delete, elem_of_stuck_keys.
      exists pt. split; [done|]. by apply Qgtb_true.
    + rewrite lookup_foldr_delete_not_elem_of; [done|].
      intros [pt' [Hk' Hlt]]%elem_of_stuck_keys.
      rewrite Hk in Hk'. injection Hk' as <-.
      apply Qgtb_true in Hlt. congruence.
  - destruct (foldr delete (key_states s) (stuck_keys now s) !! k) eqn:E;
      [|done].
    apply lookup_foldr_delete_Some in E as [_ E]. congruence.
Qed.

Lemma cleanup_stats :
  stats (cleanup_stuck_keys now s)
  = add_stuck_keys_cleaned (length (stuck_keys now s)) (stats s).
Proof.
  unfold cleanup_stuck_keys. destruct (stuck_keys now s) as [|k l].
  - by rewrite add_stuck_keys_cleaned_0.
  - cbv zeta. case_decide; reflexivity.
Qed.

Lemma cleanup_start_time :
  combination_start_time (cleanup_stuck_keys now s)
  = if decide (stuck_keys now s ≠ []
               ∧ key_states (cleanup_stuck_keys now s) = ∅)
    then None else combination_start_time s.
Proof.
  rewrite cleanup_key_states.
  unfold cleanup_stuck_keys. destruct (stuck_keys now s) as [|k l] eqn:E.
  - rewrite decide_False; [done|]. by intros [? _].
  - cbv zeta.
    destruct (decide (key_states (set_key_states _ _) = ∅)) as [H0|H0].
    + rewrite decide_True; [done|]. split; [done|exact H0].
    + rewrite decide_False; [done|]. intros [_ H1]. exact (H0 H1).
Qed.

Lemma cleanup_frame :
  combinations (cleanup_stuck_keys now s) = combinations s
  ∧ last_activity (cleanup_stuck_keys now s) = last_activity s
  ∧ combination_timeout (cleanup_stuck_keys now s) = combination_timeout s
  ∧ max_key_hold_time (cleanup_stuck_keys now s) = max_key_hold_time s
  ∧ cleanup_interval (cleanup_stuck_keys now s) = cleanup_interval s.
Proof.
  unfold cleanup_stuck_keys. destruct (stuck_keys now s) as [|k l]; [done|].
  cbv zeta. case_decide; done.
Qed.

(** When no held key is past the limit the sweep changes nothing. *)
Lemma cleanup_nothing_stuck :
  (∀ k pt, key_states s !! k = Some pt →
           (float_sub now pt <= max_key_hold_time s)%Q) →
  cleanup_stuck_keys now s = s.
Proof.
  intros Hfresh. unfold cleanup_stuck_keys.
  destruct (stuck_keys now s) as [|k l] eqn:E; [done|].
  assert (Hk : k ∈ stuck_keys now s) by (rewrite E; left).
  apply elem_of_stuck_keys in Hk as [pt [Hk Hlt]].
  apply Hfresh in Hk. by apply Qlt_not_le in Hlt.
Qed.
End sweep.

(** The second loop deletes distinct, present keys: the store shrinks by
    exactly the length of [stuck_keys]. *)
Lemma size_foldr_delete (m : gmap KeyIdentity Q) (l : list KeyIdentity) :
  NoDup l → Forall (λ k, is_Some (m !! k)) l →
  size m = (size (foldr delete m l) + length l)%nat.
Proof.
  induction 1 as [|k l Hk Hnd IH]; intros Hall; simpl; [lia|].
  apply Forall_cons in Hall as [Hin Hall].
  rewrite map_size_delete_Some.
  - specialize (IH Hall).
    assert (size (foldr delete m l) ≠ 0%nat); [|lia].
    apply map_size_non_empty_iff. intros Hemp.
    rewrite <- (lookup_foldr_delete_not_elem_of m l k Hk) in Hin.
    rewrite Hemp, lookup_empty in Hin. by destruct Hin.
  - by rewrite lookup_foldr_delete_not_elem_of.
Qed.

Lemma cleanup_size (now : Q) (s : FastKeyTracker) :
  size (key_states s)
  = (size (key_states (cleanup_stuck_keys now s))
     + length (stuck_keys now s))%nat.
Proof.
  rewrite cleanup_key_states.
  apply size_foldr_delete; [apply NoDup_stuck_keys | apply stuck_keys_held].
Qed.

(** The three counters the sweep does not own. *)
Lemma cleanup_other_counters (now : Q) (s : FastKeyTracker) :
  total_key_presses (stats (cleanup_stuck_keys now s))
  = total_key_presses (stats s)
  ∧ combinations_detected (stats (cleanup_stuck_keys now s))
    = combinations_detected (stats s)
  ∧ combinations_timeout (stats (cleanup_stuck_keys now s))
    = combinations_timeout (stats s).
Proof. by rewrite cleanup_stats. Qed.

Lemma cleanup_stuck_counter (now : Q) (s : FastKeyTracker) :
  stuck_keys_cleaned (stats (cleanup_stuck_keys now s))
  = (stuck_keys_cleaned (stats s) + length (stuck_keys now s))%nat.
Proof. by rewrite cleanup_stats. Qed.

(** A sweep that empties a store that held something clears the timer. *)
Lemma cleanup_emptied (now : Q) (s : FastKeyTracker) :
  key_states s ≠ ∅ → key_states (cleanup_stuck_keys now s) = ∅ →
  combination_start_time (cleanup_stuck_keys now s) = None.
Proof.
  intros Hne Hemp. rewrite cleanup_start_time, decide_True; [done|].
  split; [|done]. intros Hnil.
  rewrite cleanup_key_states, Hnil in Hemp. simpl in Hemp. done.
Qed.

(** ** Press handling, field by field *)

Section press.
Variables (key : KeyIdentity) (current_time sweep_time : Q)
          (s : FastKeyTracker).

(** The state the press sees after its sweep. *)
Local Abbreviation swept := (cleanup_stuck_keys sweep_time s).

Lemma press_sweep_counts_only :
  cleanup_stuck_keys sweep_time
    (set_stats (incr_total_key_presses (stats s)) s)
  = set_stats (incr_total_key_presses (stats swept)) swept.
Proof.
  unfold swept, cleanup_stuck_keys.
  change (stuck_keys sweep_time
            (set_stats (incr_total_key_presses (stats s)) s))
    with (stuck_keys sweep_time s).
  destruct (stuck_keys sweep_time s) as [|k l]; [done|].
  cbv zeta. simpl key_states. by destruct (decide _).
Qed.

Lemma press_unfold :
  on_key_press_update key current_time sweep_time s
  = let s2 := set_stats (incr_total_key_presses (stats swept)) swept in
    let s3 :=
      if decide (key_states swept = ∅)
      then set_combination_start_time (Some current_time) s2
      else if combination_timed_out current_time swept
      then set_combination_start_time (Some current_time)
             (set_key_states ∅
                (set_stats (incr_combinations_timeout (stats s2)) s2))
      else s2 in
    set_last_activity current_time
      (set_key_states (<[key := current_time]> (key_states s3)) s3).
Proof.
  unfold on_key_press_update. cbv zeta. rewrite press_sweep_counts_only.
  reflexivity.
Qed.

Lemma press_key_states :
  key_states (on_key_press_update key current_time sweep_time s)
  = <[key := current_time]>
      (if decide (key_states swept = ∅) then ∅
       else if combination_timed_out current_time swept then ∅
       else key_states swept).
Proof.
  rewrite press_unfold. cbv zeta.
  destruct (decide (key_states swept = ∅)) as [He|He].
  - simpl. by rewrite He.
  - by destruct (combination_timed_out current_time swept).
Qed.

Lemma press_start_time :
  combination_start_time
    (on_key_press_update key current_time sweep_time s)
  = if decide (key_states swept = ∅) then Some current_time
    else if combination_timed_out current_time swept
    then Some current_time
    else combination_start_time swept.
Proof.
  rewrite press_unfold. cbv zeta.
  destruct (decide (key_states swept = ∅)) as [He|He]; [done|].
  by destruct (combination_timed_out current_time swept).
Qed.

Lemma press_stats :
  stats (on_key_press_update key current_time sweep_time s)
  = let st := incr_total_key_presses (stats swept) in
    if decide (key_states swept = ∅) then st
    else if combination_timed_out current_time swept
    then incr_combinations_timeout st
    else st.
Proof.
  rewrite press_unfold. cbv zeta.
  destruct (decide (key_states swept = ∅)) as [He|He]; [done|].
  by destruct (combination_timed_out current_time swept).
Qed.

Lemma press_frame :
  last_activity (on_key_press_update key current_time sweep_time s)
  = current_time
  ∧ combinations (on_key_press_update key current_time sweep_time s)
    = combinations s
  ∧ combination_timeout (on_key_press_update key current_time sweep_time s)
    = combination_timeout s
  ∧ max_key_hold_time (on_key_press_update key current_time sweep_time s)
    = max_key_hold_time s.
Proof.
  rewrite press_unfold. cbv zeta.
  destruct (cleanup_frame sweep_time s) as (Hc & _ & Ht & Hm & _).
  fold swept in Hc, Ht, Hm.
  destruct (decide (key_states swept = ∅)) as [He|He]; [by simpl|].
  by destruct (combination_timed_out current_time swept); simpl.
Qed.

(** The press never leaves the store empty before match evaluation. *)
Lemma press_holds_key :
  key_states (on_key_press_update key current_time sweep_time s) !! key
  = Some current_time.
Proof. rewrite press_key_states. apply lookup_insert_eq. Qed.

Lemma press_stuck_counter :
  stuck_keys_cleaned
    (stats (on_key_press_update key current_time sweep_time s))
  = (stuck_keys_cleaned (stats s) + length (stuck_keys sweep_time s))%nat.
Proof.
  rewrite press_stats. cbv zeta.
  rewrite <- cleanup_stuck_counter. fold swept.
  destruct (decide _); [done|].
  by destruct (combination_timed_out current_time swept).
Qed.

Lemma press_total_counter :
  total_key_presses
    (stats (on_key_press_update key current_time sweep_time s))
  = S (total_key_presses (stats s)).
Proof.
  rewrite press_stats. cbv zeta.
  destruct (cleanup_other_counters sweep_time s) as (Ht & _ & _).
  fold swept in Ht.
  destruct (decide _); simpl; [by rewrite Ht|].
  destruct (combination_timed_out current_time swept); simpl;
    by rewrite Ht.
Qed.
End press.

(** ** Match evaluation, force reset and the watchdog tick *)

Lemma check_combinations_cases (s : FastKeyTracker) :
  check_combinations s = (None, s)
  ∨ ∃ name, check_combinations s = (Some name, matched_state s).
Proof.
  unfold check_combinations. cbv zeta.
  destruct (decide _); [by left|].
  destruct (List.find _ _) as [[name ?]|]; [right; by exists name|by left].
Qed.

Lemma check_combinations_lookup (s : FastKeyTracker) (k : KeyIdentity) :
  key_states s !! k = None →
  key_states (check_combinations s).2 !! k = None.
Proof.
  intros Hk. destruct (check_combinations_cases s) as [->|[name ->]];
    [done|apply lookup_empty].
Qed.

Lemma check_combinations_stuck_counter (s : FastKeyTracker) :
  stuck_keys_cleaned (stats (check_combinations s).2)
  = stuck_keys_cleaned (stats s)
  ∧ combinations_timeout (stats (check_combinations s).2)
    = combinations_timeout (stats s)
  ∧ total_key_presses (stats (check_combinations s).2)
    = total_key_presses (stats s).
Proof. by destruct (check_combinations_cases s) as [->|[name ->]]. Qed.

Lemma force_reset_fields (reset_time : Q) (s : FastKeyTracker) :
  key_states (force_reset reset_time s) = ∅
  ∧ combination_start_time (force_reset reset_time s) = None
  ∧ last_activity (force_reset reset_time s) = reset_time
  ∧ stats (force_reset reset_time s) = stats s
  ∧ combinations (force_reset reset_time s) = combinations s.
Proof. unfold force_reset. by destruct (decide _). Qed.

Lemma monitor_cases (current_time sweep_time reset_time : Q)
    (s : FastKeyTracker) :
  monitor current_time sweep_time reset_time s
  = cleanup_stuck_keys sweep_time s
  ∨ monitor current_time sweep_time reset_time s
    = force_reset reset_time (cleanup_stuck_keys sweep_time s).
Proof. unfold monitor. cbv zeta. destruct (_ && _); [by right|by left]. Qed.

Lemma monitor_stats (current_time sweep_time reset_time : Q)
    (s : FastKeyTracker) :
  stats (monitor current_time sweep_time reset_time s)
  = stats (cleanup_stuck_keys sweep_time s).
Proof.
  destruct (monitor_cases current_time sweep_time reset_time s) as [->| ->];
    [done|apply force_reset_fields].
Qed.

(** ** Stuck-key eviction *)

Section eviction.
Variables (s : FastKeyTracker) (k : KeyIdentity) (t0 : Q).
Hypothesis Hheld : key_states s !! k = Some t0.

Lemma sweep_evicts (now : Q) :
  (max_key_hold_time s < float_sub now t0)%Q →
  key_states (cleanup_stuck_keys now s) !! k = None.
Proof.
  intros Hlt. rewrite cleanup_lookup, Hheld.
  apply Qgtb_true in Hlt. by rewrite Hlt.
Qed.

Lemma sweep_evicts_only (now : Q) :
  (max_key_hold_time s < float_sub now t0)%Q →
  (∀ k' pt, k' ≠ k → key_states s !! k' = Some pt →
            (float_sub now pt <= max_key_hold_time s)%Q) →
  key_states (cleanup_stuck_keys now s) = delete k (key_states s).
Proof.
  intros Hlt Hothers. apply map_eq. intros k'.
  destruct (decide (k' = k)) as [->|Hne].
  - by rewrite sweep_evicts, lookup_delete_eq.
  - rewrite lookup_delete_ne by done. rewrite cleanup_lookup.
    destruct (key_states s !! k') as [pt|] eqn:Hk'; [|done].
    apply (Hothers k' pt Hne) in Hk'. apply Qgtb_false in Hk'.
    by rewrite Hk'.
Qed.
End eviction.

(** C4.  A key held since [t0] is gone after any sweep whose clock reading
    is more than [max_key_hold_time] past [t0], whether the sweep runs alone,
    at the start of a press or in a watchdog tick (whose own readings
    [current_time] come before the sweep's [sweep_time]).  The stuck-key
    counter grows by exactly the number of keys the sweep removes (counter
    plus store size is conserved), by exactly one when the key is the only
    stale one, and a sweep that empties the store clears the timer. *)
Theorem stuck_key_eviction (s : FastKeyTracker) (k : KeyIdentity) (t0 : Q) :
  key_states s !! k = Some t0 →
  (∀ now, (max_key_hold_time s < float_sub now t0)%Q →
     (let s' := cleanup_stuck_keys now s in
     (k ∉ dom (key_states s'))
     ∧ (stuck_keys_cleaned (stats s') + size (key_states s')
        = stuck_keys_cleaned (stats s) + size (key_states s))%nat
     ∧ (size (key_states s') < size (key_states s))%nat
     ∧ ((∀ k' pt, k' ≠ k → key_states s !! k' = Some pt →
                  (float_sub now pt <= max_key_hold_time s)%Q) →
        key_states s' = delete k (key_states s)
        ∧ stuck_keys_cleaned (stats s') = S (stuck_keys_cleaned (stats s)))
     ∧ (key_states s' = ∅ → combination_start_time s' = None)))
  ∧ (∀ key current_time sweep_time,
       (max_key_hold_time s < float_sub current_time t0)%Q →
       (current_time <= sweep_time)%Q →
       (let swept := cleanup_stuck_keys sweep_time s in
       let s' := (on_key_press key current_time sweep_time s).2 in
       (k ∉ dom (key_states swept))
       ∧ (key ≠ k → k ∉ dom (key_states s'))
       ∧ (stuck_keys_cleaned (stats s') + size (key_states swept)
          = stuck_keys_cleaned (stats s) + size (key_states s))%nat))
  ∧ (∀ current_time sweep_time reset_time,
       (max_key_hold_time s < float_sub current_time t0)%Q →
       (current_time <= sweep_time)%Q →
       (let swept := cleanup_stuck_keys sweep_time s in
       let s' := monitor current_time sweep_time reset_time s in
       (k ∉ dom (key_states s'))
       ∧ (stuck_keys_cleaned (stats s') + size (key_states swept)
          = stuck_keys_cleaned (stats s) + size (key_states s))%nat
       ∧ (key_states s' = ∅ → combination_start_time s' = None))).
Proof.
  intros Hheld.
  assert (Hcons : ∀ now,
    (stuck_keys_cleaned (stats (cleanup_stuck_keys now s))
     + size (key_states (cleanup_stuck_keys now s))
     = stuck_keys_cleaned (stats s) + size (key_states s))%nat).
  { intros now. rewrite cleanup_stuck_counter, (cleanup_size now s). lia. }
  assert (Hne : key_states s ≠ ∅).
  { intros He. by rewrite He, lookup_empty in Hheld. }
  split; [|split].
  - intros now Hlt s'. subst s'.
    pose proof (sweep_evicts s k t0 Hheld now Hlt) as Hgone.
    split; [by apply not_elem_of_dom|].
    split; [apply Hcons|].
    assert (Hk : k ∈ stuck_keys now s).
    { apply elem_of_stuck_keys. by exists t0. }
    assert (Hpos : (0 < length (stuck_keys now s))%nat).
    { destruct (stuck_keys now s); [by apply elem_of_nil in Hk|simpl; lia]. }
    split; [rewrite (cleanup_size now s); lia|].
    split; [|by apply cleanup_emptied].
    intros Hothers.
    pose proof (sweep_evicts_only s k t0 Hheld now Hlt Hothers) as Heq.
    split; [done|].
    specialize (Hcons now). rewrite Heq in Hcons.
    rewrite map_size_delete_Some in Hcons by (by exists t0).
    apply map_size_non_empty_iff in Hne. lia.
  - intros key t c Hlt Hle swept s'. subst swept s'.
    assert (Hlt' : (max_key_hold_time s < float_sub c t0)%Q)
      by (apply (float_sub_lt_mono t t0); [done..|apply Qle_refl]).
    pose proof (sweep_evicts s k t0 Hheld c Hlt') as Hgone.
    split; [by apply not_elem_of_dom|].
    unfold on_key_press. split.
    + intros Hkey. apply not_elem_of_dom, check_combinations_lookup.
      rewrite press_key_states, lookup_insert_ne by done.
      destruct (decide _); [apply lookup_empty|].
      destruct (combination_timed_out _ _); [apply lookup_empty|done].
    + destruct (check_combinations_stuck_counter
                  (on_key_press_update key t c s)) as (-> & _).
      rewrite press_stuck_counter, <- cleanup_stuck_counter. apply Hcons.
  - intros t c r Hlt Hle swept s'. subst swept s'.
    assert (Hlt' : (max_key_hold_time s < float_sub c t0)%Q)
      by (apply (float_sub_lt_mono t t0); [done..|apply Qle_refl]).
    pose proof (sweep_evicts s k t0 Hheld c Hlt') as Hgone.
    rewrite monitor_stats.
    split; [|split; [apply Hcons|]].
    + apply not_elem_of_dom.
      destruct (monitor_cases t c r s) as [->| ->]; [done|].
      destruct (force_reset_fields r (cleanup_stuck_keys c s)) as (-> & _).
      apply lookup_empty.
    + destruct (monitor_cases t c r s) as [->| ->].
      * by apply cleanup_emptied.
      * intros _. apply force_reset_fields.
Qed.

(** ** The combination table as a dict *)

Section dict_facts.
Context {V : Type}.
Implicit Types (d : list (string * V)) (n : string) (v : V).

Lemma dict_unique d n v1 v2 :
  NoDup d.*1 → (n, v1) ∈ d → (n, v2) ∈ d → v1 = v2.
Proof.
  induction d as [|[m w] d IH]; simpl; intros Hnd H1 H2.
  - by apply elem_of_nil in H1.
  - apply NoDup_cons in Hnd as [Hm Hnd].
    apply elem_of_cons in H1 as [H1|H1]; apply elem_of_cons in H2 as [H2|H2].
    + congruence.
    + simplify_eq. destruct Hm. apply (list_elem_of_fmap_2 fst _ _ H2).
    + simplify_eq. destruct Hm. apply (list_elem_of_fmap_2 fst _ _ H1).
    + by apply IH.
Qed.

Lemma dict_setitem_names d n v :
  (dict_setitem n v d).*1 = if decide (n ∈ d.*1) then d.*1 else d.*1 ++ [n].
Proof.
  induction d as [|[m w] d IH]; simpl.
  - done.
  - destruct (decide (m = n)) as [->|Hne]; csimpl.
    + rewrite decide_True; [done|]. left.
    + rewrite IH. destruct (decide (n ∈ d.*1)) as [Hin|Hin].
      * rewrite decide_True; [done|]. by right.
      * rewrite decide_False; [done|].
        intros [?|?]%elem_of_cons; congruence.
Qed.

Lemma dict_setitem_NoDup d n v : NoDup d.*1 → NoDup (dict_setitem n v d).*1.
Proof.
  intros Hnd. rewrite dict_setitem_names.
  destruct (decide (n ∈ d.*1)); [done|].
  apply NoDup_app. split; [done|]. split; [|apply NoDup_singleton].
  intros m Hm ->%list_elem_of_singleton. done.
Qed.

Lemma dict_get_setitem_eq d n v : dict_get n (dict_setitem n v d) = Some v.
Proof.
  induction d as [|[m w] d IH]; simpl.
  - by rewrite decide_True.
  - destruct (decide (m = n)) as [->|Hne]; simpl.
    + by rewrite decide_True.
    + by rewrite decide_False.
Qed.

Lemma dict_get_setitem_ne d n n' v :
  n ≠ n' → dict_get n' (dict_setitem n v d) = dict_get n' d.
Proof.
  intros Hne. induction d as [|[m w] d IH]; simpl.
  - by rewrite decide_False.
  - destruct (decide (m = n)) as [->|Hmn]; simpl.
    + by rewrite !decide_False.
    + destruct (decide (m = n')); [done|apply IH].
Qed.

Lemma dict_get_Some d n v : dict_get n d = Some v → (n, v) ∈ d.
Proof.
  induction d as [|[m w] d IH]; simpl; [done|].
  destruct (decide (m = n)) as [->|Hne].
  - intros [= ->]. left.
  - intros H. right. by apply IH.
Qed.

Lemma elem_of_dict_get d n v :
  NoDup d.*1 → (n, v) ∈ d → dict_get n d = Some v.
Proof.
  intros Hnd Hin. destruct (dict_get n d) as [w|] eqn:E.
  - apply dict_get_Some in E. f_equal. by apply (dict_unique d n).
  - exfalso. clear Hnd. induction d as [|[m w] d IH]; simpl in *.
    + by apply elem_of_nil in Hin.
    + destruct (decide (m = n)) as [->|Hne]; [done|].
      apply elem_of_cons in Hin as [Hin|Hin]; [congruence|by apply IH].
Qed.
End dict_facts.

(** ** Exact-match evaluation *)

Lemma find_exact_match (held : gset KeyIdentity)
    (table : list (string * gset KeyIdentity)) (name : string) :
  (∃ R, List.find (exact_match held) table = Some (name, R))
  ↔ first_exact_match held table name.
Proof.
  unfold first_exact_match. induction table as [|[m S0] table IH]; simpl.
  - split; [by intros [? ?]|by intros (i & R & ? & _)].
  - unfold exact_match at 1. simpl.
    destruct (decide (held = S0)) as [->|Hne].
    + rewrite bool_decide_eq_true_2 by done. split.
      * intros [R HR]. simplify_eq. eexists 0%nat, _.
        split; [done|]. split; [done|]. intros; lia.
      * intros (i & R & Hi & -> & Hfirst). destruct i as [|i].
        -- simpl in Hi. simplify_eq. by eexists.
        -- exfalso. apply (Hfirst 0%nat m S0); [lia|done..].
    + rewrite bool_decide_eq_false_2 by done. rewrite IH. split.
      * intros (i & R & Hi & HR & Hfirst). exists (S i), R.
        split; [done|]. split; [done|].
        intros [|j] n' R' Hj Hl; simpl in Hl.
        -- simplify_eq. congruence.
        -- apply (Hfirst j n' R'); [lia|done].
      * intros (i & R & Hi & HR & Hfirst). destruct i as [|i].
        -- simpl in Hi. simplify_eq.
        -- exists i, R. split; [done|]. split; [done|].
           intros j n' R' Hj Hl. apply (Hfirst (S j) n' R'); [lia|done].
Qed.

Lemma check_combinations_result (s : FastKeyTracker) (name : string) :
  (check_combinations s).1 = Some name
  ↔ dom (key_states s) ≠ ∅
    ∧ first_exact_match (dom (key_states s)) (combinations s) name.
Proof.
  rewrite <- find_exact_match. unfold check_combinations. cbv zeta.
  destruct (decide (dom (key_states s) = ∅)) as [He|He]; simpl.
  - split; [done|]. by intros [? _].
  - destruct (List.find _ _) as [[m R]|]; simpl.
    + split.
      * intros [= ->]. split; [done|]. by exists R.
      * intros [_ [R' [= -> _]]]. done.
    + split; [done|]. by intros [_ [R' ?]].
Qed.

Lemma first_exact_match_exists (held : gset KeyIdentity)
    (table : list (string * gset KeyIdentity)) (n : string) :
  (n, held) ∈ table → ∃ name, first_exact_match held table name.
Proof.
  intros Hin.
  destruct (List.find (exact_match held) table) as [[m R]|] eqn:E.
  - exists m. apply find_exact_match. by exists R.
  - exfalso. apply list_elem_of_In in Hin.
    apply (List.find_none _ _ E) in Hin. unfold exact_match in Hin.
    simpl in Hin. by rewrite bool_decide_eq_true_2 in Hin.
Qed.

(** ** Registration *)

Lemma elem_of_modifier_keys (m : KeyIdentity) :
  m ∈ modifier_keys ↔ m = Key "ctrl" ∨ m = Key "shift" ∨ m = Key "alt".
Proof.
  unfold modifier_keys. rewrite !elem_of_union, !elem_of_singleton. tauto.
Qed.

Lemma add_combination_refuses (name : string) (keys : list KeyIdentity)
    (s : FastKeyTracker) :
  (add_combination name keys s).1 = false
  ↔ refused_key_set (list_to_set keys).
Proof.
  unfold add_combination, refused_key_set. cbv zeta.
  set (key_set := list_to_set keys : gset KeyIdentity).
  destruct (decide (size key_set = 0%nat)) as [H0|H0]; simpl.
  - split; [|done]. intros _. left.
    by apply leibniz_equiv, size_empty_iff.
  - destruct (decide (size key_set = 1%nat ∧ key_set ⊆ modifier_keys))
      as [[H1 Hsub]|H1]; simpl.
    + split; [|done]. intros _. right.
      apply size_1_elem_of in H1 as [m Hm]. apply leibniz_equiv in Hm.
      exists m. split; [|done]. apply elem_of_modifier_keys, Hsub.
      rewrite Hm. by apply elem_of_singleton.
    + split; [done|]. intros [He|[m [Hm He]]].
      * destruct H0. rewrite He. apply size_empty.
      * destruct H1. rewrite He. split; [apply size_singleton|].
        apply elem_of_modifier_keys in Hm.
        intros x Hx%elem_of_singleton. by rewrite Hx.
Qed.

Lemma add_combination_cases (name : string) (keys : list KeyIdentity)
    (s : FastKeyTracker) :
  add_combination name keys s = (false, s)
  ∨ add_combination name keys s
    = (true,
       set_combinations
         (dict_setitem name (list_to_set keys) (combinations s)) s).
Proof.
  unfold add_combination. cbv zeta.
  destruct (decide _); [by left|]. destruct (decide _); [by left|by right].
Qed.

Lemma check_combinations_name_registered (s : FastKeyTracker) (name : string) :
  (check_combinations s).1 = Some name → name ∈ (combinations s).*1.
Proof.
  intros [_ (i & R & Hi & _)]%check_combinations_result.
  apply list_elem_of_fmap. exists (name, R). split; [done|].
  apply list_elem_of_lookup. by exists i.
Qed.

(** C5.  [add_combination] returns [False] exactly when the key set (the
    keys as a set) is empty or is a single key among ctrl, shift and alt; a
    refused call leaves the whole tracker as it was, so a refused name that
    was not in the table is reported by no later match evaluation; an
    accepted call stores the key set under the name (a name already in the
    table keeps its place, a new one goes last), leaves every other entry
    and every other field alone. *)
Theorem registration_validation (name : string) (keys : list KeyIdentity)
    (s : FastKeyTracker) :
  let key_set : gset KeyIdentity := list_to_set keys in
  let r := add_combination name keys s in
  (r.1 = false ↔ refused_key_set key_set)
  ∧ (r.1 = false →
     r.2 = s
     ∧ (name ∉ (combinations s).*1 →
        ∀ u, combinations u = combinations r.2 →
             (check_combinations u).1 ≠ Some name))
  ∧ (r.1 = true →
     combinations r.2 = dict_setitem name key_set (combinations s)
     ∧ dict_get name (combinations r.2) = Some key_set
     ∧ (∀ other, other ≠ name →
          dict_get other (combinations r.2) = dict_get other (combinations s))
     ∧ (combinations r.2).*1
       = (if decide (name ∈ (combinations s).*1) then (combinations s).*1
          else (combinations s).*1 ++ [name])
     ∧ key_states r.2 = key_states s
     ∧ combination_start_time r.2 = combination_start_time s
     ∧ last_activity r.2 = last_activity s
     ∧ stats r.2 = stats s).
Proof.
  intros key_set r. subst r.
  split; [apply add_combination_refuses|].
  destruct (add_combination_cases name keys s) as [-> | ->]; simpl.
  - split; [|done]. intros _. split; [done|].
    intros Hfresh u Hu Hres.
    apply check_combinations_name_registered in Hres. by rewrite Hu in Hres.
  - split; [done|]. intros _. fold key_set.
    split; [done|]. split; [apply dict_get_setitem_eq|].
    split; [|split; [apply dict_setitem_names|done]].
    intros other Hne. by apply dict_get_setitem_ne.
Qed.

(** ** What the table can hold *)

Lemma elem_of_dict_setitem {V : Type} (d : list (string * V))
    (n m : string) (v w : V) :
  (m, w) ∈ dict_setitem n v d → (m = n ∧ w = v) ∨ (m, w) ∈ d.
Proof.
  induction d as [|[n0 v0] d IH]; simpl.
  - intros Hin%list_elem_of_singleton. left. by simplify_eq.
  - destruct (decide (n0 = n)) as [->|Hne].
    + intros [Hin|Hin]%elem_of_cons; [left; by simplify_eq|].
      right. by right.
    + intros [Hin|Hin]%elem_of_cons.
      * right. rewrite Hin. left.
      * destruct (IH Hin) as [?|?]; [by left|]. right. by right.
Qed.

Lemma add_combination_table_valid (name : string) (keys : list KeyIdentity)
    (s : FastKeyTracker) :
  table_valid (combinations s) →
  table_valid (combinations (add_combination name keys s).2).
Proof.
  intros [Hnd Hvalid].
  pose proof (add_combination_refuses name keys s) as Href.
  destruct (add_combination_cases name keys s) as [E | E];
    rewrite E in Href |- *; simpl in *; [done|].
  split; [by apply dict_setitem_NoDup|].
  intros m R [[-> ->]|Hin]%elem_of_dict_setitem; [|by apply (Hvalid m)].
  intros Hbad. apply Href in Hbad. done.
Qed.

Lemma register_all_table_valid (regs : list (string * list KeyIdentity))
    (s : FastKeyTracker) :
  table_valid (combinations s) →
  table_valid (combinations (register_all regs s)).
Proof.
  revert s. induction regs as [|[name keys] regs IH]; intros s Hs; [done|].
  simpl. apply IH. by apply add_combination_table_valid.
Qed.

Lemma monitor_combinations (current_time sweep_time reset_time : Q)
    (s : FastKeyTracker) :
  combinations (monitor current_time sweep_time reset_time s)
  = combinations s.
Proof.
  destruct (cleanup_frame sweep_time s) as (Hc & _).
  destruct (monitor_cases current_time sweep_time reset_time s) as [->| ->];
    [done|].
  by destruct (force_reset_fields reset_time (cleanup_stuck_keys sweep_time s))
    as (_ & _ & _ & _ & ->).
Qed.

Lemma new_tracker_table_valid (cfg : Timing)
    (init_time current_time sweep_time reset_time : Q) :
  table_valid
    (combinations
       (new_tracker cfg init_time current_time sweep_time reset_time)).
Proof.
  unfold new_tracker. rewrite monitor_combinations. simpl.
  split; [apply NoDup_nil_2|]. intros name R Hin. by apply elem_of_nil in Hin.
Qed.

Lemma register_all_origin (regs : list (string * list KeyIdentity))
    (s : FastKeyTracker) (name : string) (R : gset KeyIdentity) :
  (name, R) ∈ combinations (register_all regs s) →
  (name, R) ∈ combinations s
  ∨ ∃ keys, (name, keys) ∈ regs ∧ R = list_to_set keys.
Proof.
  revert s. induction regs as [|[n keys] regs IH]; intros s; simpl;
    [by left|].
  intros [Hin|(keys' & Hin & ->)]%IH.
  - destruct (add_combination_cases n keys s) as [E|E];
      rewrite E in Hin; simpl in Hin; [by left|].
    apply elem_of_dict_setitem in Hin as [[-> ->]|Hin]; [|by left].
    right. exists keys. split; [left|done].
  - right. exists keys'. split; [by right|done].
Qed.

Lemma not_refused_size (R : gset KeyIdentity) :
  ¬ refused_key_set R →
  (1 ≤ size R)%nat
  ∧ (size R = 1%nat →
     ∀ m, m ∈ R → m ≠ Key "ctrl" ∧ m ≠ Key "shift" ∧ m ≠ Key "alt").
Proof.
  intros Hok. split.
  - destruct (size R) eqn:E; [|lia]. destruct Hok. left.
    by apply leibniz_equiv, size_empty_iff.
  - intros [x Hx]%size_1_elem_of m Hm. apply leibniz_equiv in Hx. subst R.
    apply elem_of_singleton in Hm as ->.
    assert (Hnot : ¬ (x = Key "ctrl" ∨ x = Key "shift" ∨ x = Key "alt")).
    { intros Hmod. apply Hok. right. by exists x. }
    tauto.
Qed.

(** C9, as the code has it.  Whatever calls of [add_combination] are made
    on a new tracker, every entry of the table comes from one of the calls,
    has at least one key, and when it has exactly one key that key is none of
    ctrl, shift and alt.  (A single key that is not a modifier, such as
    [Key.f1], is accepted.) *)
Theorem installed_combinations (cfg : Timing)
    (init_time current_time sweep_time reset_time : Q)
    (regs : list (string * list KeyIdentity))
    (name : string) (R : gset KeyIdentity) :
  (name, R) ∈ combinations
                (register_all regs
                   (new_tracker cfg init_time current_time sweep_time
                      reset_time)) →
  (1 ≤ size R)%nat
  ∧ (size R = 1%nat →
     ∀ m, m ∈ R → m ≠ Key "ctrl" ∧ m ≠ Key "shift" ∧ m ≠ Key "alt")
  ∧ ∃ keys, (name, keys) ∈ regs ∧ R = list_to_set keys.
Proof.
  intros Hin.
  pose proof (register_all_table_valid regs _
                (new_tracker_table_valid cfg init_time current_time
                   sweep_time reset_time)) as [_ Hvalid].
  destruct (not_refused_size R (Hvalid name R Hin)) as [H1 H2].
  split; [done|]. split; [done|].
  apply register_all_origin in Hin as [Hin|Hin]; [|done].
  unfold new_tracker in Hin. rewrite monitor_combinations in Hin.
  by apply elem_of_nil in Hin.
Qed.

(** A name that is not in the dict is appended. *)
Lemma dict_setitem_fresh {V : Type} (d : list (string * V)) (n : string)
    (v : V) :
  n ∉ d.*1 → dict_setitem n v d = d ++ [(n, v)].
Proof.
  induction d as [|[m w] d IH]; simpl; [done|].
  intros Hn. apply not_elem_of_cons in Hn as [Hne Hn].
  rewrite decide_False by congruence. by rewrite IH.
Qed.

(** Accepted registrations under new, distinct names extend the table in
    the order of the calls. *)
Lemma register_all_in_order (regs : list (string * list KeyIdentity))
    (s : FastKeyTracker) :
  NoDup regs.*1 →
  (∀ n, n ∈ regs.*1 → n ∉ (combinations s).*1) →
  Forall (λ reg, ¬ refused_key_set (list_to_set reg.2)) regs →
  combinations (register_all regs s)
  = combinations s ++ (registered_entry <$> regs).
Proof.
  revert s. induction regs as [|[n keys] regs IH]; intros s Hnd Hnew Hok.
  { simpl. by rewrite app_nil_r. }
  apply NoDup_cons in Hnd as [Hn Hnd]. apply Forall_cons in Hok as [Hacc Hok].
  simpl in Hacc.
  assert (E : add_combination n keys s
              = (true,
                 set_combinations
                   (dict_setitem n (list_to_set keys) (combinations s)) s)).
  { destruct (add_combination_cases n keys s) as [E|E]; [|done].
    destruct Hacc. apply (add_combination_refuses n keys s). by rewrite E. }
  simpl. rewrite E. simpl. rewrite IH; [|done| |done].
  - simpl. rewrite dict_setitem_fresh by (apply Hnew; left).
    by rewrite <- app_assoc.
  - intros m Hm. simpl. rewrite dict_setitem_names.
    rewrite decide_False by (apply Hnew; left).
    intros [Hin|Hin%list_elem_of_singleton]%elem_of_app.
    + revert Hin. apply Hnew. by right.
    + by subst m.
Qed.

Lemma new_tracker_register_all_in_order (cfg : Timing)
    (init_time current_time sweep_time reset_time : Q)
    (regs : list (string * list KeyIdentity)) :
  NoDup regs.*1 →
  Forall (λ reg, ¬ refused_key_set (list_to_set reg.2)) regs →
  combinations
    (register_all regs
       (new_tracker cfg init_time current_time sweep_time reset_time))
  = registered_entry <$> regs.
Proof.
  intros Hnd Hok. rewrite register_all_in_order; [|done| |done].
  - unfold new_tracker. by rewrite monitor_combinations.
  - intros n _. unfold new_tracker. rewrite monitor_combinations.
    apply not_elem_of_nil.
Qed.

(** C1.  Match evaluation reports [name] exactly when the held-key set is
    not empty and [name] is the first entry of the table, in the table's
    iteration order, whose key set equals the held-key set.  With the names
    of the table distinct (it is a dict): a reported name has a key set equal
    to the held set, so a held set that is a strict subset or a strict
    superset of an entry's key set never reports that entry; the empty held
    set reports nothing; whenever some entry equals the held set a match is
    reported; and what a press returns is this evaluation on the held set
    the press leaves, which is never empty.  The iteration order of the
    table is the order of registration: accepted registrations under
    distinct names on a new tracker give the table entry by entry, in that
    order. *)
Theorem exact_match_only (s : FastKeyTracker) :
  NoDup (combinations s).*1 →
  let held := dom (key_states s) in
  (∀ name, (check_combinations s).1 = Some name
           ↔ held ≠ ∅ ∧ first_exact_match held (combinations s) name)
  ∧ (∀ name R, (name, R) ∈ combinations s →
               (check_combinations s).1 = Some name → R = held)
  ∧ (∀ name R, (name, R) ∈ combinations s → R ⊂ held ∨ held ⊂ R →
               (check_combinations s).1 ≠ Some name)
  ∧ (held = ∅ → (check_combinations s).1 = None)
  ∧ (∀ name, held ≠ ∅ → (name, held) ∈ combinations s →
             ∃ first, (check_combinations s).1 = Some first)
  ∧ (∀ key current_time sweep_time,
       let pressed := on_key_press_update key current_time sweep_time s in
       on_key_press key current_time sweep_time s = check_combinations pressed
       ∧ key ∈ dom (key_states pressed)
       ∧ combinations pressed = combinations s
       ∧ ∀ name, (on_key_press key current_time sweep_time s).1 = Some name
                 ↔ first_exact_match (dom (key_states pressed))
                     (combinations s) name)
  ∧ (∀ cfg init_time current_time sweep_time reset_time regs,
       NoDup regs.*1 →
       Forall (λ reg, ¬ refused_key_set (list_to_set reg.2)) regs →
       combinations
         (register_all regs
            (new_tracker cfg init_time current_time sweep_time reset_time))
       = registered_entry <$> regs).
Proof.
  intros Hnd held.
  assert (Hexact : ∀ name R, (name, R) ∈ combinations s →
                     (check_combinations s).1 = Some name → R = held).
  { intros name R Hin [_ (i & R' & Hi & HR' & _)]%check_combinations_result.
    subst R'. apply (dict_unique (combinations s) name); [done..|].
    apply list_elem_of_lookup. by exists i. }
  split; [apply check_combinations_result|].
  split; [exact Hexact|].
  split.
  { intros name R Hin Hstrict Hres. specialize (Hexact name R Hin Hres).
    subst R. destruct Hstrict as [[_ H]|[_ H]]; by apply H. }
  split.
  { intros He. destruct (check_combinations s).1 as [name|] eqn:E; [|done].
    apply check_combinations_result in E as [E _]. done. }
  split.
  { intros name Hne Hin.
    destruct (first_exact_match_exists held _ name Hin) as [first Hfirst].
    exists first. by apply check_combinations_result. }
  split; [|apply new_tracker_register_all_in_order].
  intros key t c pressed. subst pressed.
  set (pressed := on_key_press_update key t c s).
  assert (Hkey : key ∈ dom (key_states pressed)).
  { apply elem_of_dom. exists t. apply press_holds_key. }
  destruct (press_frame key t c s) as (_ & Hc & _). fold pressed in Hc.
  split; [done|]. split; [done|]. split; [done|].
  intros name. unfold on_key_press. rewrite check_combinations_result.
  fold pressed. rewrite Hc. split; [by intros [_ ?]|].
  intros Hfirst. split; [|done]. intros He. rewrite He in Hkey.
  by apply not_elem_of_empty in Hkey.
Qed.

(** ** After a match *)

Lemma cleanup_empty_store (now : Q) (s : FastKeyTracker) :
  key_states s = ∅ → cleanup_stuck_keys now s = s.
Proof.
  intros He. apply cleanup_nothing_stuck. intros k pt.
  by rewrite He, lookup_empty.
Qed.

Lemma press_detected_counter (key : KeyIdentity) (current_time sweep_time : Q)
    (s : FastKeyTracker) :
  combinations_detected
    (stats (on_key_press_update key current_time sweep_time s))
  = combinations_detected (stats s).
Proof.
  rewrite press_stats. cbv zeta.
  destruct (cleanup_other_counters sweep_time s) as (_ & Hd & _).
  destruct (decide _); simpl; [done|].
  by destruct (combination_timed_out _ _); simpl.
Qed.

(** A press on an empty store: no eviction, no timeout, a new window. *)
Lemma press_on_empty_store (key : KeyIdentity) (current_time sweep_time : Q)
    (s : FastKeyTracker) :
  key_states s = ∅ →
  key_states (on_key_press_update key current_time sweep_time s)
  = {[ key := current_time ]}
  ∧ combination_start_time
      (on_key_press_update key current_time sweep_time s)
    = Some current_time
  ∧ stats (on_key_press_update key current_time sweep_time s)
    = incr_total_key_presses (stats s).
Proof.
  intros He.
  rewrite press_key_states, press_start_time, press_stats. cbv zeta.
  rewrite (cleanup_empty_store sweep_time s He).
  rewrite !decide_True by done. by rewrite insert_empty.
Qed.

(** A press that reports nothing leaves the state it evaluated. *)
Lemma check_combinations_none (s : FastKeyTracker) :
  (check_combinations s).1 = None → (check_combinations s).2 = s.
Proof. by destruct (check_combinations_cases s) as [->|[name ->]]. Qed.

Lemma check_combinations_some (s : FastKeyTracker) (name : string) :
  (check_combinations s).1 = Some name →
  (check_combinations s).2 = matched_state s.
Proof. by destruct (check_combinations_cases s) as [->|[name' ->]]. Qed.

(** C3.  A press that returns a name leaves the store empty and the timer
    unset, with one more detected combination.  Whatever the next press is,
    it evicts nothing and counts no timeout, and at its match evaluation the
    store holds its key alone and the timer is its own timestamp; that
    window stands after the press unless the press itself matches. *)
Theorem match_resets_attempt (s : FastKeyTracker) (key : KeyIdentity)
    (current_time sweep_time : Q) (name : string) :
  (on_key_press key current_time sweep_time s).1 = Some name →
  let s' := (on_key_press key current_time sweep_time s).2 in
  key_states s' = ∅
  ∧ combination_start_time s' = None
  ∧ combinations_detected (stats s') = S (combinations_detected (stats s))
  ∧ ∀ key2 t2 c2,
      let pressed := on_key_press_update key2 t2 c2 s' in
      let s'' := (on_key_press key2 t2 c2 s').2 in
      key_states pressed = {[ key2 := t2 ]}
      ∧ combination_start_time pressed = Some t2
      ∧ combinations_timeout (stats pressed) = combinations_timeout (stats s')
      ∧ stuck_keys_cleaned (stats pressed) = stuck_keys_cleaned (stats s')
      ∧ on_key_press key2 t2 c2 s' = check_combinations pressed
      ∧ ((on_key_press key2 t2 c2 s').1 = None →
         key_states s'' = {[ key2 := t2 ]}
         ∧ combination_start_time s'' = Some t2).
Proof.
  intros Hres s'. subst s'. unfold on_key_press in Hres |- *.
  rewrite (check_combinations_some _ name Hres).
  split; [done|]. split; [done|].
  split;
    [exact (f_equal S (press_detected_counter key current_time sweep_time s))|].
  intros key2 t2 c2. cbv zeta.
  set (m := matched_state (on_key_press_update key current_time sweep_time s)).
  destruct (press_on_empty_store key2 t2 c2 m eq_refl) as (Hk & Ht & Hs).
  rewrite Hk, Ht, Hs.
  split; [done|]. split; [done|]. split; [done|]. split; [done|].
  split; [done|].
  intros Hnone. rewrite (check_combinations_none _ Hnone). by rewrite Hk, Ht.
Qed.

(** ** Assembly timeout *)

Lemma cleanup_keeps_start_time (now : Q) (s : FastKeyTracker) :
  key_states (cleanup_stuck_keys now s) ≠ ∅ →
  combination_start_time (cleanup_stuck_keys now s)
  = combination_start_time s.
Proof.
  intros Hne. rewrite cleanup_start_time, decide_False; [done|].
  by intros [_ ?].
Qed.

Lemma combination_timed_out_true (current_time start : Q)
    (s : FastKeyTracker) :
  combination_start_time s = Some start →
  ¬ (start == 0)%Q →
  (combination_timeout s < float_sub current_time start)%Q →
  combination_timed_out current_time s = true.
Proof.
  intros Hs Hnz Hlt. unfold combination_timed_out. rewrite Hs.
  apply andb_true_iff. split; [by apply float_truthy_true|by apply Qgtb_true].
Qed.

Lemma combination_timed_out_false (current_time : Q) (s : FastKeyTracker) :
  (∀ start, combination_start_time s = Some start →
            (float_sub current_time start <= combination_timeout s)%Q) →
  combination_timed_out current_time s = false.
Proof.
  intros Hin. unfold combination_timed_out.
  destruct (combination_start_time s) as [start|]; [|done].
  apply andb_false_iff. right. apply Qgtb_false. by apply Hin.
Qed.

(** A press that finds, after its sweep, a held key and a window older than
    the timeout. *)
Lemma press_after_timeout (key : KeyIdentity) (current_time sweep_time : Q)
    (s : FastKeyTracker) (start : Q) :
  combination_start_time s = Some start →
  ¬ (start == 0)%Q →
  (combination_timeout s < float_sub current_time start)%Q →
  key_states (cleanup_stuck_keys sweep_time s) ≠ ∅ →
  key_states (on_key_press_update key current_time sweep_time s)
  = {[ key := current_time ]}
  ∧ combination_start_time
      (on_key_press_update key current_time sweep_time s)
    = Some current_time
  ∧ stats (on_key_press_update key current_time sweep_time s)
    = incr_combinations_timeout
        (incr_total_key_presses (stats (cleanup_stuck_keys sweep_time s))).
Proof.
  intros Hs Hnz Hlt Hne.
  assert (Hto : combination_timed_out current_time
                  (cleanup_stuck_keys sweep_time s) = true).
  { apply (combination_timed_out_true _ start); [|done|].
    - by rewrite cleanup_keeps_start_time.
    - by destruct (cleanup_frame sweep_time s) as (_ & _ & -> & _). }
  rewrite press_key_states, press_start_time, press_stats. cbv zeta.
  rewrite !decide_False by done. rewrite Hto. by rewrite insert_empty.
Qed.

Lemma check_combinations_no_entry (s : FastKeyTracker) :
  (∀ name, (name, dom (key_states s)) ∉ combinations s) →
  check_combinations s = (None, s).
Proof.
  intros Hno. destruct (check_combinations_cases s) as [E|[name E]]; [done|].
  assert (Hres : (check_combinations s).1 = Some name) by by rewrite E.
  apply check_combinations_result in Hres as [_ (i & R & Hi & -> & _)].
  destruct (Hno name). apply list_elem_of_lookup. by exists i.
Qed.

(** C2, as the code has it.  Press [p1] at [t0] leaves a window that starts
    at [t0] (so it matched nothing), [t0] is a non-zero clock reading, and
    press [p2] comes at [t2] with the float difference [t2 - t0] above the
    timeout.  Then, whatever the hold limit, the store at the match
    evaluation of [p2] is the key of [p2] alone and the window starts at
    [t2].  The timeout is counted, once, exactly when the sweep of [p2]
    (reading [c2]) leaves a key in the store: it is counted when the key of
    [p1] is still within [max_key_hold_time] at [c2], and it is not when
    every held key is past the limit at [c2]; the sweep then counts them all
    as stuck keys.  The match evaluation runs on the key of [p2] alone: it
    reports the first entry of the table that is this one key; when there is
    none it reports nothing and the store stays the key of [p2] alone. *)
Theorem timeout_restarts_attempt (s0 : FastKeyTracker)
    (k1 k2 : KeyIdentity) (t0 c0 t2 c2 : Q) :
  let s1 := (on_key_press k1 t0 c0 s0).2 in
  combination_start_time s1 = Some t0 →
  ¬ (t0 == 0)%Q →
  (combination_timeout s1 < float_sub t2 t0)%Q →
  let swept := cleanup_stuck_keys c2 s1 in
  let pressed := on_key_press_update k2 t2 c2 s1 in
  let s2 := (on_key_press k2 t2 c2 s1).2 in
  key_states s1 !! k1 = Some t0
  ∧ key_states pressed = {[ k2 := t2 ]}
  ∧ combination_start_time pressed = Some t2
  ∧ combinations_timeout (stats s2) = combinations_timeout (stats pressed)
  ∧ stuck_keys_cleaned (stats s2) = stuck_keys_cleaned (stats pressed)
  ∧ (key_states swept ≠ ∅ →
     combinations_timeout (stats pressed)
     = S (combinations_timeout (stats s1)))
  ∧ (key_states swept = ∅ →
     combinations_timeout (stats pressed) = combinations_timeout (stats s1)
     ∧ stuck_keys_cleaned (stats pressed)
       = (stuck_keys_cleaned (stats s1) + size (key_states s1))%nat)
  ∧ ((float_sub c2 t0 <= max_key_hold_time s1)%Q → key_states swept ≠ ∅)
  ∧ ((∀ k pt, key_states s1 !! k = Some pt →
              (max_key_hold_time s1 < float_sub c2 pt)%Q) →
     key_states swept = ∅)
  ∧ (∀ name, (on_key_press k2 t2 c2 s1).1 = Some name
             ↔ first_exact_match {[ k2 ]} (combinations s1) name)
  ∧ (not_a_combination k2 s1 →
     (on_key_press k2 t2 c2 s1).1 = None
     ∧ key_states s2 = {[ k2 := t2 ]}
     ∧ dom (key_states s2) = {[ k2 ]}
     ∧ combination_start_time s2 = Some t2).
Proof.
  intros s1 Hstart Hnz Hlt swept pressed s2.
  assert (Hs1 : s1 = on_key_press_update k1 t0 c0 s0).
  { subst s1. unfold on_key_press in Hstart |- *.
    by destruct (check_combinations_cases (on_key_press_update k1 t0 c0 s0))
      as [E|[name E]]; rewrite E in Hstart |- *. }
  assert (Hk1 : key_states s1 !! k1 = Some t0).
  { rewrite Hs1. apply press_holds_key. }
  destruct (cleanup_other_counters c2 s1) as (_ & _ & Hto).
  assert (Hfields :
    key_states pressed = {[ k2 := t2 ]}
    ∧ combination_start_time pressed = Some t2
    ∧ (key_states swept ≠ ∅ →
       combinations_timeout (stats pressed)
       = S (combinations_timeout (stats s1)))
    ∧ (key_states swept = ∅ →
       combinations_timeout (stats pressed)
       = combinations_timeout (stats s1)
       ∧ stuck_keys_cleaned (stats pressed)
         = (stuck_keys_cleaned (stats s1) + size (key_states s1))%nat)).
  { destruct (decide (key_states swept = ∅)) as [He|Hne].
    - subst pressed.
      rewrite press_key_states, press_start_time, press_stats. cbv zeta.
      fold swept. rewrite !decide_True by done. rewrite insert_empty.
      split; [done|]. split; [done|]. split; [done|]. intros _.
      split; [exact Hto|]. cbn [stats incr_total_key_presses stuck_keys_cleaned].
      pose proof (cleanup_size c2 s1) as Hsize.
      pose proof (cleanup_stuck_counter c2 s1) as Hstuck.
      fold swept in Hsize, Hstuck. rewrite He, map_size_empty in Hsize.
      rewrite Hstuck, Hsize. done.
    - destruct (press_after_timeout k2 t2 c2 s1 t0 Hstart Hnz Hlt Hne)
        as (Hks & Hst & Hstats). fold pressed in Hks, Hst, Hstats.
      split; [done|]. split; [done|]. split; [|done].
      intros _. rewrite Hstats. simpl. by rewrite Hto. }
  destruct Hfields as (Hks & Hst & Hcount & Hnone).
  destruct (check_combinations_stuck_counter pressed) as (Hsc & Htc & _).
  destruct (press_frame k2 t2 c2 s1) as (_ & Hc & _). fold pressed in Hc.
  split; [done|]. split; [done|]. split; [done|].
  split; [exact Htc|]. split; [exact Hsc|].
  split; [done|]. split; [done|].
  split.
  { intros Hhold He.
    assert (Hsurv : key_states swept !! k1 = Some t0).
    { subst swept. rewrite cleanup_lookup, Hk1.
      apply Qgtb_false in Hhold. by rewrite Hhold. }
    by rewrite He, lookup_empty in Hsurv. }
  split.
  { intros Hstale. apply map_empty. intros k. subst swept.
    rewrite cleanup_lookup.
    destruct (key_states s1 !! k) as [pt|] eqn:Hk; [|done].
    specialize (Hstale k pt Hk). apply Qgtb_true in Hstale.
    by rewrite Hstale. }
  split.
  { intros name. unfold on_key_press. fold pressed.
    rewrite check_combinations_result, Hks, Hc, dom_singleton_L.
    split; [by intros [_ ?]|]. intros Hfirst. split; [|done].
    intros He. assert (Hin : k2 ∈ ({[ k2 ]} : gset KeyIdentity))
      by by apply elem_of_singleton.
    rewrite He in Hin. by apply not_elem_of_empty in Hin. }
  intros Hnot. subst s2. unfold on_key_press. fold pressed.
  rewrite check_combinations_no_entry.
  - cbn [fst snd]. rewrite Hks, Hst. split; [done|]. split; [done|].
    split; [apply dom_singleton_L|done].
  - intros name. rewrite Hks, dom_singleton_L, Hc. apply Hnot.
Qed.

(** ** The watchdog *)

Lemma monitor_unfold (current_time sweep_time reset_time : Q)
    (s : FastKeyTracker) :
  monitor current_time sweep_time reset_time s
  = if Qgtb (float_sub current_time (last_activity s)) 5
       && bool_decide (key_states (cleanup_stuck_keys sweep_time s) ≠ ∅)
    then force_reset reset_time (cleanup_stuck_keys sweep_time s)
    else cleanup_stuck_keys sweep_time s.
Proof.
  unfold monitor. cbv zeta.
  by destruct (cleanup_frame sweep_time s) as (_ & -> & _).
Qed.

(** C6.  With a key held and the last recorded activity more than 5.0
    seconds before the tick's clock reading, a watchdog tick leaves the store
    empty and the timer unset.  When no held key is past
    [max_key_hold_time] at the sweep, the sweep removes nothing and the tick
    is exactly [force_reset]: no stuck key is counted. *)
Theorem watchdog_inactivity_reset (s : FastKeyTracker)
    (current_time sweep_time reset_time : Q) :
  key_states s ≠ ∅ →
  (5 < float_sub current_time (last_activity s))%Q →
  let s' := monitor current_time sweep_time reset_time s in
  key_states s' = ∅
  ∧ combination_start_time s' = None
  ∧ ((∀ k pt, key_states s !! k = Some pt →
              (float_sub sweep_time pt <= max_key_hold_time s)%Q) →
     cleanup_stuck_keys sweep_time s = s
     ∧ s' = force_reset reset_time s
     ∧ stats s' = stats s
     ∧ last_activity s' = reset_time).
Proof.
  intros Hheld Hidle s'. subst s'. rewrite monitor_unfold.
  apply Qgtb_true in Hidle. rewrite Hidle. simpl andb.
  destruct (decide (key_states (cleanup_stuck_keys sweep_time s) = ∅))
    as [He|He].
  - rewrite bool_decide_eq_false_2 by (by intros H; apply H).
    split; [done|]. split; [by apply cleanup_emptied|].
    intros Hfresh. apply cleanup_nothing_stuck in Hfresh.
    rewrite Hfresh in He. done.
  - rewrite bool_decide_eq_true_2 by done.
    destruct (force_reset_fields reset_time (cleanup_stuck_keys sweep_time s))
      as (Hk & Ht & Hl & Hs & _).
    split; [done|]. split; [done|].
    intros Hfresh. apply cleanup_nothing_stuck in Hfresh.
    rewrite Hfresh in Hl, Hs |- *. done.
Qed.

(** ** Release *)

Lemma on_key_release_held (key : KeyIdentity) (release_time : Q)
    (s : FastKeyTracker) :
  is_Some (key_states s !! key) →
  key_states (on_key_release key release_time s).2
  = delete key (key_states s)
  ∧ combination_start_time (on_key_release key release_time s).2
    = (if decide (delete key (key_states s) = ∅) then None
       else combination_start_time s)
  ∧ last_activity (on_key_release key release_time s).2 = release_time
  ∧ stats (on_key_release key release_time s).2 = stats s.
Proof.
  intros [pt Hk]. unfold on_key_release. rewrite Hk. cbv zeta. simpl.
  by destruct (decide (delete key (key_states s) = ∅)).
Qed.

(** C10.  Releasing a key that is not held changes nothing at all: the
    tracker after the call is the tracker before it, store, timer, counters
    and last activity included.  And a release never reports a match, held
    key or not. *)
Theorem release_of_unheld_key (s : FastKeyTracker) (key : KeyIdentity)
    (release_time : Q) :
  key ∉ dom (key_states s) →
  (on_key_release key release_time s).2 = s
  ∧ key_states (on_key_release key release_time s).2 = key_states s
  ∧ combination_start_time (on_key_release key release_time s).2
    = combination_start_time s
  ∧ stats (on_key_release key release_time s).2 = stats s
  ∧ last_activity (on_key_release key release_time s).2 = last_activity s
  ∧ ∀ s0 key0 t0, (on_key_release key0 t0 s0).1 = None.
Proof.
  intros Hk%not_elem_of_dom.
  assert (E : (on_key_release key release_time s).2 = s).
  { unfold on_key_release. by rewrite Hk. }
  rewrite E. repeat (split; [done|]).
  intros s0 key0 t0. unfold on_key_release.
  by destruct (key_states s0 !! key0).
Qed.

(** ** A repeated press *)

(** C8.  Key [k] is held since [t0] and is pressed again at [t1]; at the
    sweep of this press [k] is within [max_key_hold_time], and [t1] is within
    the timeout of the window, if one is open (both as the code tests them,
    on the float differences).  Then the press goes through: the store is
    the swept store with the time of [k] replaced by [t1], one entry for [k]
    and the same keys as after the sweep; the timer is kept; no timeout is
    counted; the stuck-key counter is what the sweep alone makes it,
    unchanged when no held key is stale.  Match evaluation then runs on
    that store as on any other: the press reports the first entry of the
    table whose key set is the set of the keys held after the sweep, which
    it does whenever there is such an entry, and then leaves the matched
    state; otherwise it reports nothing and leaves the store as described. *)
Theorem repeated_press_overwrites (s : FastKeyTracker) (k : KeyIdentity)
    (t0 t1 sweep_time : Q) :
  key_states s !! k = Some t0 →
  (float_sub sweep_time t0 <= max_key_hold_time s)%Q →
  (∀ start, combination_start_time s = Some start →
            (float_sub t1 start <= combination_timeout s)%Q) →
  let swept := cleanup_stuck_keys sweep_time s in
  let pressed := on_key_press_update k t1 sweep_time s in
  let r := on_key_press k t1 sweep_time s in
  key_states pressed = <[ k := t1 ]> (key_states swept)
  ∧ key_states pressed !! k = Some t1
  ∧ dom (key_states pressed) = dom (key_states swept)
  ∧ size (key_states pressed) = size (key_states swept)
  ∧ combination_start_time pressed = combination_start_time s
  ∧ combinations_timeout (stats pressed) = combinations_timeout (stats s)
  ∧ stuck_keys_cleaned (stats pressed) = stuck_keys_cleaned (stats swept)
  ∧ total_key_presses (stats pressed) = S (total_key_presses (stats s))
  ∧ ((∀ k' pt, key_states s !! k' = Some pt →
               (float_sub sweep_time pt <= max_key_hold_time s)%Q) →
     key_states pressed = <[ k := t1 ]> (key_states s)
     ∧ stuck_keys_cleaned (stats pressed) = stuck_keys_cleaned (stats s))
  ∧ r = check_combinations pressed
  ∧ (∀ name, r.1 = Some name
             ↔ first_exact_match (dom (key_states swept)) (combinations s)
                 name)
  ∧ (∀ name, (name, dom (key_states swept)) ∈ combinations s →
             ∃ first, r.1 = Some first)
  ∧ (∀ name, r.1 = Some name → r.2 = matched_state pressed)
  ∧ (r.1 = None → r.2 = pressed)
  ∧ combinations_timeout (stats r.2) = combinations_timeout (stats s)
  ∧ stuck_keys_cleaned (stats r.2) = stuck_keys_cleaned (stats swept).
Proof.
  intros Hheld Hhold Hwin swept pressed r.
  assert (Hsurv : key_states swept !! k = Some t0).
  { subst swept. rewrite cleanup_lookup, Hheld.
    apply Qgtb_false in Hhold. by rewrite Hhold. }
  assert (Hne : key_states swept ≠ ∅).
  { intros He. by rewrite He, lookup_empty in Hsurv. }
  assert (Hstart : combination_start_time swept = combination_start_time s).
  { by apply cleanup_keeps_start_time. }
  assert (Hto : combination_timed_out t1 swept = false).
  { apply combination_timed_out_false. intros start. rewrite Hstart.
    subst swept.
    destruct (cleanup_frame sweep_time s) as (_ & _ & -> & _). apply Hwin. }
  assert (Hks : key_states pressed = <[ k := t1 ]> (key_states swept)).
  { subst pressed. rewrite press_key_states. fold swept.
    rewrite decide_False by done. by rewrite Hto. }
  assert (Hstats : stats pressed = incr_total_key_presses (stats swept)).
  { subst pressed. rewrite press_stats. fold swept. cbv zeta.
    rewrite decide_False by done. by rewrite Hto. }
  destruct (cleanup_other_counters sweep_time s) as (Htot & _ & Htime).
  fold swept in Htot, Htime.
  assert (Hdom : dom (key_states pressed) = dom (key_states swept)).
  { rewrite Hks, dom_insert_L. apply elem_of_dom_2 in Hsurv.
    apply leibniz_equiv. intros x. rewrite elem_of_union, elem_of_singleton.
    split; [intros [->|?]; done|by right]. }
  destruct (press_frame k t1 sweep_time s) as (_ & Hc & _).
  fold pressed in Hc.
  assert (Hres : ∀ name, r.1 = Some name
                   ↔ first_exact_match (dom (key_states swept))
                       (combinations s) name).
  { intros name. subst r. unfold on_key_press. fold pressed.
    rewrite check_combinations_result, Hdom, Hc.
    split; [by intros [_ ?]|]. intros Hfirst. split; [|done].
    intros He. apply Hne. by apply dom_empty_iff_L. }
  destruct (check_combinations_stuck_counter pressed) as (Hsc & Htc & _).
  split; [done|].
  split; [rewrite Hks; apply lookup_insert_eq|].
  split; [done|].
  split; [rewrite Hks; apply map_size_insert_Some; by exists t0|].
  split.
  { subst pressed. rewrite press_start_time. fold swept.
    rewrite decide_False by done. by rewrite Hto. }
  split; [rewrite Hstats; simpl; exact Htime|].
  split; [by rewrite Hstats|].
  split; [rewrite Hstats; simpl; by rewrite Htot|].
  split.
  { intros Hfresh. apply cleanup_nothing_stuck in Hfresh.
    fold swept in Hfresh. rewrite Hks, Hstats, Hfresh. done. }
  split; [done|]. split; [exact Hres|].
  split.
  { intros name Hin.
    destruct (first_exact_match_exists _ _ name Hin) as [first Hfirst].
    exists first. by apply Hres. }
  split; [intros name; apply check_combinations_some|].
  split; [apply check_combinations_none|].
  subst r. unfold on_key_press. fold pressed.
  split; [rewrite Htc, Hstats; simpl; exact Htime|].
  by rewrite Hsc, Hstats.
Qed.

(** ** The timer invariant *)

Section invariant.
Variable s : FastKeyTracker.
Hypothesis Hinv : timer_invariant s.

Lemma cleanup_invariant (now : Q) :
  timer_invariant (cleanup_stuck_keys now s).
Proof.
  unfold timer_invariant. rewrite cleanup_start_time.
  destruct (decide _) as [[_ He]|Hn]; [done|].
  destruct (stuck_keys now s) as [|k l] eqn:E.
  - rewrite cleanup_key_states, E. simpl. apply Hinv.
  - split.
    + intros Hs. apply Hinv in Hs. rewrite cleanup_key_states, Hs.
      clear. induction (stuck_keys now s) as [|k' l' IH]; [done|].
      simpl. rewrite IH. apply delete_empty.
    + intros He. destruct Hn. by split.
Qed.

Lemma check_combinations_invariant :
  timer_invariant (check_combinations s).2.
Proof. by destruct (check_combinations_cases s) as [->|[name ->]]. Qed.

Lemma force_reset_invariant (reset_time : Q) :
  timer_invariant (force_reset reset_time s).
Proof.
  unfold timer_invariant.
  by destruct (force_reset_fields reset_time s) as (-> & -> & _).
Qed.

Lemma on_key_release_invariant (key : KeyIdentity) (release_time : Q) :
  timer_invariant (on_key_release key release_time s).2.
Proof.
  destruct (key_states s !! key) as [pt|] eqn:Hk.
  - destruct (on_key_release_held key release_time s) as (Hks & Hst & _);
      [by exists pt|].
    unfold timer_invariant. rewrite Hks, Hst.
    destruct (decide (delete key (key_states s) = ∅)) as [He|He]; [done|].
    split; [|done]. intros Hs. apply Hinv in Hs.
    rewrite Hs, lookup_empty in Hk. done.
  - unfold on_key_release. by rewrite Hk.
Qed.

Lemma add_combination_invariant (name : string) (keys : list KeyIdentity) :
  timer_invariant (add_combination name keys s).2.
Proof. by destruct (add_combination_cases name keys s) as [->| ->]. Qed.
End invariant.

Lemma insert_non_empty_store (key : KeyIdentity) (t : Q)
    (m : gmap KeyIdentity Q) : <[ key := t ]> m ≠ ∅.
Proof.
  intros He. assert (H : <[ key := t ]> m !! key = Some t)
    by apply lookup_insert_eq.
  by rewrite He, lookup_empty in H.
Qed.

Lemma press_update_invariant (s : FastKeyTracker) (key : KeyIdentity)
    (current_time sweep_time : Q) :
  timer_invariant s →
  timer_invariant (on_key_press_update key current_time sweep_time s).
Proof.
  intros Hinv. pose proof (cleanup_invariant s Hinv sweep_time) as Hsw.
  unfold timer_invariant in *.
  rewrite press_key_states, press_start_time.
  destruct (decide (key_states (cleanup_stuck_keys sweep_time s) = ∅))
    as [He|He].
  - split; [done|]. intros H. by apply insert_non_empty_store in H.
  - destruct (combination_timed_out _ _).
    + split; [done|]. intros H. by apply insert_non_empty_store in H.
    + split; [|intros H; by apply insert_non_empty_store in H].
      intros Hs. apply Hsw in Hs. done.
Qed.

Lemma monitor_invariant (s : FastKeyTracker)
    (current_time sweep_time reset_time : Q) :
  timer_invariant s →
  timer_invariant (monitor current_time sweep_time reset_time s).
Proof.
  intros Hinv.
  destruct (monitor_cases current_time sweep_time reset_time s) as [->| ->].
  - by apply cleanup_invariant.
  - unfold timer_invariant.
    by destruct (force_reset_fields reset_time
                   (cleanup_stuck_keys sweep_time s)) as (-> & -> & _).
Qed.

(** C7.  The timer is unset exactly when the store is empty: this holds of
    the tracker [__init__] builds, and every operation (press, release,
    sweep, watchdog tick, match evaluation, force reset, and registration
    too) carried out as one step keeps it. *)
Theorem timer_invariant_preserved (cfg : Timing)
    (init_time current_time sweep_time reset_time : Q) :
  timer_invariant
    (new_tracker cfg init_time current_time sweep_time reset_time)
  ∧ ∀ op s, timer_invariant s → timer_invariant (run op s).
Proof.
  split.
  - unfold new_tracker. by apply monitor_invariant.
  - intros [key t c|key t|t|t c r| |t|name keys] s Hinv; simpl.
    + unfold on_key_press.
      by apply check_combinations_invariant, press_update_invariant.
    + by apply on_key_release_invariant.
    + by apply cleanup_invariant.
    + by apply monitor_invariant.
    + by apply check_combinations_invariant.
    + by apply force_reset_invariant.
    + by apply add_combination_invariant.
Qed.

(** * Concrete runs *)

(** ctrl at 100, space 0.375 s later: the combination is reported and the
    state is reset. *)
Example ctrl_space_matches :
  on_key_press Scenario.space (803 # 8) (803 # 8) Scenario.ctrl_down
  = (Some "A"%string,
     matched_state
       (on_key_press_update Scenario.space (803 # 8) (803 # 8)
          Scenario.ctrl_down)).
Proof. vm_compute. reflexivity. Qed.

(** ctrl at 100, released at 100.125, space at 100.25: only space is
    held. *)
Example released_key_is_not_held :
  let s := (on_key_release Scenario.ctrl (801 # 8) Scenario.ctrl_down).2 in
  let r := on_key_press Scenario.space (401 # 4) (401 # 4) s in
  r.1 = None ∧ key_states r.2 = {[ Scenario.space := 401 # 4 ]}.
Proof. vm_compute. split; reflexivity. Qed.

(** ctrl at 100, alt at 102.5: the sweep removes ctrl before alt is
    recorded. *)
Example stale_key_is_swept_first :
  let r := on_key_press Scenario.alt (205 # 2) (205 # 2)
             Scenario.ctrl_down in
  key_states r.2 = {[ Scenario.alt := 205 # 2 ]}
  ∧ stuck_keys_cleaned (stats r.2) = 1%nat
  ∧ combinations_timeout (stats r.2) = 0%nat.
Proof. vm_compute. repeat split; reflexivity. Qed.

(** A window that starts at clock reading 0.0 never times out: the start
    time is tested for truthiness at line 279.  One second after ctrl,
    space still completes the combination. *)
Example zero_start_time_never_times_out :
  let s := (on_key_press Scenario.ctrl 0 0 Scenario.with_A).2 in
  let r := on_key_press Scenario.space 1 1 s in
  combination_start_time s = Some 0%Q
  ∧ r.1 = Some "A"%string
  ∧ combinations_timeout (stats r.2) = 0%nat.
Proof. vm_compute. repeat split; reflexivity. Qed.

(** ** What the code does not do *)

(** ctrl at 100 and space at 103, with the default 0.8 s timeout and 2.0 s
    hold limit: the sweep of the second press evicts ctrl as stuck, the
    store is empty when the timeout is looked at, and no timeout is
    counted. *)
Lemma timeout_not_counted_past_hold_limit :
  ¬ timeout_claim Scenario.fresh Scenario.ctrl Scenario.space 100 103.
Proof.
  unfold timeout_claim. cbv zeta. intros H.
  destruct H as [H _]; [vm_compute; reflexivity..|].
  vm_compute in H. discriminate H.
Qed.

(** [add_combination('quick', [Key.f1])] is accepted: one key, not a
    modifier. *)
Lemma single_key_combination_accepted :
  (add_combination "quick" [Scenario.f1] Scenario.fresh).1 = true
  ∧ ¬ two_key_claim [("quick"%string, [Scenario.f1])].
Proof.
  split; [vm_compute; reflexivity|].
  intros H. specialize (H "quick"%string (list_to_set [Scenario.f1])).
  assert (Hsize : size (list_to_set [Scenario.f1] : gset KeyIdentity) = 1%nat)
    by (vm_compute; reflexivity).
  rewrite Hsize in H. assert (2 ≤ 1)%nat; [|lia].
  apply H. vm_compute. left.
Qed.

(** * The theorems at concrete inputs *)

(** ctrl and space held, "A" registered: the evaluation reports a name
    exactly when it is the first exact match. *)
Lemma exact_match_only_witness :
  let s := on_key_press_update Scenario.space (803 # 8) (803 # 8)
             Scenario.ctrl_down in
  NoDup (combinations s).*1
  ∧ ∃ first, (check_combinations s).1 = Some first.
Proof.
  cbv zeta.
  set (s := on_key_press_update Scenario.space (803 # 8) (803 # 8)
              Scenario.ctrl_down).
  assert (Hnd : NoDup (combinations s).*1).
  { vm_compute. apply NoDup_singleton. }
  split; [exact Hnd|].
  assert (Hk : key_states s !! Scenario.space = Some (803 # 8)%Q)
    by (vm_compute; reflexivity).
  assert (Hin : ("A"%string, dom (key_states s)) ∈ combinations s)
    by (vm_compute; left).
  destruct (exact_match_only s Hnd) as (_ & _ & _ & _ & Hsome & _).
  apply (Hsome "A"%string); [|exact Hin].
  intros He. apply elem_of_dom_2 in Hk. rewrite He in Hk.
  by apply not_elem_of_empty in Hk.
Defined.

(** ctrl at 100, space at 101: one timeout, space alone. *)
Lemma timeout_restarts_attempt_witness :
  let s1 := (on_key_press Scenario.ctrl 100 100 Scenario.with_A).2 in
  let s2 := on_key_press_update Scenario.space 101 101 s1 in
  combination_start_time s1 = Some 100%Q
  ∧ ¬ (100 == 0)%Q
  ∧ (combination_timeout s1 < float_sub 101 100)%Q
  ∧ (float_sub 101 100 <= max_key_hold_time s1)%Q
  ∧ key_states s2 = {[ Scenario.space := 101%Q ]}
  ∧ combinations_timeout (stats s2) = S (combinations_timeout (stats s1)).
Proof.
  cbv zeta.
  assert (H1 : combination_start_time
                 (on_key_press Scenario.ctrl 100 100 Scenario.with_A).2
               = Some 100%Q) by (vm_compute; reflexivity).
  assert (H2 : ¬ (100 == 0)%Q) by (intros H; vm_compute in H; discriminate H).
  assert (H3 : (combination_timeout
                  (on_key_press Scenario.ctrl 100 100 Scenario.with_A).2
                < float_sub 101 100)%Q) by (vm_compute; reflexivity).
  assert (H4 : (float_sub 101 100
                <= max_key_hold_time
                     (on_key_press Scenario.ctrl 100 100 Scenario.with_A).2)%Q)
    by (vm_compute; discriminate).
  repeat (split; [assumption|]).
  destruct (timeout_restarts_attempt Scenario.with_A Scenario.ctrl
              Scenario.space 100 100 101 101 H1 H2 H3)
    as (_ & Hk & _ & _ & _ & Hc & _ & Hsurv & _).
  split; [exact Hk|exact (Hc (Hsurv H4))].
Defined.

(** ctrl held, space completes "A": the state is reset. *)
Lemma match_resets_attempt_witness :
  let r := on_key_press Scenario.space (803 # 8) (803 # 8)
             Scenario.ctrl_down in
  r.1 = Some "A"%string
  ∧ key_states r.2 = ∅ ∧ combination_start_time r.2 = None.
Proof.
  cbv zeta.
  assert (H : (on_key_press Scenario.space (803 # 8) (803 # 8)
                 Scenario.ctrl_down).1 = Some "A"%string)
    by (vm_compute; reflexivity).
  split; [exact H|].
  destruct (match_resets_attempt Scenario.ctrl_down Scenario.space
              (803 # 8) (803 # 8) "A"%string H) as (Hk & Ht & _).
  split; [exact Hk|exact Ht].
Defined.

(** ctrl held since 100 is gone after a sweep at 103. *)
Lemma stuck_key_eviction_witness :
  key_states Scenario.ctrl_down !! Scenario.ctrl = Some 100%Q
  ∧ (max_key_hold_time Scenario.ctrl_down < float_sub 103 100)%Q
  ∧ Scenario.ctrl
    ∉ dom (key_states (cleanup_stuck_keys 103 Scenario.ctrl_down)).
Proof.
  assert (H : key_states Scenario.ctrl_down !! Scenario.ctrl = Some 100%Q)
    by (vm_compute; reflexivity).
  assert (Hlt : (max_key_hold_time Scenario.ctrl_down < float_sub 103 100)%Q)
    by (vm_compute; reflexivity).
  split; [exact H|]. split; [exact Hlt|].
  destruct (stuck_key_eviction Scenario.ctrl_down Scenario.ctrl 100 H)
    as (Hsweep & _).
  destruct (Hsweep 103%Q Hlt) as (Hgone & _). exact Hgone.
Defined.

(** [add_combination('A', [Key.ctrl, Key.space])] on a new tracker: the
    entry has two keys. *)
Lemma installed_combinations_witness :
  ("A"%string, list_to_set [Scenario.ctrl; Scenario.space])
    ∈ combinations
        (register_all [("A"%string, [Scenario.ctrl; Scenario.space])]
           Scenario.fresh)
  ∧ (1 ≤ size (list_to_set [Scenario.ctrl; Scenario.space]
               : gset KeyIdentity))%nat.
Proof.
  assert (H : ("A"%string, list_to_set [Scenario.ctrl; Scenario.space])
                ∈ combinations
                    (register_all
                       [("A"%string, [Scenario.ctrl; Scenario.space])]
                       Scenario.fresh)) by (vm_compute; left).
  split; [exact H|].
  destruct (installed_combinations default_timing 100 100 100 100 _ _ _ H)
    as (Hsize & _).
  exact Hsize.
Defined.

(** With a hold limit of 10 s, ctrl held since 100 and nothing since: the
    tick at 106 resets, though ctrl is not stuck. *)
Lemma watchdog_inactivity_reset_witness :
  key_states Scenario.patient_ctrl_down ≠ ∅
  ∧ (5 < float_sub 106 (last_activity Scenario.patient_ctrl_down))%Q
  ∧ (float_sub 106 100 <= max_key_hold_time Scenario.patient_ctrl_down)%Q
  ∧ key_states (monitor 106 106 106 Scenario.patient_ctrl_down) = ∅
  ∧ combination_start_time (monitor 106 106 106 Scenario.patient_ctrl_down)
    = None.
Proof.
  assert (Hheld : key_states Scenario.patient_ctrl_down !! Scenario.ctrl
                  = Some 100%Q) by (vm_compute; reflexivity).
  assert (H1 : key_states Scenario.patient_ctrl_down ≠ ∅).
  { intros He. rewrite He, lookup_empty in Hheld. discriminate Hheld. }
  assert (H2 : (5 < float_sub 106
                      (last_activity Scenario.patient_ctrl_down))%Q)
    by (vm_compute; reflexivity).
  split; [exact H1|]. split; [exact H2|].
  split; [vm_compute; discriminate|].
  destruct (watchdog_inactivity_reset Scenario.patient_ctrl_down 106 106 106
              H1 H2) as (Hk & Ht & _).
  split; [exact Hk|exact Ht].
Defined.

(** The invariant holds of a new tracker and of it after a press. *)
Lemma timer_invariant_preserved_witness :
  timer_invariant Scenario.fresh
  ∧ timer_invariant (run (Press Scenario.ctrl 100 100) Scenario.fresh).
Proof.
  destruct (timer_invariant_preserved default_timing 100 100 100 100)
    as [H0 Hstep].
  split; [exact H0|]. apply Hstep. exact H0.
Defined.

(** ctrl held since 100, pressed again at 100.375. *)
Lemma repeated_press_overwrites_witness :
  key_states Scenario.ctrl_down !! Scenario.ctrl = Some 100%Q
  ∧ (float_sub (803 # 8) 100 <= max_key_hold_time Scenario.ctrl_down)%Q
  ∧ key_states
      (on_key_press_update Scenario.ctrl (803 # 8) (803 # 8)
         Scenario.ctrl_down) !! Scenario.ctrl
    = Some (803 # 8)%Q.
Proof.
  assert (H1 : key_states Scenario.ctrl_down !! Scenario.ctrl = Some 100%Q)
    by (vm_compute; reflexivity).
  assert (H2 : (float_sub (803 # 8) 100
                <= max_key_hold_time Scenario.ctrl_down)%Q)
    by (vm_compute; discriminate).
  assert (H3 : ∀ start,
             combination_start_time Scenario.ctrl_down = Some start →
             (float_sub (803 # 8) start
              <= combination_timeout Scenario.ctrl_down)%Q).
  { intros start Hs. vm_compute in Hs. injection Hs as <-.
    vm_compute. discriminate. }
  split; [exact H1|]. split; [exact H2|].
  destruct (repeated_press_overwrites Scenario.ctrl_down Scenario.ctrl
              100 (803 # 8) (803 # 8) H1 H2 H3) as (_ & Hk & _).
  exact Hk.
Defined.

(** Releasing space while only ctrl is held. *)
Lemma release_of_unheld_key_witness :
  (Scenario.space ∉ dom (key_states Scenario.ctrl_down))
  ∧ (on_key_release Scenario.space 101 Scenario.ctrl_down).2
    = Scenario.ctrl_down.
Proof.
  assert (H : Scenario.space ∉ dom (key_states Scenario.ctrl_down)).
  { apply not_elem_of_dom. vm_compute. reflexivity. }
  split; [exact H|].
  destruct (release_of_unheld_key Scenario.ctrl_down Scenario.space 101 H)
    as (E & _).
  exact E.
Defined.

(** * Further properties of the tracker *)

(** ** Accounting of presses *)

Lemma map_size_insert_le (key : KeyIdentity) (t : Q) (m : gmap KeyIdentity Q) :
  (size (<[ key := t ]> m) ≤ S (size m))%nat.
Proof. rewrite map_size_insert. destruct (m !! key); simpl; lia. Qed.

Lemma press_update_accounted (s : FastKeyTracker) (key : KeyIdentity)
    (current_time sweep_time : Q) :
  accounted s → accounted (on_key_press_update key current_time sweep_time s).
Proof.
  unfold accounted. intros Hacc.
  rewrite press_stats, press_key_states. cbv zeta.
  destruct (cleanup_other_counters sweep_time s) as (Ht & Hd & Hto).
  pose proof (cleanup_stuck_counter sweep_time s) as Hst.
  pose proof (cleanup_size sweep_time s) as Hsz.
  destruct (decide (key_states (cleanup_stuck_keys sweep_time s) = ∅))
    as [He|He].
  - rewrite insert_empty, map_size_singleton. simpl. lia.
  - apply map_size_non_empty_iff in He.
    destruct (combination_timed_out _ _).
    + rewrite insert_empty, map_size_singleton. simpl. lia.
    + pose proof (map_size_insert_le key current_time
                    (key_states (cleanup_stuck_keys sweep_time s))).
      simpl. lia.
Qed.

Lemma check_combinations_accounted (s : FastKeyTracker) :
  accounted s → accounted (check_combinations s).2.
Proof.
  unfold accounted. intros Hacc.
  destruct (check_combinations_cases s) as [E|[name E]]; rewrite E; [done|].
  assert (Hres : (check_combinations s).1 = Some name) by by rewrite E.
  apply check_combinations_result in Hres as [Hne _].
  assert (size (key_states s) ≠ 0%nat).
  { rewrite map_size_non_empty_iff. intros He. apply Hne.
    by rewrite He, dom_empty_L. }
  simpl. rewrite map_size_empty. lia.
Qed.

Lemma cleanup_accounted (s : FastKeyTracker) (now : Q) :
  accounted s → accounted (cleanup_stuck_keys now s).
Proof.
  unfold accounted. intros Hacc.
  destruct (cleanup_other_counters now s) as (-> & -> & ->).
  rewrite cleanup_stuck_counter. pose proof (cleanup_size now s). lia.
Qed.

Lemma force_reset_accounted (s : FastKeyTracker) (reset_time : Q) :
  accounted s → accounted (force_reset reset_time s).
Proof.
  unfold accounted. intros Hacc.
  destruct (force_reset_fields reset_time s) as (-> & _ & _ & -> & _).
  rewrite map_size_empty. lia.
Qed.

Lemma run_accounted (op : operation) (s : FastKeyTracker) :
  accounted s → accounted (run op s).
Proof.
  intros Hacc. destruct op as [key t c|key t|t|t c r| |t|name keys]; simpl.
  - by apply check_combinations_accounted, press_update_accounted.
  - destruct (key_states s !! key) as [pt|] eqn:Hk.
    + destruct (on_key_release_held key t s) as (Hks & _ & _ & Hst);
        [by exists pt|].
      unfold accounted in *. rewrite Hks, Hst.
      rewrite map_size_delete_Some by (by exists pt). lia.
    + unfold on_key_release. by rewrite Hk.
  - by apply cleanup_accounted.
  - destruct (monitor_cases t c r s) as [->| ->].
    + by apply cleanup_accounted.
    + by apply force_reset_accounted, cleanup_accounted.
  - by apply check_combinations_accounted.
  - by apply force_reset_accounted.
  - by destruct (add_combination_cases name keys s) as [->| ->].
Qed.

(** X1.  In every run from a new tracker, whatever the operations and the
    clock readings, every press is accounted for: the detected
    combinations, the timeouts, the evicted stuck keys and the keys still
    held never add up to more than the presses counted.  In particular no
    rate that [print_stats] derives from these counters exceeds 100%. *)
Theorem presses_accounted (cfg : Timing)
    (init_time current_time sweep_time reset_time : Q)
    (ops : list operation) :
  let s := run_all ops
             (new_tracker cfg init_time current_time sweep_time reset_time) in
  accounted s
  ∧ (combinations_detected (stats s) ≤ total_key_presses (stats s))%nat
  ∧ (combinations_timeout (stats s) ≤ total_key_presses (stats s))%nat
  ∧ (stuck_keys_cleaned (stats s) ≤ total_key_presses (stats s))%nat.
Proof.
  cbv zeta.
  assert (Hacc : accounted
            (run_all ops
               (new_tracker cfg init_time current_time sweep_time
                  reset_time))).
  { assert (H0 : accounted
              (new_tracker cfg init_time current_time sweep_time reset_time)).
    { unfold new_tracker.
      apply (run_accounted (Tick current_time sweep_time reset_time)).
      unfold accounted. simpl. rewrite map_size_empty. lia. }
    revert H0. generalize (new_tracker cfg init_time current_time sweep_time
                             reset_time).
    unfold run_all. induction ops as [|op ops IH]; intros s Hs; [done|].
    simpl. apply IH. by apply run_accounted. }
  split; [done|]. unfold accounted in Hacc. lia.
Qed.

(** ** The counters only grow *)

Lemma stats_le_refl (st : Stats) : stats_le st st.
Proof. unfold stats_le. lia. Qed.

Lemma stats_le_trans (a b c : Stats) :
  stats_le a b → stats_le b c → stats_le a c.
Proof. unfold stats_le. lia. Qed.

Lemma cleanup_stats_le (s : FastKeyTracker) (now : Q) :
  stats_le (stats s) (stats (cleanup_stuck_keys now s)).
Proof.
  unfold stats_le. destruct (cleanup_other_counters now s) as (-> & -> & ->).
  rewrite cleanup_stuck_counter. lia.
Qed.

Lemma check_combinations_stats_le (s : FastKeyTracker) :
  stats_le (stats s) (stats (check_combinations s).2)
  ∧ (combinations_detected (stats (check_combinations s).2)
     ≤ S (combinations_detected (stats s)))%nat.
Proof.
  destruct (check_combinations_cases s) as [->|[name ->]];
    unfold stats_le; simpl; lia.
Qed.

Lemma press_update_stats_le (s : FastKeyTracker) (key : KeyIdentity)
    (current_time sweep_time : Q) :
  stats_le (stats s)
    (stats (on_key_press_update key current_time sweep_time s))
  ∧ (combinations_timeout
       (stats (on_key_press_update key current_time sweep_time s))
     ≤ S (combinations_timeout (stats s)))%nat.
Proof.
  rewrite press_stats. cbv zeta.
  destruct (cleanup_other_counters sweep_time s) as (Ht & Hd & Hto).
  pose proof (cleanup_stuck_counter sweep_time s) as Hst.
  unfold stats_le.
  destruct (decide _); [simpl; lia|].
  destruct (combination_timed_out _ _); simpl; lia.
Qed.

(** X2.  No operation ever lowers a counter.  The press counter moves only
    on a press, by exactly one; a single operation detects at most one
    combination and counts at most one timeout. *)
Theorem counters_never_decrease (op : operation) (s : FastKeyTracker) :
  stats_le (stats s) (stats (run op s))
  ∧ total_key_presses (stats (run op s))
    = (total_key_presses (stats s)
       + match op with Press _ _ _ => 1 | _ => 0 end)%nat
  ∧ (combinations_detected (stats (run op s))
     ≤ S (combinations_detected (stats s)))%nat
  ∧ (combinations_timeout (stats (run op s))
     ≤ S (combinations_timeout (stats s)))%nat.
Proof.
  destruct op as [key t c|key t|t|t c r| |t|name keys]; cbn [run].
  - unfold on_key_press.
    destruct (press_update_stats_le s key t c) as [Hle Hto].
    destruct (check_combinations_stats_le (on_key_press_update key t c s))
      as [Hle' Hd].
    destruct (check_combinations_stuck_counter
                (on_key_press_update key t c s)) as (_ & Hto' & Htot).
    pose proof (press_total_counter key t c s) as Hp.
    pose proof (press_detected_counter key t c s) as Hpd.
    split; [by eapply stats_le_trans|]. lia.
  - assert (E : stats (on_key_release key t s).2 = stats s).
    { destruct (key_states s !! key) as [pt|] eqn:Hk.
      - by destruct (on_key_release_held key t s) as (_ & _ & _ & ->);
          [exists pt|].
      - unfold on_key_release. by rewrite Hk. }
    rewrite E. split; [apply stats_le_refl|lia].
  - pose proof (cleanup_stats_le s t) as Hle.
    destruct (cleanup_other_counters t s) as (-> & -> & ->).
    split; [done|lia].
  - rewrite monitor_stats. pose proof (cleanup_stats_le s c) as Hle.
    destruct (cleanup_other_counters c s) as (-> & -> & ->).
    split; [done|lia].
  - destruct (check_combinations_stats_le s) as [Hle Hd].
    destruct (check_combinations_stuck_counter s) as (_ & -> & ->).
    split; [done|lia].
  - destruct (force_reset_fields t s) as (_ & _ & _ & -> & _).
    split; [apply stats_le_refl|lia].
  - assert (E : stats (add_combination name keys s).2 = stats s)
      by by destruct (add_combination_cases name keys s) as [->| ->].
    rewrite E. split; [apply stats_le_refl|lia].
Qed.

(** ** Sweeps compose *)

Lemma tracker_eq (a b : FastKeyTracker) :
  combination_timeout a = combination_timeout b →
  max_key_hold_time a = max_key_hold_time b →
  cleanup_interval a = cleanup_interval b →
  key_states a = key_states b →
  combinations a = combinations b →
  combination_start_time a = combination_start_time b →
  last_activity a = last_activity b →
  stats a = stats b →
  a = b.
Proof. destruct a, b. simpl. by intros -> -> -> -> -> -> -> ->. Qed.

Lemma stuck_keys_nil_iff (now : Q) (s : FastKeyTracker) :
  stuck_keys now s = []
  ↔ size (key_states (cleanup_stuck_keys now s)) = size (key_states s).
Proof.
  pose proof (cleanup_size now s) as Hsz.
  destruct (stuck_keys now s) as [|k l]; simpl in *; split; try done; lia.
Qed.

Lemma cleanup_key_states_twice (now1 now2 : Q) (s : FastKeyTracker) :
  (now1 <= now2)%Q →
  key_states (cleanup_stuck_keys now2 (cleanup_stuck_keys now1 s))
  = key_states (cleanup_stuck_keys now2 s).
Proof.
  intros Hle. apply map_eq. intros k. rewrite !cleanup_lookup.
  destruct (cleanup_frame now1 s) as (_ & _ & _ & -> & _).
  destruct (key_states s !! k) as [pt|]; [|done].
  destruct (Qgtb (float_sub now1 pt) (max_key_hold_time s)) eqn:E1; [|done].
  apply Qgtb_true in E1.
  assert (E2 : Qgtb (float_sub now2 pt) (max_key_hold_time s) = true)
    by (apply Qgtb_true, (float_sub_lt_mono now1 pt);
        [done..|apply Qle_refl]).
  by rewrite E2.
Qed.

Lemma cleanup_start_time_sizes (now : Q) (s : FastKeyTracker) :
  combination_start_time (cleanup_stuck_keys now s)
  = if decide ((size (key_states (cleanup_stuck_keys now s))
                < size (key_states s))%nat
               ∧ size (key_states (cleanup_stuck_keys now s)) = 0%nat)
    then None else combination_start_time s.
Proof.
  rewrite cleanup_start_time.
  pose proof (cleanup_size now s) as Hsz.
  pose proof (stuck_keys_nil_iff now s) as Hnil.
  destruct (decide (stuck_keys now s ≠ [] ∧ _)) as [[Hn He]|Hn].
  - rewrite decide_True; [done|]. rewrite He, map_size_empty.
    split; [|done]. destruct (stuck_keys now s); [done|simpl in Hsz; lia].
  - rewrite decide_False; [done|]. intros [Hlt H0]. apply Hn. split.
    + intros E. apply Hnil in E. lia.
    + by apply map_size_empty_iff.
Qed.

(** X3.  A sweep after an earlier sweep gives exactly the tracker the later
    sweep alone gives: same store, same timer, same counters.  So the
    sweeps of the watchdog never change what a later press or tick finds,
    and sweeping twice at one clock reading is sweeping once. *)
Theorem sweep_after_sweep (now1 now2 : Q) (s : FastKeyTracker) :
  (now1 <= now2)%Q →
  cleanup_stuck_keys now2 (cleanup_stuck_keys now1 s)
  = cleanup_stuck_keys now2 s.
Proof.
  intros Hle.
  pose proof (cleanup_key_states_twice now1 now2 s Hle) as Hks.
  pose proof (cleanup_size now1 s) as Hz1.
  pose proof (cleanup_size now2 (cleanup_stuck_keys now1 s)) as Hz12.
  pose proof (cleanup_size now2 s) as Hz2.
  rewrite Hks in Hz12.
  destruct (cleanup_frame now1 s) as (Hc1 & Hl1 & Ht1 & Hm1 & Hi1).
  destruct (cleanup_frame now2 (cleanup_stuck_keys now1 s))
    as (Hc12 & Hl12 & Ht12 & Hm12 & Hi12).
  destruct (cleanup_frame now2 s) as (Hc2 & Hl2 & Ht2 & Hm2 & Hi2).
  pose proof (cleanup_start_time_sizes now1 s) as Hs1.
  pose proof (cleanup_start_time_sizes now2 (cleanup_stuck_keys now1 s))
    as Hs12.
  pose proof (cleanup_start_time_sizes now2 s) as Hs2.
  rewrite Hks in Hs12.
  apply tracker_eq; try congruence.
  - rewrite Hs12, Hs2, Hs1.
    repeat destruct (decide _); try done; lia.
  - rewrite (cleanup_stats now2 (cleanup_stuck_keys now1 s)).
    rewrite (cleanup_stats now1 s), (cleanup_stats now2 s).
    unfold add_stuck_keys_cleaned. simpl. f_equal. lia.
Qed.

(** ** An idle tracker *)

(** X4.  While no key is held the watchdog does nothing at all: the tick
    returns the tracker it was given, last activity included, whatever the
    clock says. *)
Theorem idle_tick_changes_nothing (s : FastKeyTracker)
    (current_time sweep_time reset_time : Q) :
  key_states s = ∅ →
  monitor current_time sweep_time reset_time s = s.
Proof.
  intros He. rewrite monitor_unfold, (cleanup_empty_store sweep_time s He).
  rewrite bool_decide_eq_false_2 by (by intros H; apply H).
  by rewrite andb_false_r.
Qed.

(** X5.  [force_reset] always ends with an empty store and no timer, and
    touches neither the counters nor the table nor the timing; resetting a
    tracker that was just reset only moves [last_activity]; and after a
    reset every release is ignored. *)
Lemma force_reset_timing (reset_time : Q) (s : FastKeyTracker) :
  timing_of (force_reset reset_time s) = timing_of s.
Proof. unfold force_reset. by destruct (decide _). Qed.

Theorem force_reset_is_final (s : FastKeyTracker) (r1 r2 : Q) :
  let s1 := force_reset r1 s in
  key_states s1 = ∅
  ∧ combination_start_time s1 = None
  ∧ last_activity s1 = r1
  ∧ stats s1 = stats s
  ∧ combinations s1 = combinations s
  ∧ timing_of s1 = timing_of s
  ∧ force_reset r2 s1 = force_reset r2 s
  ∧ ∀ key release_time, on_key_release key release_time s1 = (None, s1).
Proof.
  cbv zeta.
  destruct (force_reset_fields r1 s) as (Hk & Ht & Hl & Hs & Hc).
  repeat (split; [done|]).
  split; [unfold force_reset; by destruct (decide _)|].
  split.
  - unfold force_reset. by repeat destruct (decide _).
  - intros key t. unfold on_key_release. by rewrite Hk, lookup_empty.
Qed.

(** ** What an operation can touch *)

Lemma check_combinations_frame (s : FastKeyTracker) :
  combinations (check_combinations s).2 = combinations s
  ∧ timing_of (check_combinations s).2 = timing_of s
  ∧ last_activity (check_combinations s).2 = last_activity s.
Proof. by destruct (check_combinations_cases s) as [->|[name ->]]. Qed.

Lemma on_key_release_frame (key : KeyIdentity) (release_time : Q)
    (s : FastKeyTracker) :
  combinations (on_key_release key release_time s).2 = combinations s
  ∧ timing_of (on_key_release key release_time s).2 = timing_of s.
Proof.
  unfold on_key_release. destruct (key_states s !! key); [|done].
  cbv zeta. by destruct (decide _).
Qed.

Lemma cleanup_timing (now : Q) (s : FastKeyTracker) :
  timing_of (cleanup_stuck_keys now s) = timing_of s.
Proof.
  unfold timing_of.
  by destruct (cleanup_frame now s) as (_ & _ & -> & -> & ->).
Qed.

Lemma press_update_timing (key : KeyIdentity) (current_time sweep_time : Q)
    (s : FastKeyTracker) :
  timing_of (on_key_press_update key current_time sweep_time s) = timing_of s.
Proof.
  rewrite press_unfold. cbv zeta.
  pose proof (cleanup_timing sweep_time s) as Ht.
  destruct (decide _); [exact Ht|].
  destruct (combination_timed_out _ _); exact Ht.
Qed.

(** X6.  The timing settings are never changed by any operation, and the
    combination table is changed by [add_combination] alone: presses,
    releases, sweeps, ticks, match evaluation and resets leave it as it
    is. *)
Theorem table_and_timing_are_fixed (op : operation) (s : FastKeyTracker) :
  timing_of (run op s) = timing_of s
  ∧ ((∀ name keys, op ≠ Register name keys) →
     combinations (run op s) = combinations s).
Proof.
  destruct op as [key t c|key t|t|t c r| |t|name keys]; cbn [run].
  - unfold on_key_press.
    destruct (check_combinations_frame (on_key_press_update key t c s))
      as (-> & -> & _).
    destruct (press_frame key t c s) as (_ & -> & _).
    by rewrite press_update_timing.
  - by destruct (on_key_release_frame key t s) as (-> & ->).
  - rewrite cleanup_timing.
    by destruct (cleanup_frame t s) as (-> & _).
  - rewrite monitor_combinations. split; [|done].
    destruct (monitor_cases t c r s) as [->| ->]; [apply cleanup_timing|].
    rewrite force_reset_timing. apply cleanup_timing.
  - by destruct (check_combinations_frame s) as (-> & -> & _).
  - rewrite force_reset_timing.
    by destruct (force_reset_fields t s) as (_ & _ & _ & _ & ->).
  - split.
    + by destruct (add_combination_cases name keys s) as [->| ->].
    + intros Hne. by destruct (Hne name keys).
Qed.

Lemma check_combinations_lookup_Some (s : FastKeyTracker) (k : KeyIdentity)
    (pt : Q) :
  key_states (check_combinations s).2 !! k = Some pt →
  key_states s !! k = Some pt.
Proof.
  destruct (check_combinations_cases s) as [->|[name ->]]; [done|].
  simpl. by rewrite lookup_empty.
Qed.

Lemma cleanup_lookup_Some (now : Q) (s : FastKeyTracker) (k : KeyIdentity)
    (pt : Q) :
  key_states (cleanup_stuck_keys now s) !! k = Some pt →
  key_states s !! k = Some pt.
Proof.
  rewrite cleanup_lookup. destruct (key_states s !! k) as [pt'|]; [|done].
  by destruct (Qgtb _ _).
Qed.

Lemma press_update_lookup_Some (key : KeyIdentity)
    (current_time sweep_time : Q) (s : FastKeyTracker) (k : KeyIdentity)
    (pt : Q) :
  key_states (on_key_press_update key current_time sweep_time s) !! k
  = Some pt →
  (k = key ∧ pt = current_time) ∨ key_states s !! k = Some pt.
Proof.
  rewrite press_key_states. rewrite lookup_insert.
  destruct (decide (key = k)) as [->|Hne].
  - intros [= <-]. by left.
  - intros H. right. apply (cleanup_lookup_Some sweep_time).
    destruct (decide _); [by rewrite lookup_empty in H|].
    destruct (combination_timed_out _ _); [by rewrite lookup_empty in H|done].
Qed.

(** X7.  The store only ever holds what a press put there: after any
    operation, a held key with its press time was held with that same time
    before, or the operation is the press of that key at that time.  No
    operation but a press adds a key, and none alters the time of a key it
    keeps. *)
Theorem held_keys_come_from_presses (op : operation) (s : FastKeyTracker)
    (k : KeyIdentity) (pt : Q) :
  key_states (run op s) !! k = Some pt →
  key_states s !! k = Some pt
  ∨ ∃ sweep_time, op = Press k pt sweep_time.
Proof.
  destruct op as [key t c|key t|t|t c r| |t|name keys]; cbn [run]; intros H.
  - unfold on_key_press in H. apply check_combinations_lookup_Some in H.
    apply press_update_lookup_Some in H as [[-> ->]|H]; [|by left].
    right. by exists c.
  - left. unfold on_key_release in H.
    destruct (key_states s !! key) eqn:Hk; [|done].
    cbv zeta in H. simpl in H.
    destruct (decide _); simpl in H; by apply lookup_delete_Some in H as [_ H].
  - left. by apply (cleanup_lookup_Some t).
  - left. destruct (monitor_cases t c r s) as [E|E]; rewrite E in H.
    + by apply (cleanup_lookup_Some c).
    + destruct (force_reset_fields r (cleanup_stuck_keys c s)) as (Hk & _).
      by rewrite Hk, lookup_empty in H.
  - left. by apply check_combinations_lookup_Some.
  - destruct (force_reset_fields t s) as (Hk & _).
    by rewrite Hk, lookup_empty in H.
  - left. by destruct (add_combination_cases name keys s) as [E|E];
      rewrite E in H.
Qed.

(** ** A lone tap *)

(** X8.  On an idle tracker, a press that matches nothing followed by the
    release of the same key leaves the tracker idle again: empty store, no
    timer.  Only the press counter (one more) and [last_activity] (the
    release time) have moved. *)
Theorem tap_leaves_idle (s : FastKeyTracker) (key : KeyIdentity)
    (current_time sweep_time release_time : Q) :
  key_states s = ∅ →
  (on_key_press key current_time sweep_time s).1 = None →
  let s' := (on_key_release key release_time
               (on_key_press key current_time sweep_time s).2).2 in
  s' = set_last_activity release_time
         (set_combination_start_time None
            (set_stats (incr_total_key_presses (stats s)) s)).
Proof.
  intros He Hnone. cbv zeta. unfold on_key_press in *.
  rewrite (check_combinations_none _ Hnone).
  destruct (press_on_empty_store key current_time sweep_time s He)
    as (Hk & Ht & Hs).
  destruct (press_frame key current_time sweep_time s) as (_ & Hc & _).
  pose proof (press_update_timing key current_time sweep_time s) as Htm.
  set (u := on_key_press_update key current_time sweep_time s) in *.
  destruct (on_key_release_held key release_time u) as (Hk' & Ht' & Hl' & Hs').
  { rewrite Hk. rewrite lookup_singleton_eq. by eexists. }
  destruct (on_key_release_frame key release_time u) as (Hc' & Htm').
  rewrite Hk, delete_singleton_eq in Hk', Ht'.
  rewrite decide_True in Ht' by done.
  unfold timing_of in Htm, Htm'.
  apply tracker_eq; simpl; congruence.
Qed.

(** ** Press times stay inside the window *)

Lemma check_combinations_window_ordered (s : FastKeyTracker) :
  window_ordered s → window_ordered (check_combinations s).2.
Proof.
  destruct (check_combinations_cases s) as [->|[name ->]]; [done|].
  intros _ k pt H. simpl in H. by rewrite lookup_empty in H.
Qed.

Lemma cleanup_window_ordered (now : Q) (s : FastKeyTracker) :
  window_ordered s → window_ordered (cleanup_stuck_keys now s).
Proof.
  intros Hord k pt Hk.
  assert (Hne : key_states (cleanup_stuck_keys now s) ≠ ∅).
  { intros He. by rewrite He, lookup_empty in Hk. }
  rewrite (cleanup_keeps_start_time now s Hne).
  destruct (cleanup_frame now s) as (_ & -> & _).
  apply (Hord k pt). by apply (cleanup_lookup_Some now).
Qed.

Lemma press_update_window_ordered (key : KeyIdentity)
    (current_time sweep_time : Q) (s : FastKeyTracker) :
  window_ordered s →
  (last_activity s <= current_time)%Q →
  window_ordered (on_key_press_update key current_time sweep_time s).
Proof.
  intros Hord Hclock k pt.
  pose proof (cleanup_window_ordered sweep_time s Hord) as Hsw.
  destruct (cleanup_frame sweep_time s) as (_ & Hla & _).
  destruct (press_frame key current_time sweep_time s) as (-> & _).
  rewrite press_key_states, press_start_time.
  destruct (decide (key_states (cleanup_stuck_keys sweep_time s) = ∅))
    as [He|He].
  { rewrite insert_empty. intros [-> ->]%lookup_singleton_Some.
    eexists. split; [reflexivity|]. split; apply Qle_refl. }
  destruct (combination_timed_out _ _).
  { rewrite insert_empty. intros [-> ->]%lookup_singleton_Some.
    eexists. split; [reflexivity|]. split; apply Qle_refl. }
  rewrite lookup_insert. destruct (decide (key = k)) as [->|Hne].
  - intros [= <-].
    destruct (map_choose _ He) as (k0 & pt0 & Hk0).
    destruct (Hsw k0 pt0 Hk0) as (start & Hs & H1 & H2).
    exists start. split; [done|]. rewrite Hla in H2.
    split; [lra|apply Qle_refl].
  - intros Hk. destruct (Hsw k pt Hk) as (start & Hs & H1 & H2).
    exists start. split; [done|]. rewrite Hla in H2. split; [done|lra].
Qed.

(** X9.  With clock readings that do not run backwards (a press or a
    release is not stamped before the last recorded activity), every
    operation keeps this: each held key has a press time between the start
    of the open window and the last recorded activity. *)
Theorem window_order_kept (op : operation) (s : FastKeyTracker) :
  window_ordered s →
  clock_not_before s op →
  window_ordered (run op s).
Proof.
  intros Hord Hclock.
  destruct op as [key t c|key t|t|t c r| |t|name keys]; cbn [run].
  - unfold on_key_press.
    by apply check_combinations_window_ordered, press_update_window_ordered.
  - simpl in Hclock. destruct (key_states s !! key) as [pt0|] eqn:Hk0.
    + destruct (on_key_release_held key t s) as (Hks & Hst & Hl & _);
        [by exists pt0|].
      intros k pt Hk. rewrite Hks in Hk. rewrite Hst, Hl.
      rewrite decide_False
        by (intros He; by rewrite He, lookup_empty in Hk).
      apply lookup_delete_Some in Hk as [_ Hk].
      destruct (Hord k pt Hk) as (start & Hs & H1 & H2).
      exists start. split; [done|]. split; [done|lra].
    + unfold on_key_release. by rewrite Hk0.
  - by apply cleanup_window_ordered.
  - destruct (monitor_cases t c r s) as [->| ->].
    + by apply cleanup_window_ordered.
    + intros k pt Hk.
      destruct (force_reset_fields r (cleanup_stuck_keys c s)) as (He & _).
      by rewrite He, lookup_empty in Hk.
  - by apply check_combinations_window_ordered.
  - intros k pt Hk. destruct (force_reset_fields t s) as (He & _).
    by rewrite He, lookup_empty in Hk.
  - by destruct (add_combination_cases name keys s) as [->| ->].
Qed.

(** X10.  When [max_key_hold_time] is at most 5.0 seconds (the default is
    2.0) the force-reset branch of the watchdog is never taken: if the
    inactivity test passes, every held key is already past the hold limit
    and the sweep has emptied the store, so the tick is the sweep and
    nothing more.  (The tick's sweep reads the clock after the tick
    does.) *)
Theorem force_reset_branch_needs_long_hold (s : FastKeyTracker)
    (current_time sweep_time reset_time : Q) :
  window_ordered s →
  (current_time <= sweep_time)%Q →
  (max_key_hold_time s <= 5)%Q →
  monitor current_time sweep_time reset_time s
  = cleanup_stuck_keys sweep_time s.
Proof.
  intros Hord Hclock Hmax. rewrite monitor_unfold.
  destruct (Qgtb (float_sub current_time (last_activity s)) 5) eqn:Hidle;
    [|done].
  apply Qgtb_true in Hidle.
  rewrite bool_decide_eq_false_2; [done|]. intros Hne. apply Hne.
  apply map_empty. intros k. rewrite cleanup_lookup.
  destruct (key_states s !! k) as [pt|] eqn:Hk; [|done].
  destruct (Hord k pt Hk) as (start & _ & _ & Hle).
  assert (E : Qgtb (float_sub sweep_time pt) (max_key_hold_time s) = true).
  { apply Qgtb_true. apply Qle_lt_trans with 5%Q; [done|].
    by apply (float_sub_lt_mono current_time (last_activity s)). }
  by rewrite E.
Qed.

(** ** A combination pressed in time is detected *)

(** A press that joins an open window: nothing is stale at its sweep and
    the window has not timed out. *)
Lemma press_joins_window (key : KeyIdentity) (current_time sweep_time : Q)
    (s : FastKeyTracker) (start : Q) :
  key_states s ≠ ∅ →
  combination_start_time s = Some start →
  (float_sub current_time start <= combination_timeout s)%Q →
  (∀ k pt, key_states s !! k = Some pt →
           (float_sub sweep_time pt <= max_key_hold_time s)%Q) →
  key_states (on_key_press_update key current_time sweep_time s)
  = <[ key := current_time ]> (key_states s)
  ∧ combination_start_time
      (on_key_press_update key current_time sweep_time s) = Some start.
Proof.
  intros Hne Hstart Hwin Hhold.
  rewrite press_key_states, press_start_time.
  rewrite (cleanup_nothing_stuck sweep_time s Hhold).
  rewrite !decide_False by done.
  rewrite combination_timed_out_false; [done|].
  intros start' Hs. rewrite Hstart in Hs. by injection Hs as <-.
Qed.

Lemma press_all_continues (rest : list (KeyIdentity * Q * Q)) :
  ∀ (u : FastKeyTracker) (held : list KeyIdentity) (start : Q)
    (name : string),
    rest ≠ [] →
    key_states u ≠ ∅ →
    dom (key_states u) = list_to_set held →
    combination_start_time u = Some start →
    Forall (λ p, (float_sub p.1.2 start <= combination_timeout u)%Q) rest →
    (∀ k pt p, key_states u !! k = Some pt → p ∈ rest →
               (float_sub p.2 pt <= max_key_hold_time u)%Q) →
    (∀ p q, p ∈ rest → q ∈ rest →
            (float_sub p.2 q.1.2 <= max_key_hold_time u)%Q) →
    (∀ pre suf, rest.*1.*1 = pre ++ suf → pre ≠ [] → suf ≠ [] →
                ∀ other, (other, list_to_set (held ++ pre)) ∉ combinations u) →
    first_exact_match (list_to_set (held ++ rest.*1.*1)) (combinations u) name →
    (press_all rest u).1 = replicate (length rest - 1) None ++ [Some name]
    ∧ key_states (press_all rest u).2 = ∅.
Proof.
  induction rest as [|[[key t] c] rest IH];
    intros u held start name Hrest Hne Hdom Hstart Hwin Hhold Hpair Hpre Hfull;
    [done|].
  apply Forall_cons in Hwin as [Hwin1 Hwin]. simpl in Hwin1.
  destruct (press_joins_window key t c u start Hne Hstart Hwin1) as [Hks Hst].
  { intros k pt Hk. apply (Hhold k pt (key, t, c) Hk). left. }
  destruct (press_frame key t c u) as (_ & Hc & Hto & Hmax).
  set (u' := on_key_press_update key t c u) in *.
  assert (Hdom' : dom (key_states u') = list_to_set (held ++ [key])).
  { rewrite Hks, dom_insert_L, Hdom, list_to_set_app_L. simpl.
    rewrite (right_id_L ∅ (∪)). apply (comm_L (∪)). }
  simpl press_all. cbv zeta. unfold on_key_press. fold u'.
  destruct rest as [|p rest].
  - (* the last press *)
    simpl in Hfull.
    assert (Hres : (check_combinations u').1 = Some name).
    { apply check_combinations_result. rewrite Hdom', Hc. split; [|done].
      rewrite <- Hdom', Hks. intros He. apply dom_empty_inv_L in He.
      by apply insert_non_empty_store in He. }
    rewrite (check_combinations_some u' name Hres). by rewrite Hres.
  - (* a press in the middle *)
    assert (Hnone : check_combinations u' = (None, u')).
    { apply check_combinations_no_entry. intros other.
      rewrite Hdom', Hc. apply (Hpre [key] ((p :: rest).*1.*1)); done. }
    rewrite Hnone. cbn [fst snd].
    destruct (IH u' (held ++ [key]) start name) as [Hr He]; try done.
    + intros He. by apply insert_non_empty_store in He.
    + rewrite Hto. exact Hwin.
    + intros k pt q Hk Hq. rewrite Hmax.
      rewrite Hks, lookup_insert in Hk.
      destruct (decide (key = k)) as [->|Hkk].
      * injection Hk as <-. apply (Hpair q (k, t, c)); [by right|left].
      * apply (Hhold k pt q Hk). by right.
    + intros q1 q2 Hq1 Hq2. rewrite Hmax. apply Hpair; by right.
    + intros pre suf Hsplit Hpre0 Hsuf0 other. rewrite Hc, <- app_assoc.
      apply (Hpre (key :: pre) suf); [|done|done].
      simpl. simpl in Hsplit. by rewrite Hsplit.
    + rewrite Hc, <- app_assoc. exact Hfull.
    + split; [|exact He]. rewrite Hr. simpl. by rewrite Nat.sub_0_r.
Qed.

(** X11.  Starting with no key held, press the keys of a combination one
    after the other: every press within [combination_timeout] of the first,
    every sweep within [max_key_hold_time] of every press, and no key set
    reached on the way registered.  Then every press but the last returns
    nothing, the last returns the first table entry whose key set is the
    set of the keys pressed, whatever their order and with repeats allowed,
    and the store is empty afterwards. *)
Theorem combination_pressed_in_time_is_detected (s : FastKeyTracker)
    (first : KeyIdentity * Q * Q) (rest : list (KeyIdentity * Q * Q))
    (name : string) :
  key_states s = ∅ →
  Forall (λ p, (float_sub p.1.2 first.1.2 <= combination_timeout s)%Q) rest →
  (∀ p q, p ∈ rest → q ∈ first :: rest →
          (float_sub p.2 q.1.2 <= max_key_hold_time s)%Q) →
  (∀ pre suf, (first :: rest).*1.*1 = pre ++ suf → pre ≠ [] → suf ≠ [] →
              ∀ other, (other, list_to_set pre) ∉ combinations s) →
  first_exact_match (list_to_set (first :: rest).*1.*1) (combinations s)
    name →
  (press_all (first :: rest) s).1
  = replicate (length rest) None ++ [Some name]
  ∧ key_states (press_all (first :: rest) s).2 = ∅.
Proof.
  destruct first as [[key t] c].
  intros He Hwin Hpair Hpre Hfull.
  destruct (press_on_empty_store key t c s He) as (Hks & Hst & _).
  destruct (press_frame key t c s) as (_ & Hc & Hto & Hmax).
  set (u := on_key_press_update key t c s) in *.
  simpl press_all. cbv zeta. unfold on_key_press. fold u.
  assert (Hdom : dom (key_states u) = list_to_set [key]).
  { rewrite Hks, dom_singleton_L. simpl. by rewrite (right_id_L ∅ (∪)). }
  destruct rest as [|p rest].
  - simpl in Hfull.
    assert (Hres : (check_combinations u).1 = Some name).
    { apply check_combinations_result. rewrite Hdom, Hc. split; [|done].
      rewrite <- Hdom, Hks, dom_singleton_L. intros E.
      assert (Hin : key ∈ ({[ key ]} : gset KeyIdentity))
        by by apply elem_of_singleton.
      rewrite E in Hin. by apply not_elem_of_empty in Hin. }
    rewrite (check_combinations_some u name Hres). by rewrite Hres.
  - assert (Hnone : check_combinations u = (None, u)).
    { apply check_combinations_no_entry. intros other. rewrite Hdom, Hc.
      apply (Hpre [key] ((p :: rest).*1.*1)); done. }
    rewrite Hnone. cbn [fst snd].
    destruct (press_all_continues (p :: rest) u [key] t name)
      as [Hr Hfin]; try done.
    + rewrite Hks. intros E.
      assert (H1 : ({[ key := t ]} : gmap KeyIdentity Q) !! key = Some t)
        by apply lookup_singleton_eq.
      by rewrite E, lookup_empty in H1.
    + rewrite Hto. exact Hwin.
    + intros k pt q Hk Hq. rewrite Hmax, Hks in *.
      apply lookup_singleton_Some in Hk as [<- <-].
      apply (Hpair q (key, t, c)); [done|left].
    + intros q1 q2 Hq1 Hq2. rewrite Hmax. apply Hpair; [done|by right].
    + intros pre suf Hsplit Hpre0 Hsuf0 other. rewrite Hc.
      apply (Hpre (key :: pre) suf); [|done|done].
      simpl. simpl in Hsplit. by rewrite Hsplit.
    + by rewrite Hc.
    + split; [|exact Hfin]. rewrite Hr. simpl. by rewrite Nat.sub_0_r.
Qed.

(** * The further properties at concrete inputs *)

(** A sweep at 101 then one at 103 on ctrl held since 100. *)
Lemma sweep_after_sweep_witness :
  (101 <= 103)%Q
  ∧ cleanup_stuck_keys 103 (cleanup_stuck_keys 101 Scenario.ctrl_down)
    = cleanup_stuck_keys 103 Scenario.ctrl_down.
Proof.
  assert (H : (101 <= 103)%Q) by (vm_compute; discriminate).
  split; [exact H|]. exact (sweep_after_sweep 101 103 Scenario.ctrl_down H).
Defined.

(** A tick long after the set-up, with nothing held. *)
Lemma idle_tick_changes_nothing_witness :
  key_states Scenario.with_A = ∅
  ∧ monitor 500 500 500 Scenario.with_A = Scenario.with_A.
Proof.
  assert (H : key_states Scenario.with_A = ∅) by (vm_compute; reflexivity).
  split; [exact H|].
  exact (idle_tick_changes_nothing Scenario.with_A 500 500 500 H).
Defined.

(** After space is pressed on top of ctrl at 100.25 (no match: "A" is not
    registered), ctrl still has its time. *)
Lemma held_keys_come_from_presses_witness :
  let op := Press Scenario.space (401 # 4) (401 # 4) in
  let s := (on_key_press Scenario.ctrl 100 100 Scenario.fresh).2 in
  key_states (run op s) !! Scenario.ctrl = Some 100%Q
  ∧ (key_states s !! Scenario.ctrl = Some 100%Q
     ∨ ∃ sweep_time, op = Press Scenario.ctrl 100 sweep_time).
Proof.
  cbv zeta.
  assert (H : key_states
                (run (Press Scenario.space (401 # 4) (401 # 4))
                   (on_key_press Scenario.ctrl 100 100 Scenario.fresh).2)
              !! Scenario.ctrl = Some 100%Q) by (vm_compute; reflexivity).
  split; [exact H|].
  exact (held_keys_come_from_presses _ _ _ _ H).
Defined.

(** ctrl tapped on a new tracker. *)
Lemma tap_leaves_idle_witness :
  key_states Scenario.with_A = ∅
  ∧ (on_key_press Scenario.ctrl 100 100 Scenario.with_A).1 = None
  ∧ key_states
      (on_key_release Scenario.ctrl 101
         (on_key_press Scenario.ctrl 100 100 Scenario.with_A).2).2 = ∅.
Proof.
  assert (H1 : key_states Scenario.with_A = ∅) by (vm_compute; reflexivity).
  assert (H2 : (on_key_press Scenario.ctrl 100 100 Scenario.with_A).1 = None)
    by (vm_compute; reflexivity).
  split; [exact H1|]. split; [exact H2|].
  rewrite (tap_leaves_idle Scenario.with_A Scenario.ctrl 100 100 101 H1 H2).
  exact H1.
Defined.

(** The first press on a new tracker. *)
Lemma window_order_kept_witness :
  window_ordered Scenario.fresh
  ∧ clock_not_before Scenario.fresh (Press Scenario.ctrl 100 100)
  ∧ window_ordered (run (Press Scenario.ctrl 100 100) Scenario.fresh).
Proof.
  assert (H1 : window_ordered Scenario.fresh).
  { intros k pt Hk. vm_compute in Hk. discriminate Hk. }
  assert (H2 : clock_not_before Scenario.fresh (Press Scenario.ctrl 100 100))
    by (vm_compute; discriminate).
  split; [exact H1|]. split; [exact H2|].
  exact (window_order_kept _ _ H1 H2).
Defined.

(** ctrl held since 100 with the default hold limit, tick at 106. *)
Lemma force_reset_branch_needs_long_hold_witness :
  window_ordered Scenario.ctrl_down
  ∧ (106 <= 106)%Q
  ∧ (max_key_hold_time Scenario.ctrl_down <= 5)%Q
  ∧ monitor 106 106 106 Scenario.ctrl_down
    = cleanup_stuck_keys 106 Scenario.ctrl_down.
Proof.
  assert (H0 : window_ordered Scenario.with_A).
  { intros k pt Hk. vm_compute in Hk. discriminate Hk. }
  assert (Hc : clock_not_before Scenario.with_A (Press Scenario.ctrl 100 100))
    by (vm_compute; discriminate).
  assert (H1 : window_ordered Scenario.ctrl_down).
  { unfold Scenario.ctrl_down, on_key_press.
    by apply check_combinations_window_ordered,
             press_update_window_ordered. }
  assert (H2 : (106 <= 106)%Q) by (vm_compute; discriminate).
  assert (H3 : (max_key_hold_time Scenario.ctrl_down <= 5)%Q)
    by (vm_compute; discriminate).
  split; [exact H1|]. split; [exact H2|]. split; [exact H3|].
  exact (force_reset_branch_needs_long_hold Scenario.ctrl_down 106 106 106
           H1 H2 H3).
Defined.

(** ctrl at 100 and space at 100.375 with "A" registered. *)
Lemma combination_pressed_in_time_is_detected_witness :
  (press_all
     [(Scenario.ctrl, 100%Q, 100%Q);
      (Scenario.space, (803 # 8)%Q, (803 # 8)%Q)]
     Scenario.with_A).1
  = [None; Some "A"%string].
Proof.
  pose (first := (Scenario.ctrl, 100%Q, 100%Q)).
  pose (rest := [(Scenario.space, (803 # 8)%Q, (803 # 8)%Q)]).
  assert (H1 : key_states Scenario.with_A = ∅) by (vm_compute; reflexivity).
  assert (H2 : Forall (λ p : KeyIdentity * Q * Q,
                         (float_sub p.1.2 first.1.2
                          <= combination_timeout Scenario.with_A)%Q) rest).
  { apply Forall_cons_2; [vm_compute; discriminate|apply Forall_nil_2]. }
  assert (H3 : ∀ p q : KeyIdentity * Q * Q,
             p ∈ rest → q ∈ first :: rest →
             (float_sub p.2 q.1.2 <= max_key_hold_time Scenario.with_A)%Q).
  { intros p q ->%list_elem_of_singleton Hq.
    apply elem_of_cons in Hq as [Hq|Hq%list_elem_of_singleton];
      rewrite Hq; vm_compute; discriminate. }
  assert (H4 : ∀ pre suf, (first :: rest).*1.*1 = pre ++ suf →
             pre ≠ [] → suf ≠ [] →
             ∀ other, (other, list_to_set pre) ∉ combinations Scenario.with_A).
  { intros pre suf Hsplit Hpre Hsuf other Hin.
    destruct pre as [|k1 [|k2 pre]]; [exfalso; by apply Hpre| |].
    - injection Hsplit as <- _.
      assert (E : combinations Scenario.with_A
                  = [("A"%string,
                      list_to_set [Scenario.ctrl; Scenario.space])])
        by (vm_compute; reflexivity).
      rewrite E in Hin. apply list_elem_of_singleton in Hin.
      apply pair_equal_spec in Hin as [_ Hset].
      assert (Hsp : Scenario.space
                      ∈ (list_to_set [Scenario.ctrl] : gset KeyIdentity)).
      { rewrite Hset. apply elem_of_list_to_set. right. left. }
      apply elem_of_list_to_set, list_elem_of_singleton in Hsp.
      discriminate Hsp.
    - injection Hsplit as _ _ Hnil. symmetry in Hnil.
      apply app_eq_nil in Hnil as [_ Hnil]. exact (Hsuf Hnil). }
  assert (H5 : first_exact_match (list_to_set (first :: rest).*1.*1)
                 (combinations Scenario.with_A) "A"%string).
  { exists 0%nat, (list_to_set [Scenario.ctrl; Scenario.space]).
    split; [vm_compute; reflexivity|]. split; [vm_compute; reflexivity|].
    intros j n' R' Hj. lia. }
  exact (proj1 (combination_pressed_in_time_is_detected Scenario.with_A
                  first rest "A"%string H1 H2 H3 H4 H5)).
Defined.

(** * The key-string parser *)

(** ** Characters *)

Ltac each_char c :=
  destruct c as [[] [] [] [] [] [] [] []]; vm_compute; try reflexivity;
  try discriminate; try tauto.

Lemma lower_char_idem (c : Ascii.ascii) :
  lower_char (lower_char c) = lower_char c.
Proof. each_char c. Qed.

Lemma isspace_lower_char (c : Ascii.ascii) :
  isspace_char (lower_char c) = isspace_char c.
Proof. each_char c. Qed.

Lemma lower_char_plus (c : Ascii.ascii) :
  lower_char c = "+"%char ↔ c = "+"%char.
Proof. split; each_char c. Qed.

Lemma isalpha_not_space (c : Ascii.ascii) :
  isalpha_char c = true → isspace_char c = false.
Proof. each_char c. Qed.

Lemma isalpha_not_plus (c : Ascii.ascii) :
  isalpha_char c = true → c ≠ "+"%char.
Proof. each_char c. Qed.

Lemma int_safe_lower_char (c : Ascii.ascii) :
  int_safe_char c = true → int_safe_char (lower_char c) = true.
Proof. each_char c. Qed.

Lemma int_safe_digit (c : Ascii.ascii) :
  int_safe_char c = true → isdigit_char c = true → isdecimal_char c = true.
Proof. each_char c. Qed.

(** ** Strings *)

Lemma lower_idem (s : string) : lower (lower s) = lower s.
Proof. induction s as [|c s IH]; simpl; [done|]. by rewrite lower_char_idem, IH. Qed.

Lemma lower_lstrip (s : string) : lstrip (lower s) = lower (lstrip s).
Proof.
  induction s as [|c s IH]; simpl; [done|].
  rewrite isspace_lower_char. by destruct (isspace_char c).
Qed.

Lemma lower_rstrip (s : string) : rstrip (lower s) = lower (rstrip s).
Proof.
  induction s as [|c s IH]; simpl; [done|].
  rewrite IH, isspace_lower_char.
  destruct (rstrip s); simpl; [by destruct (isspace_char c)|done].
Qed.

Lemma lower_strip (s : string) : strip (lower s) = lower (strip s).
Proof. unfold strip. by rewrite lower_lstrip, lower_rstrip. Qed.

Lemma split_non_empty (sep : Ascii.ascii) (s : string) : split sep s ≠ [].
Proof.
  induction s as [|c s IH]; simpl; [done|].
  destruct (decide (c = sep)); [done|]. by destruct (split sep s).
Qed.

Lemma split_lower (s : string) :
  split "+"%char (lower s) = lower <$> split "+"%char s.
Proof.
  induction s as [|c s IH]; simpl; [done|].
  destruct (decide (c = "+"%char)) as [->|Hne].
  - rewrite decide_True by done. simpl. by rewrite IH.
  - rewrite decide_False by (by rewrite lower_char_plus).
    rewrite IH. pose proof (split_non_empty "+"%char s).
    by destruct (split "+"%char s).
Qed.

(** X12.  Key strings are read without regard to case: a key string and
    its lower-case form give the same keys, or fail alike. *)
Theorem parse_key_combination_ignores_case (int_max_str_digits : nat)
    (key_string : string) :
  parse_key_combination int_max_str_digits (lower key_string)
  = parse_key_combination int_max_str_digits key_string.
Proof.
  unfold parse_key_combination. cbv zeta. rewrite split_lower.
  rewrite <- list_fmap_compose. f_equal. apply list_fmap_ext.
  intros i part _. simpl. by rewrite lower_strip, lower_idem.
Qed.

(** ** What the parser can produce *)

Ltac in_list :=
  repeat (first [apply list_elem_of_here | apply list_elem_of_further]).

Lemma function_key_named (n : N) :
  (1 <= n)%N → (n <= 12)%N →
  Key ("f" ++ format_N n)%string ∈ named_keys.
Proof.
  intros H1 H12. destruct n as [|p]; [lia|].
  do 4 (try destruct p as [p|p|]); try lia;
    vm_compute; in_list.
Qed.

Lemma string_length_1 (s : string) :
  String.length s = 1%nat → ∃ c, s = String c EmptyString.
Proof.
  destruct s as [|c [|c' s]]; simpl; try done. intros _. by exists c.
Qed.

Lemma parse_part_supported (int_max_str_digits : nat) (part : string)
    (k : KeyIdentity) :
  lower part = part →
  parse_part int_max_str_digits part = Ok (Some k) →
  supported_key k.
Proof.
  intros Hlow. unfold parse_part.
  repeat (destruct (decide (part = _));
          [intros [= <-]; left; unfold named_keys; simpl; in_list|]).
  destruct (startswith _ _ && _ && _).
  - destruct (int _ _) as [f_num|e]; [|done].
    destruct ((1 <=? f_num)%N && (f_num <=? 12)%N) eqn:E; [|done].
    apply andb_true_iff in E as [E1 E2].
    apply N.leb_le in E1, E2. intros [= <-]. left.
    by apply function_key_named.
  - destruct ((String.length part =? 1)%nat && isalpha part) eqn:E; [|done].
    apply andb_true_iff in E as [E1 E2]. apply Nat.eqb_eq in E1.
    apply string_length_1 in E1 as [c ->]. intros [= <-]. right.
    exists c. unfold isalpha in E2. simpl in E2, Hlow.
    rewrite andb_true_r in E2. split; [done|]. split; [congruence|done].
Qed.

Lemma parse_parts_supported (int_max_str_digits : nat) (parts : list string) :
  ∀ keys,
    Forall (λ part, lower part = part) parts →
    parse_parts int_max_str_digits parts = Ok keys →
    Forall supported_key keys ∧ (length keys ≤ length parts)%nat.
Proof.
  induction parts as [|part parts IH]; intros keys Hlow; simpl.
  - intros [= <-]. split; [constructor|done].
  - apply Forall_cons in Hlow as [Hp Hlow].
    destruct (parse_part _ part) as [found|e] eqn:E; [|done].
    destruct (parse_parts _ parts) as [keys'|e]; [|done].
    destruct (IH keys' Hlow eq_refl) as [Hk Hlen].
    intros [= <-]. destruct found as [key|]; [|split; [done|lia]].
    split; [|simpl; lia]. constructor; [|done].
    by apply (parse_part_supported int_max_str_digits part).
Qed.

Lemma length_split (sep : Ascii.ascii) (s : string) :
  length (split sep s) = S (count sep s).
Proof.
  induction s as [|c s IH]; simpl; [done|].
  destruct (decide (c = sep)); simpl; [by rewrite IH|].
  pose proof (split_non_empty sep s).
  destruct (split sep s); [done|]. simpl in *. done.
Qed.

Lemma key_words_add (part : string) :
  part ∈ key_words → ¬ adds_no_key part.
Proof.
  unfold key_words. rewrite !elem_of_cons, elem_of_nil.
  intros [->|[->|[->|[->|[->|[->|[]]]]]]];
    (intros [H|[(H & _)|[(H & _)|(_ & H & _)]]];
     [discriminate H|discriminate H|discriminate H|]);
    apply H; unfold key_words; in_list.
Qed.

Lemma parse_part_key (int_max_str_digits : nat) (part : string)
    (found : option KeyIdentity) :
  parse_part int_max_str_digits part = Ok found → part_key part found.
Proof.
  unfold parse_part.
  repeat (destruct (decide (part = _)) as [->|?];
          [intros Heq; simplify_eq; split;
           [apply key_words_add; unfold key_words; in_list
           |left; split; [unfold key_words; in_list|done]]|]).
  assert (Hwords : part ∉ key_words).
  { unfold key_words. rewrite !elem_of_cons, elem_of_nil.
    intros [->|[->|[->|[->|[->|[->|[]]]]]]]; done. }
  destruct (startswith _ _ && _ && _) eqn:E.
  - apply andb_true_iff in E as [[Hf Hlen]%andb_true_iff Hd].
    apply Nat.ltb_lt in Hlen.
    unfold int. destruct (negb _); [done|]. destruct (_ && _); [done|].
    destruct ((1 <=? _)%N && (_ <=? 12)%N) eqn:Er; intros Heq; simplify_eq.
    + apply andb_true_iff in Er as [E1%N.leb_le E2%N.leb_le]. split.
      * intros [->|[(_ & _ & H)|[(H & _)|(_ & _ & H)]]];
          [done|apply H; lia|lia|by apply H].
      * right. right. done.
    + right. left. split; [done|]. split; [done|].
      intros [E1%N.leb_le E2%N.leb_le]. by rewrite E1, E2 in Er.
  - destruct ((String.length part =? 1)%nat && isalpha part) eqn:E1;
      intros Heq; simplify_eq.
    + apply andb_true_iff in E1 as [Hlen%Nat.eqb_eq Ha]. split.
      * intros [->|[(Hf & Hd & _)|[(_ & H)|(H & _)]]];
          [done| |congruence|lia].
        apply string_length_1 in Hlen as [c ->]. done.
      * right. left. done.
    + destruct (decide (part = EmptyString)) as [->|Hne]; [by left|].
      right. right.
      destruct (decide (String.length part = 1)) as [Hlen|Hlen].
      * left. split; [done|]. rewrite Hlen in E1. done.
      * right. assert (1 < String.length part) as Hlong.
        { destruct part as [|? [|? ?]]; simpl in *; [done|done|lia]. }
        split; [done|]. split; [done|]. intros [Hf Hd].
        rewrite Hf, Hd in E. apply Nat.ltb_lt in Hlong. by rewrite Hlong in E.
Qed.

Lemma parse_parts_found (int_max_str_digits : nat) (parts : list string)
    (keys : list KeyIdentity) :
  parse_parts int_max_str_digits parts = Ok keys →
  ∃ found, keys = omap id found ∧ Forall2 part_key parts found.
Proof.
  revert keys. induction parts as [|part parts IH]; intros keys; simpl.
  - intros Heq. simplify_eq. by exists [].
  - destruct (parse_part _ part) as [r|e] eqn:E; [|done].
    destruct (parse_parts _ parts) as [keys'|e]; [|done].
    destruct (IH keys' eq_refl) as (found & -> & Hall).
    intros Heq. simplify_eq. exists (r :: found). split.
    + by destruct r.
    + constructor; [|done]. by apply (parse_part_key int_max_str_digits).
Qed.

(** X13.  For a key string of code points below 256: every key
    [parse_key_combination] returns is one of ctrl, shift, alt, space, tab,
    enter, f1 to f12, or a single letter in lower case; there are no more
    keys than parts, one more than the number of [+] in the string.  The
    keys are, in order, what the parts (stripped, in lower case) add: a
    name adds its key, a single letter its key, f with a number from 1 to
    12 that function key, and every other part nothing: the empty part, a
    function key outside f1-f12, a single character that is no letter, an
    unknown word. *)
Theorem parse_key_combination_keys (int_max_str_digits : nat)
    (key_string : string) (keys : list KeyIdentity) :
  parse_key_combination int_max_str_digits key_string = Ok keys →
  Forall supported_key keys
  ∧ (length keys ≤ S (count "+"%char key_string))%nat
  ∧ ∃ found,
      keys = omap id found
      ∧ Forall2 (λ part, part_key (lower (strip part)))
          (split "+"%char key_string) found.
Proof.
  unfold parse_key_combination. cbv zeta. intros Hparse.
  pose proof (parse_parts_found _ _ _ Hparse) as (found & Hkeys & Hfound).
  apply parse_parts_supported in Hparse as [Hk Hlen].
  - split; [done|].
    split; [by rewrite length_fmap, length_split in Hlen|].
    exists found. split; [done|].
    rewrite Forall2_fmap_l in Hfound. exact Hfound.
  - apply Forall_fmap, Forall_forall. intros part _. simpl.
    apply lower_idem.
Qed.

(** ** Round trip *)

Lemma split_no_plus (s : string) :
  no_plus s = true → split "+"%char s = [s].
Proof.
  induction s as [|c s IH]; simpl; [done|].
  unfold no_plus. simpl. intros [Hc Hs]%andb_true_iff.
  apply negb_true_iff, bool_decide_eq_false in Hc.
  rewrite decide_False by done. unfold no_plus in IH. by rewrite IH.
Qed.

Lemma split_app_plus (s rest : string) :
  no_plus s = true →
  split "+"%char (s ++ String "+"%char rest)%string
  = s :: split "+"%char rest.
Proof.
  induction s as [|c s IH]; simpl; [done|].
  unfold no_plus. simpl. intros [Hc Hs]%andb_true_iff.
  apply negb_true_iff, bool_decide_eq_false in Hc.
  rewrite decide_False by done. unfold no_plus in IH. by rewrite IH.
Qed.

Lemma split_join (parts : list string) :
  parts ≠ [] →
  Forall (λ part, no_plus part = true) parts →
  split "+"%char (join "+"%char parts) = parts.
Proof.
  induction parts as [|part parts IH]; [done|]. intros _ Hall.
  apply Forall_cons in Hall as [Hp Hall].
  destruct parts as [|part' parts].
  - simpl. by apply split_no_plus.
  - change (join "+"%char (part :: part' :: parts))
      with (part ++ String "+"%char (join "+"%char (part' :: parts)))%string.
    rewrite split_app_plus by done. by rewrite IH.
Qed.

Lemma named_key_token (int_max_str_digits : nat) (k : KeyIdentity) :
  k ∈ named_keys →
  no_plus (key_token k) = true
  ∧ lower (strip (key_token k)) = key_token k
  ∧ parse_part int_max_str_digits (key_token k) = Ok (Some k).
Proof.
  unfold named_keys. simpl. intros H.
  repeat (apply elem_of_cons in H as [->|H]; [by vm_compute|]).
  by apply elem_of_nil in H.
Qed.

Lemma letter_key_token (int_max_str_digits : nat) (c : Ascii.ascii) :
  isalpha_char c = true → lower_char c = c →
  no_plus (String c EmptyString) = true
  ∧ lower (strip (String c EmptyString)) = String c EmptyString
  ∧ parse_part int_max_str_digits (String c EmptyString)
    = Ok (Some (KeyCode (String c EmptyString))).
Proof.
  destruct c as [[] [] [] [] [] [] [] []]; intros Ha Hl;
    try discriminate Ha; try discriminate Hl; by vm_compute.
Qed.

Lemma supported_key_token (int_max_str_digits : nat) (k : KeyIdentity) :
  supported_key k →
  no_plus (key_token k) = true
  ∧ lower (strip (key_token k)) = key_token k
  ∧ parse_part int_max_str_digits (key_token k) = Ok (Some k).
Proof.
  intros [Hn|(c & Ha & Hl & ->)].
  - by apply named_key_token.
  - by apply letter_key_token.
Qed.

Lemma parse_parts_tokens (int_max_str_digits : nat)
    (keys : list KeyIdentity) :
  Forall supported_key keys →
  parse_parts int_max_str_digits
    ((λ part, lower (strip part)) <$> (key_token <$> keys))
  = Ok keys.
Proof.
  induction 1 as [|k keys Hk Hall IH]; [done|].
  destruct (supported_key_token int_max_str_digits k Hk) as (_ & Hl & Hp).
  rewrite !fmap_cons. cbn [parse_parts]. by rewrite Hl, Hp, IH.
Qed.

(** X14.  Writing supported keys as the configuration file writes them
    (a named key by its name, a letter key by its letter), joined by [+],
    and parsing the result gives the same keys back, in the same order,
    repeats included. *)
Theorem parse_key_combination_round_trip (int_max_str_digits : nat)
    (keys : list KeyIdentity) :
  Forall supported_key keys →
  parse_key_combination int_max_str_digits
    (join "+"%char (key_token <$> keys))
  = Ok keys.
Proof.
  intros Hall. destruct keys as [|k keys]; [by vm_compute|].
  unfold parse_key_combination. cbv zeta. rewrite split_join.
  - by apply parse_parts_tokens.
  - done.
  - apply Forall_fmap. eapply Forall_impl; [exact Hall|].
    intros k' Hk. simpl.
    by destruct (supported_key_token int_max_str_digits k' Hk) as (? & _).
Qed.

(** ** When the parser raises *)

Lemma string_forallb_tail (p : Ascii.ascii → bool) (s : string) :
  string_forallb p s = true → string_forallb p (tail s) = true.
Proof. destruct s; simpl; [done|]. by intros [_ ?]%andb_true_iff. Qed.

Lemma string_forallb_lower (s : string) :
  string_forallb int_safe_char s = true →
  string_forallb int_safe_char (lower s) = true.
Proof.
  induction s as [|c s IH]; simpl; [done|].
  intros [Hc Hs]%andb_true_iff.
  by rewrite (int_safe_lower_char c Hc), IH.
Qed.

Lemma string_forallb_lstrip (p : Ascii.ascii → bool) (s : string) :
  string_forallb p s = true → string_forallb p (lstrip s) = true.
Proof.
  induction s as [|c s IH]; simpl; [done|].
  intros H. destruct (isspace_char c); [|done].
  apply andb_true_iff in H as [_ H]. by apply IH.
Qed.

Lemma string_forallb_rstrip (p : Ascii.ascii → bool) (s : string) :
  string_forallb p s = true → string_forallb p (rstrip s) = true.
Proof.
  induction s as [|c s IH]; simpl; [done|].
  intros [Hc Hs]%andb_true_iff. specialize (IH Hs).
  destruct (rstrip s); simpl in *.
  - destruct (isspace_char c); simpl; [done|by rewrite Hc].
  - by rewrite Hc, IH.
Qed.

Lemma string_forallb_split (p : Ascii.ascii → bool) (sep : Ascii.ascii)
    (s : string) :
  string_forallb p s = true →
  Forall (λ part, string_forallb p part = true) (split sep s).
Proof.
  induction s as [|c s IH]; simpl; [by repeat constructor|].
  intros [Hc Hs]%andb_true_iff. specialize (IH Hs).
  destruct (decide (c = sep)); [by constructor|].
  destruct (split sep s) as [|part parts]; [by repeat constructor; simpl; rewrite Hc|].
  apply Forall_cons in IH as [Hp Hps].
  constructor; [simpl; by rewrite Hc, Hp|done].
Qed.

Lemma length_lower (s : string) : String.length (lower s) = String.length s.
Proof. induction s as [|c s IH]; simpl; [done|]. by rewrite IH. Qed.

Lemma length_lstrip (s : string) :
  (String.length (lstrip s) ≤ String.length s)%nat.
Proof.
  induction s as [|c s IH]; simpl; [done|].
  destruct (isspace_char c); simpl; lia.
Qed.

Lemma length_rstrip (s : string) :
  (String.length (rstrip s) ≤ String.length s)%nat.
Proof.
  induction s as [|c s IH]; simpl; [done|].
  destruct (rstrip s); simpl in *; [destruct (isspace_char c); simpl; lia|lia].
Qed.

Lemma length_split_parts (sep : Ascii.ascii) (s : string) :
  Forall (λ part, (String.length part ≤ String.length s)%nat) (split sep s).
Proof.
  induction s as [|c s IH]; simpl;
    [apply Forall_cons_2; [done|apply Forall_nil_2]|].
  destruct (decide (c = sep)).
  - constructor; [simpl; lia|].
    eapply Forall_impl; [exact IH|]. simpl. intros; lia.
  - destruct (split sep s) as [|part parts];
      [apply Forall_cons_2; [simpl; lia|apply Forall_nil_2]|].
    apply Forall_cons in IH as [Hp Hps].
    constructor; [simpl; lia|].
    eapply Forall_impl; [exact Hps|]. simpl. intros; lia.
Qed.

Lemma digits_are_decimal (s : string) :
  string_forallb int_safe_char s = true →
  string_forallb isdigit_char s = true →
  string_forallb isdecimal_char s = true.
Proof.
  induction s as [|c s IH]; simpl; [done|].
  intros [Hc Hs]%andb_true_iff [Hd Hds]%andb_true_iff.
  by rewrite (int_safe_digit c Hc Hd), IH.
Qed.

Lemma parse_part_raises (int_max_str_digits : nat) (part : string) (e : exn) :
  parse_part int_max_str_digits part = Raise e →
  e = ValueError
  ∧ startswith "f"%char part = true
  ∧ isdigit (tail part) = true
  ∧ (string_forallb isdecimal_char (tail part) = false
     ∨ (640 < String.length (tail part)
        ∧ 0 < int_max_str_digits < String.length (tail part))%nat).
Proof.
  unfold parse_part.
  repeat (destruct (decide (part = _)); [done|]).
  destruct (startswith _ _ && _ && _) eqn:E.
  - apply andb_true_iff in E as [[Hf _]%andb_true_iff Hd].
    unfold int.
    destruct (string_forallb isdecimal_char (tail part)) eqn:Hdec; simpl.
    + destruct ((640 <? _)%nat && _ && _) eqn:Hlim.
      * intros [= <-]. repeat (split; [done|]). right.
        apply andb_true_iff in Hlim as [[H1 H2]%andb_true_iff H3].
        apply Nat.ltb_lt in H1, H2, H3. lia.
      * by destruct ((1 <=? _)%N && _).
    + intros [= <-]. repeat (split; [done|]). by left.
  - by destruct ((String.length part =? 1)%nat && isalpha part).
Qed.

Lemma parse_parts_raises (int_max_str_digits : nat) (parts : list string)
    (e : exn) :
  parse_parts int_max_str_digits parts = Raise e →
  ∃ part, part ∈ parts ∧ parse_part int_max_str_digits part = Raise e.
Proof.
  induction parts as [|part parts IH]; simpl; [done|].
  destruct (parse_part _ part) as [found|e'] eqn:E.
  - destruct (parse_parts _ parts) as [keys|e']; [done|].
    intros [= <-]. destruct (IH eq_refl) as (p & Hin & Hp).
    exists p. split; [by right|done].
  - intros [= <-]. exists part. split; [left|done].
Qed.

(** X15.  For a key string of code points below 256:
    [parse_key_combination] can only fail with [ValueError], and only on a
    part that reads f followed by digits [int()] refuses.  It never fails
    on such a key string without superscript digits that has at most 640
    characters, nor on one without superscript digits of any length when
    the interpreter does not limit integer conversion. *)
Theorem parse_key_combination_raises (int_max_str_digits : nat)
    (key_string : string) :
  (∀ e, parse_key_combination int_max_str_digits key_string = Raise e →
        e = ValueError
        ∧ ∃ part, part ∈ split "+"%char key_string
                  ∧ startswith "f"%char (lower (strip part)) = true
                  ∧ isdigit (tail (lower (strip part))) = true)
  ∧ (string_forallb int_safe_char key_string = true →
     (String.length key_string ≤ 640)%nat ∨ int_max_str_digits = 0%nat →
     ∃ keys, parse_key_combination int_max_str_digits key_string = Ok keys).
Proof.
  unfold parse_key_combination. cbv zeta.
  assert (Hraise : ∀ e,
    parse_parts int_max_str_digits
      ((λ part, lower (strip part)) <$> split "+"%char key_string) = Raise e →
    ∃ part, part ∈ split "+"%char key_string
            ∧ parse_part int_max_str_digits (lower (strip part)) = Raise e).
  { intros e (p & Hin & Hp)%parse_parts_raises.
    apply list_elem_of_fmap in Hin as (part & -> & Hin). by exists part. }
  split.
  - intros e (part & Hin & Hp)%Hraise.
    apply parse_part_raises in Hp as (-> & Hf & Hd & _).
    split; [done|]. by exists part.
  - intros Hsafe Hshort.
    destruct (parse_parts _ _) as [keys|e] eqn:E; [by exists keys|].
    exfalso. destruct (Hraise e eq_refl) as (part & Hin & Hp).
    apply parse_part_raises in Hp as (_ & _ & Hd & Hbad).
    pose proof (string_forallb_split int_safe_char "+"%char key_string Hsafe)
      as Hparts.
    pose proof (length_split_parts "+"%char key_string) as Hlens.
    rewrite Forall_forall in Hparts, Hlens.
    specialize (Hparts part Hin). specialize (Hlens part Hin). simpl in Hlens.
    assert (Hsafe' : string_forallb int_safe_char (tail (lower (strip part)))
                     = true).
    { apply string_forallb_tail, string_forallb_lower.
      by apply string_forallb_rstrip, string_forallb_lstrip. }
    assert (Hlen : (String.length (tail (lower (strip part)))
                    ≤ String.length key_string)%nat).
    { pose proof (length_lower (strip part)) as H1.
      pose proof (length_rstrip (lstrip part)) as H2.
      pose proof (length_lstrip part) as H3. unfold strip in *.
      destruct (lower (rstrip (lstrip part))); simpl in *; lia. }
    unfold isdigit in Hd. apply andb_true_iff in Hd as [_ Hd].
    destruct Hbad as [Hbad|Hbad].
    + by rewrite (digits_are_decimal _ Hsafe' Hd) in Hbad.
    + lia.
Qed.

(** ** [key_to_string] *)

Lemma parse_part_word (int_max_str_digits : nat) (k : KeyIdentity) :
  k ∈ named_keys →
  parse_key_combination int_max_str_digits (key_to_string k) = Ok [k].
Proof.
  unfold named_keys. rewrite !list_elem_of_fmap.
  intros (name & -> & Hin). revert Hin.
  rewrite !elem_of_cons, elem_of_nil.
  intros H. repeat (destruct H as [->|H]; [by vm_compute|]). done.
Qed.

(** X21.  [key_to_string], which writes the keys in the log lines, is not the
    notation of the configuration file.  For a key string of code points
    below 256: what it writes for a named key parses to that key, but a
    letter key is written between quotes and parses to no key at all. *)
Theorem key_to_string_parsed (int_max_str_digits : nat) (k : KeyIdentity) :
  supported_key k →
  parse_key_combination int_max_str_digits (key_to_string k)
  = Ok (match k with Key _ => [k] | KeyCode _ => [] end).
Proof.
  intros [Hnamed|(c & Ha & Hl & ->)].
  - rewrite (parse_part_word _ _ Hnamed).
    unfold named_keys in Hnamed.
    by apply list_elem_of_fmap in Hnamed as (name & -> & _).
  - revert Ha Hl. clear.
    destruct c as [[] [] [] [] [] [] [] []]; intros Ha Hl;
      try discriminate Ha; try discriminate Hl; by vm_compute.
Qed.

(** * The application around the tracker *)

(** ** Set-up *)

Lemma add_combination_accepts (name : string) (keys : list KeyIdentity)
    (s : FastKeyTracker) :
  (add_combination name keys s).1 = true
  ↔ ¬ refused_key_set (list_to_set keys).
Proof.
  rewrite <- (add_combination_refuses name keys s).
  by destruct (add_combination name keys s).1.
Qed.

Lemma parse_key_combination_ValueError (int_max_str_digits : nat)
    (key_string : string) (e : exn) :
  parse_key_combination int_max_str_digits key_string = Raise e →
  e = ValueError.
Proof.
  unfold parse_key_combination. cbv zeta.
  intros (p & _ & Hp)%parse_parts_raises.
  by apply parse_part_raises in Hp as (-> & _).
Qed.

Lemma reset_combination_accepted (s : FastKeyTracker) :
  add_combination "reset" [Key "ctrl"; Key "alt"; KeyCode "r"] s
  = (true,
     set_combinations
       (dict_setitem "reset"
          (list_to_set [Key "ctrl"; Key "alt"; KeyCode "r"])
          (combinations s)) s).
Proof.
  destruct (add_combination_cases "reset"
              [Key "ctrl"; Key "alt"; KeyCode "r"] s) as [E|E]; [|done].
  exfalso.
  assert (H : (add_combination "reset"
                 [Key "ctrl"; Key "alt"; KeyCode "r"] s).1 = false)
    by by rewrite E.
  apply add_combination_refuses in H. revert H. clear.
  assert (H1 : Key "ctrl" ∈ (list_to_set
                  [Key "ctrl"; Key "alt"; KeyCode "r"] : gset KeyIdentity))
    by (apply elem_of_list_to_set; left).
  assert (H2 : Key "alt" ∈ (list_to_set
                  [Key "ctrl"; Key "alt"; KeyCode "r"] : gset KeyIdentity))
    by (apply elem_of_list_to_set; right; left).
  intros [H|(m & _ & H)]; rewrite H in H1, H2.
  - by apply not_elem_of_empty in H1.
  - apply elem_of_singleton in H1, H2. congruence.
Qed.

(** What [setup_key_combinations] comes to on a tracker with an empty
    table, when [self.stats] is not assigned yet. *)
Lemma setup_key_combinations_outcome (int_max_str_digits : nat)
    (quick_keys popup_keys : string) (tracker : FastKeyTracker) :
  combinations tracker = [] →
  match App.setup_key_combinations int_max_str_digits quick_keys popup_keys
          tracker None with
  | Ok (tracker', stats') =>
      stats' = None
      ∧ ∃ quick_combo popup_combo,
        parse_key_combination int_max_str_digits quick_keys = Ok quick_combo
        ∧ parse_key_combination int_max_str_digits popup_keys
          = Ok popup_combo
        ∧ ¬ refused_key_set (list_to_set quick_combo)
        ∧ ¬ refused_key_set (list_to_set popup_combo)
        ∧ tracker'
          = set_combinations
              [("quick"%string, list_to_set quick_combo);
               ("popup"%string, list_to_set popup_combo);
               ("reset"%string,
                list_to_set [Key "ctrl"; Key "alt"; KeyCode "r"])]
              tracker
  | Raise e =>
      (e = ValueError
       ∧ (parse_key_combination int_max_str_digits quick_keys
          = Raise ValueError
          ∨ parse_key_combination int_max_str_digits popup_keys
            = Raise ValueError))
      ∨ (e = AttributeError
         ∧ ∃ quick_combo popup_combo,
           parse_key_combination int_max_str_digits quick_keys
           = Ok quick_combo
           ∧ parse_key_combination int_max_str_digits popup_keys
             = Ok popup_combo
           ∧ (refused_key_set (list_to_set quick_combo)
              ∨ refused_key_set (list_to_set popup_combo)))
  end.
Proof.
  intros Hc. unfold App.setup_key_combinations.
  destruct (parse_key_combination _ quick_keys) as [quick_combo|e] eqn:Eq.
  2:{ left. rewrite (parse_key_combination_ValueError _ _ _ Eq) in *.
      split; [done|by left]. }
  destruct (parse_key_combination _ popup_keys) as [popup_combo|e] eqn:Ep.
  2:{ left. rewrite (parse_key_combination_ValueError _ _ _ Ep) in *.
      split; [done|by right]. }
  cbv zeta.
  pose proof (add_combination_refuses "quick" quick_combo tracker) as Hrq.
  pose proof (add_combination_accepts "quick" quick_combo tracker) as Haq.
  destruct (add_combination_cases "quick" quick_combo tracker) as [E1|E1];
    rewrite E1 in Hrq, Haq |- *; cbn [fst snd].
  { right. split; [done|]. exists quick_combo, popup_combo.
    split; [done|]. split; [done|]. left. by apply Hrq. }
  set (t1 := set_combinations _ tracker).
  pose proof (add_combination_refuses "popup" popup_combo t1) as Hrp.
  pose proof (add_combination_accepts "popup" popup_combo t1) as Hap.
  destruct (add_combination_cases "popup" popup_combo t1) as [E2|E2];
    rewrite E2 in Hrp, Hap |- *; cbn [fst snd].
  { right. split; [done|]. exists quick_combo, popup_combo.
    split; [done|]. split; [done|]. right. by apply Hrp. }
  rewrite reset_combination_accepted. cbn [fst snd].
  split; [done|]. exists quick_combo, popup_combo.
  split; [done|]. split; [done|].
  split; [by apply Haq|]. split; [by apply Hap|].
  unfold t1. clear -Hc. destruct tracker; simpl in *. subst. reflexivity.
Qed.

Lemma new_tracker_idle (cfg : Timing)
    (init_time current_time sweep_time reset_time : Q) :
  new_tracker cfg init_time current_time sweep_time reset_time
  = initial_fields cfg init_time.
Proof.
  unfold new_tracker. rewrite monitor_unfold.
  rewrite (cleanup_empty_store sweep_time (initial_fields cfg init_time))
    by done.
  rewrite bool_decide_eq_false_2 by (by intros H; apply H).
  by rewrite andb_false_r.
Qed.

(** The application a successful [__init__] returns. *)
Lemma init_fields (int_max_str_digits : nat) (loaded : result App.Config)
    (init_time current_time sweep_time reset_time : Q) (app : App.t) :
  App.__init__ int_max_str_digits loaded init_time current_time sweep_time
    reset_time = Ok app →
  ∃ config,
    loaded = Ok config
    ∧ idle (App.key_tracker app)
    ∧ stats (App.key_tracker app) = mkStats 0 0 0 0
    ∧ timing_of (App.key_tracker app) = App.timing config
    ∧ App.completion_cooldown app = App.cooldown config
    ∧ App.app_stats app = App.mkAppStats 0 0 0 0 0 0
    ∧ App.popup_active app = false
    ∧ App.last_completion_time app = 0%Q.
Proof.
  unfold App.__init__. destruct loaded as [config|e]; [|done]. cbv zeta.
  rewrite new_tracker_idle.
  pose proof (setup_key_combinations_outcome int_max_str_digits
                (App.quick_keys config) (App.popup_keys config)
                (initial_fields (App.timing config) init_time) eq_refl)
    as Hsetup.
  destruct (App.setup_key_combinations _ _ _ _ _) as [[tracker' stats']|e];
    [|done].
  destruct Hsetup as (_ & qc & pc & _ & _ & _ & _ & ->).
  intros Heq. simplify_eq. exists config. by destruct config as [[]].
Qed.

(** X16.  What constructing the application comes to.  When reading the
    configuration (lines 426-430) raises, that exception ends [__init__].
    Otherwise it succeeds exactly when both configured key strings parse
    and both are accepted by [add_combination]; the table is then quick,
    popup, reset in that order, reset being ctrl+alt+r, the tracker is idle
    with the configured timing, and the counters are zero.  A key string
    the parser fails on raises [ValueError].  A key string that parses to a
    refused combination (no key, or a lone ctrl, shift or alt) raises
    [AttributeError]: the invalid-combination counter is incremented
    before [self.stats] exists, so that counter is never anything but 0. *)
Theorem init_outcome (int_max_str_digits : nat) (loaded : result App.Config)
    (init_time current_time sweep_time reset_time : Q) :
  match App.__init__ int_max_str_digits loaded init_time current_time
          sweep_time reset_time with
  | Ok app =>
      ∃ config quick_combo popup_combo,
        loaded = Ok config
        ∧ parse_key_combination int_max_str_digits (App.quick_keys config)
          = Ok quick_combo
        ∧ parse_key_combination int_max_str_digits (App.popup_keys config)
          = Ok popup_combo
        ∧ ¬ refused_key_set (list_to_set quick_combo)
        ∧ ¬ refused_key_set (list_to_set popup_combo)
        ∧ combinations (App.key_tracker app)
          = [("quick"%string, list_to_set quick_combo);
             ("popup"%string, list_to_set popup_combo);
             ("reset"%string,
              list_to_set [Key "ctrl"; Key "alt"; KeyCode "r"])]
        ∧ idle (App.key_tracker app)
        ∧ timing_of (App.key_tracker app) = App.timing config
        ∧ App.completion_cooldown app = App.cooldown config
        ∧ App.app_stats app = App.mkAppStats 0 0 0 0 0 0
        ∧ App.popup_active app = false
        ∧ App.last_completion_time app = 0%Q
  | Raise e =>
      loaded = Raise e
      ∨ ∃ config,
          loaded = Ok config
          ∧ ((e = ValueError
              ∧ (parse_key_combination int_max_str_digits
                   (App.quick_keys config) = Raise ValueError
                 ∨ parse_key_combination int_max_str_digits
                     (App.popup_keys config) = Raise ValueError))
             ∨ (e = AttributeError
                ∧ ∃ quick_combo popup_combo,
                  parse_key_combination int_max_str_digits
                    (App.quick_keys config) = Ok quick_combo
                  ∧ parse_key_combination int_max_str_digits
                      (App.popup_keys config) = Ok popup_combo
                  ∧ (refused_key_set (list_to_set quick_combo)
                     ∨ refused_key_set (list_to_set popup_combo))))
  end.
Proof.
  unfold App.__init__. destruct loaded as [config|e]; [|by left].
  cbv zeta. rewrite new_tracker_idle.
  pose proof (setup_key_combinations_outcome int_max_str_digits
                (App.quick_keys config) (App.popup_keys config)
                (initial_fields (App.timing config) init_time) eq_refl)
    as Hsetup.
  destruct (App.setup_key_combinations _ _ _ _ _) as [[tracker' stats']|e].
  - destruct Hsetup as (_ & qc & pc & Hq & Hp & Haq & Hap & ->).
    exists config, qc, pc. unfold idle.
    destruct config as [[] ? ? ?]. split_and!; done.
  - right. exists config. split; [done|]. exact Hsetup.
Qed.

(** ** Keys while the popup is open *)

Lemma deliver_while_popup (ev : App.key_event) (app : App.t) :
  App.popup_active app = true → App.deliver ev app = (None, app).
Proof.
  intros Hp. destruct ev as [key t c ct rt|key t]; simpl.
  - unfold App.on_key_press. by rewrite Hp.
  - unfold App.on_key_release. by rewrite Hp.
Qed.

Lemma deliver_all_while_popup (events : list App.key_event) (app : App.t) :
  App.popup_active app = true → App.deliver_all events app = ([], app).
Proof.
  intros Hp. induction events as [|ev events IH]; [done|].
  simpl. rewrite (deliver_while_popup ev app Hp). simpl. by rewrite IH.
Qed.

(** One watchdog tick: it counts stuck keys and nothing else, and never
    more of them than keys were held. *)
Lemma monitor_counters (current_time sweep_time reset_time : Q)
    (s : FastKeyTracker) :
  let s' := monitor current_time sweep_time reset_time s in
  total_key_presses (stats s') = total_key_presses (stats s)
  ∧ combinations_detected (stats s') = combinations_detected (stats s)
  ∧ combinations_timeout (stats s') = combinations_timeout (stats s)
  ∧ (stuck_keys_cleaned (stats s) ≤ stuck_keys_cleaned (stats s'))%nat
  ∧ (stuck_keys_cleaned (stats s') + size (key_states s')
     ≤ stuck_keys_cleaned (stats s) + size (key_states s))%nat
  ∧ combinations s' = combinations s.
Proof.
  cbv zeta. rewrite monitor_stats, monitor_combinations.
  destruct (cleanup_other_counters sweep_time s) as (-> & -> & ->).
  rewrite cleanup_stuck_counter.
  pose proof (cleanup_size sweep_time s) as Hsize.
  repeat (split; [done || lia|]). split; [|done].
  destruct (monitor_cases current_time sweep_time reset_time s) as [->| ->].
  - lia.
  - destruct (force_reset_fields reset_time (cleanup_stuck_keys sweep_time s))
      as (-> & _).
    rewrite map_size_empty. lia.
Qed.




(** ** What a press starts *)

Lemma tracker_press_detected (key : KeyIdentity) (current_time sweep_time : Q)
    (s : FastKeyTracker) :
  let r := on_key_press key current_time sweep_time s in
  combinations_detected (stats r.2)
  = (combinations_detected (stats s)
     + match r.1 with Some _ => 1 | None => 0 end)%nat
  ∧ (is_Some r.1 → idle r.2).
Proof.
  cbv zeta. unfold on_key_press.
  pose proof (press_detected_counter key current_time sweep_time s) as Hd.
  destruct (check_combinations_cases
              (on_key_press_update key current_time sweep_time s))
    as [E|[name E]]; rewrite E; cbn [fst snd].
  - split; [rewrite Hd; lia|]. by intros [? ?].
  - split; [|intros _; by split].
    transitivity
      (S (combinations_detected
            (stats (on_key_press_update key current_time sweep_time s))));
      [reflexivity|rewrite Hd; lia].
Qed.

(** X18.  A press of the application starts a thread only when the popup
    is closed, the tracker reports a combination whose name is neither
    empty nor "reset", and the last completion is at least the cooldown
    back; the thread is the popup worker for "popup" and the quick worker
    for any other name, and the time of the last completion becomes the
    reading of this press.  Whenever the tracker reports a combination, the
    tracker inside the application is idle after the press, request started
    or not. *)
Theorem press_starts_worker (key : KeyIdentity)
    (current_time sweep_time completion_time reset_time : Q) (app : App.t)
    (w : App.worker) :
  let r := App.on_key_press key current_time sweep_time completion_time
             reset_time app in
  let tr := on_key_press key current_time sweep_time (App.key_tracker app) in
  (r.1 = Some w ↔
     App.popup_active app = false
     ∧ ∃ name, tr.1 = Some name
               ∧ name ≠ EmptyString ∧ name ≠ "reset"%string
               ∧ (App.completion_cooldown app
                  <= float_sub completion_time (App.last_completion_time app))%Q
               ∧ w = (if decide (name = "popup"%string)
                      then App._popup_worker else App._quick_worker))
  ∧ (r.1 = Some w → App.last_completion_time r.2 = completion_time)
  ∧ (App.popup_active app = false → is_Some tr.1 →
     idle (App.key_tracker r.2)).
Proof.
  cbv zeta. unfold App.on_key_press.
  destruct (App.popup_active app) eqn:Hp.
  { cbn [fst snd]. split; [|done]. split; [done|]. by intros [? _]. }
  cbv zeta.
  destruct (tracker_press_detected key current_time sweep_time
              (App.key_tracker app)) as [_ Hidle]. cbv zeta in Hidle.
  destruct (on_key_press key current_time sweep_time (App.key_tracker app))
    as [[name|] tracker']; cbn [fst snd] in *.
  2:{ split; [|split; [done|by intros _ [? ?]]].
      split; [done|]. by intros [_ (name & ? & _)]. }
  specialize (Hidle (ltac:(by eexists))).
  destruct (decide (name = EmptyString)) as [->|Hne].
  { cbn [fst snd]. split; [|done]. split; [done|].
    intros [_ (name & [= <-] & ? & _)]. done. }
  destruct (decide (name = "reset"%string)) as [->|Hnr].
  { cbn [fst snd]. split; [|split; [done|]].
    - split; [done|]. intros [_ (name & [= <-] & _ & ? & _)]. done.
    - intros _ _. unfold App.handle_emergency_reset. simpl.
      destruct (force_reset_fields reset_time tracker') as (? & ? & _).
      by split. }
  unfold App.handle_completion.
  destruct (Qltb _ _) eqn:Hcool; cbn [fst snd].
  - split; [|done]. split; [done|].
    intros [_ (name' & [= <-] & _ & _ & Hle & _)].
    unfold Qltb in Hcool. apply negb_true_iff in Hcool.
    apply Qle_bool_iff in Hle. simpl in Hcool, Hle. congruence.
  - split; [|split].
    + split.
      * intros [= <-]. split; [done|]. exists name.
        repeat (split; [done|]). split; [|done].
        unfold Qltb in Hcool. apply negb_false_iff in Hcool.
        by apply Qle_bool_iff in Hcool.
      * intros [_ (name' & [= <-] & _ & _ & _ & ->)]. done.
    + intros _. cbv zeta.
      destruct (decide (name = "quick"%string)); [done|].
      by destruct (decide (name = "popup"%string)).
    + intros _ _. cbv zeta.
      destruct (decide (name = "quick"%string)); [done|].
      by destruct (decide (name = "popup"%string)).
Qed.

(** X19.  When the tracker reports the combination named "reset" while the
    popup flag is down, the application starts no thread, counts one
    emergency reset and nothing else, leaves the popup flag down and the
    time of the last completion as it was, and the tracker is reset with
    [reset_time] as last activity. *)
Theorem reset_combination (key : KeyIdentity)
    (current_time sweep_time completion_time reset_time : Q) (app : App.t) :
  App.popup_active app = false →
  (on_key_press key current_time sweep_time (App.key_tracker app)).1
  = Some "reset"%string →
  let tr := on_key_press key current_time sweep_time (App.key_tracker app) in
  App.on_key_press key current_time sweep_time completion_time reset_time app
  = (None,
     App.mk (force_reset reset_time tr.2) (App.completion_cooldown app)
       (App.last_completion_time app) false
       (App.incr_key_resets (App.app_stats app))).
Proof.
  intros Hp Hres. cbv zeta. unfold App.on_key_press. rewrite Hp. cbv zeta.
  rewrite Hres. reflexivity.
Qed.

(** ** Requests and detections *)

Lemma app_press_accounted (key : KeyIdentity)
    (current_time sweep_time completion_time reset_time : Q) (app : App.t) :
  requests_accounted app →
  requests_accounted
    (App.on_key_press key current_time sweep_time completion_time reset_time
       app).2.
Proof.
  unfold requests_accounted, App.on_key_press. intros Hacc.
  destruct (App.popup_active app); [done|]. cbv zeta.
  destruct (tracker_press_detected key current_time sweep_time
              (App.key_tracker app)) as [Hd _]. cbv zeta in Hd.
  destruct (on_key_press key current_time sweep_time (App.key_tracker app))
    as [[name|] tracker']; cbn [fst snd] in *; [|simpl; lia].
  destruct (decide (name = EmptyString)); [simpl; lia|].
  destruct (decide (name = "reset"%string)).
  { unfold App.handle_emergency_reset. cbn -[force_reset].
    destruct (force_reset_fields reset_time tracker') as (_ & _ & _ & -> & _).
    lia. }
  unfold App.handle_completion.
  destruct (Qltb _ _); cbn [fst snd]; [simpl; lia|]. cbv zeta.
  destruct (decide (name = "quick"%string)); [simpl; lia|].
  destruct (decide (name = "popup"%string)); simpl; lia.
Qed.

Lemma app_run_accounted (op : app_operation) (app : App.t) :
  requests_accounted app → requests_accounted (app_run op app).
Proof.
  intros Hacc. destruct op as [[key t c ct rt|key t]|t c r|options|sel ok r];
    cbn [app_run App.deliver snd].
  - by apply app_press_accounted.
  - unfold requests_accounted, App.on_key_release in *.
    destruct (negb _); [|done]. cbn -[on_key_release].
    assert (Hd : stats (on_key_release key t (App.key_tracker app)).2
                 = stats (App.key_tracker app)).
    { destruct (key_states (App.key_tracker app) !! key) as [pt|] eqn:Hk.
      - by destruct (on_key_release_held key t (App.key_tracker app))
          as (_ & _ & _ & ->); [by exists pt|].
      - unfold on_key_release. by rewrite Hk. }
    by rewrite Hd.
  - unfold requests_accounted in *. cbn -[monitor].
    by destruct (monitor_counters t c r (App.key_tracker app))
      as (_ & -> & _).
  - unfold App.show_popup_options. by destruct options.
  - unfold requests_accounted, App.on_selection in *. cbv zeta.
    assert (E : ∀ tracker,
              combinations_detected (stats (force_reset r tracker))
              = combinations_detected (stats tracker)).
    { intros tracker.
      by destruct (force_reset_fields r tracker) as (_ & _ & _ & -> & _). }
    destruct sel as [text|]; [|cbn -[force_reset]; rewrite E; lia].
    destruct (decide (text = EmptyString));
      [cbn -[force_reset]; rewrite E; lia|].
    destruct ok; cbn -[force_reset]; rewrite E; lia.
Qed.

(** X20.  In every run of the application, key events, watchdog ticks,
    popups and selections in any order, the quick requests, popup requests
    and emergency resets it has counted never add up to more than the
    combinations its tracker has detected. *)
Theorem requests_never_exceed_detections (int_max_str_digits : nat)
    (loaded : result App.Config)
    (init_time current_time sweep_time reset_time : Q)
    (app : App.t) (ops : list app_operation) :
  App.__init__ int_max_str_digits loaded init_time current_time sweep_time
    reset_time = Ok app →
  requests_accounted (app_run_all ops app).
Proof.
  intros Hinit.
  assert (H0 : requests_accounted app).
  { destruct (init_fields _ _ _ _ _ _ _ Hinit)
      as (config & _ & _ & _ & _ & _ & Hs & _).
    unfold requests_accounted. rewrite Hs. simpl. lia. }
  clear Hinit. revert app H0. unfold app_run_all.
  induction ops as [|op ops IH]; intros app H0; [done|].
  simpl. apply IH. by apply app_run_accounted.
Qed.

(** * Completions and the popup *)

(** ** The scan of [re.sub] *)

Lemma sub_from_skip (match_at : string → option nat) (repl : string)
    (skip : nat) (s : string) :
  sub_from match_at repl skip s = sub match_at repl (drop_chars skip s).
Proof.
  revert skip; induction s as [|c s IH]; intros [|k]; try reflexivity.
  cbn [sub_from drop_chars]. apply IH.
Qed.

Lemma sub_cons (match_at : string → option nat) (repl : string)
    (c : Ascii.ascii) (s : string) :
  sub match_at repl (String c s)
  = match match_at (String c s) with
    | Some (S k) => (repl ++ sub match_at repl (drop_chars k s))%string
    | _ => String c (sub match_at repl s)
    end.
Proof.
  unfold sub at 1; cbn [sub_from].
  destruct (match_at (String c s)) as [[|k]|]; try reflexivity.
  by rewrite sub_from_skip.
Qed.

Lemma sub_no_match (match_at : string → option nat) (repl s : string)
    (p : Ascii.ascii → bool) :
  (∀ c s', p c = true → match_at (String c s') = None) →
  string_forallb p s = true →
  sub match_at repl s = s.
Proof.
  intros Hnone. induction s as [|c s IH]; [done|].
  cbn [string_forallb]. intros [Hc Hs]%andb_true_iff.
  rewrite sub_cons, (Hnone _ _ Hc). by rewrite IH.
Qed.

Lemma sub_run_squeeze (p : Ascii.ascii → bool) (s : string) :
  squeeze p false s = sub (run_at p) " " s
  ∧ squeeze p true s = sub (run_at p) " " (drop_chars (run_length p s) s).
Proof.
  induction s as [|c s [IH1 IH2]]; [done|].
  rewrite sub_cons. unfold run_at. cbn [squeeze run_length].
  destruct (p c) eqn:Hc; cbn [drop_chars].
  - by rewrite IH2.
  - rewrite sub_cons. unfold run_at. cbn [run_length]. rewrite Hc.
    by rewrite IH1.
Qed.

Lemma squeeze_squeeze (p q : Ascii.ascii → bool) (s : string) :
  (∀ c, p c = true → q c = true) → q " "%char = true →
  (∀ b, squeeze q b (squeeze p false s) = squeeze q b s)
  ∧ squeeze q true (squeeze p true s) = squeeze q true s.
Proof.
  intros Hpq Hq. induction s as [|c s [IH1 IH2]]; [done|].
  cbn [squeeze]. destruct (p c) eqn:Hc.
  - rewrite (Hpq _ Hc). split; [|done].
    intros b. cbn [squeeze]. rewrite Hq, IH2. done.
  - cbn [squeeze]. rewrite !IH1. split; [intros b|]; by destruct (q c).
Qed.

(** ** [strip] *)

Lemma lstrip_run (s : string) :
  drop_chars (run_length isspace_char s) s = lstrip s.
Proof.
  induction s as [|c s IH]; [done|].
  cbn [run_length lstrip]. destruct (isspace_char c); [exact IH|done].
Qed.

Lemma lstrip_no_space (s : string) :
  match lstrip s with
  | String c _ => isspace_char c = false
  | EmptyString => True
  end.
Proof.
  induction s as [|c s IH]; [done|].
  cbn [lstrip]. by destruct (isspace_char c) eqn:Hc.
Qed.

Lemma lstrip_fixed (s : string) :
  match s with
  | String c _ => isspace_char c = false
  | EmptyString => True
  end → lstrip s = s.
Proof. destruct s as [|c s]; [done|]. cbn [lstrip]. by intros ->. Qed.

Lemma rstrip_cons (c : Ascii.ascii) (s : string) :
  isspace_char c = false → rstrip (String c s) = String c (rstrip s).
Proof.
  intros Hc. cbn [rstrip]. destruct (rstrip s); [|done]. by rewrite Hc.
Qed.

Lemma rstrip_unfold (c : Ascii.ascii) (s : string) :
  rstrip (String c s)
  = match rstrip s with
    | EmptyString =>
        if isspace_char c then EmptyString else String c EmptyString
    | String c' s' => String c (String c' s')
    end.
Proof. reflexivity. Qed.

Lemma rstrip_idem (s : string) : rstrip (rstrip s) = rstrip s.
Proof.
  induction s as [|c s IH]; [done|].
  rewrite rstrip_unfold. destruct (rstrip s) as [|c' s'] eqn:Hs.
  - destruct (isspace_char c) eqn:Hc; [done|].
    rewrite rstrip_unfold. cbn [rstrip]. by rewrite Hc.
  - rewrite rstrip_unfold, IH. done.
Qed.

Lemma strip_idem (s : string) : strip (strip s) = strip s.
Proof.
  unfold strip. pose proof (lstrip_no_space s) as Hl.
  destruct (lstrip s) as [|c s'] eqn:Hs; [done|].
  rewrite (rstrip_cons _ _ Hl). cbn [lstrip]. rewrite Hl.
  rewrite <- (rstrip_cons _ _ Hl). apply rstrip_idem.
Qed.

Lemma strip_space (s : string) : strip (String " "%char s) = strip s.
Proof. reflexivity. Qed.

Lemma strip_fixed_length (s : string) :
  strip s = s → String.length (strip s) = String.length s.
Proof. by intros ->. Qed.

(** ** [clean_completion_minimal] *)

Lemma single_spaced_squeeze (s : string) :
  single_spaced false (squeeze isspace_char false s) = true
  ∧ single_spaced true (squeeze isspace_char true s) = true.
Proof.
  induction s as [|c s [IH1 IH2]]; [done|].
  cbn [squeeze]. destruct (isspace_char c) eqn:Hc.
  - split; [|done]. cbn [single_spaced]. by rewrite IH2.
  - cbn [single_spaced]. by rewrite Hc.
Qed.

Lemma single_spaced_weaken (s : string) :
  single_spaced true s = true → single_spaced false s = true.
Proof.
  destruct s as [|c s]; [done|]. cbn [single_spaced].
  destruct (isspace_char c); [|done].
  by rewrite andb_false_r.
Qed.

Lemma single_spaced_lstrip (b : bool) (s : string) :
  single_spaced b s = true → single_spaced true (lstrip s) = true.
Proof.
  revert b; induction s as [|c s IH]; intros b; [done|].
  cbn [single_spaced lstrip]. destruct (isspace_char c) eqn:Hc.
  - intros [_ Hs]%andb_true_iff. by apply (IH true).
  - cbn [single_spaced]. by rewrite Hc.
Qed.

Lemma single_spaced_rstrip (b : bool) (s : string) :
  single_spaced b s = true → single_spaced b (rstrip s) = true.
Proof.
  revert b; induction s as [|c s IH]; intros b; [done|].
  rewrite rstrip_unfold. cbn [single_spaced].
  destruct (rstrip s) as [|c' s'] eqn:Hs.
  - destruct (isspace_char c) eqn:Hc; [done|].
    cbn [single_spaced]. by rewrite Hc.
  - cbn [single_spaced]. destruct (isspace_char c) eqn:Hc.
    + intros [Hb Hs']%andb_true_iff. rewrite Hb. by apply (IH true).
    + apply (IH false).
Qed.

Lemma single_spaced_strip (b : bool) (s : string) :
  single_spaced b s = true → single_spaced true (strip s) = true.
Proof.
  intros Hs. apply single_spaced_rstrip.
  by apply (single_spaced_lstrip b).
Qed.

Lemma append_cons (a : Ascii.ascii) (s1 s2 : string) :
  (String a s1 ++ s2 = String a (s1 ++ s2))%string.
Proof. reflexivity. Qed.

Lemma single_spaced_app (b : bool) (s1 s2 : string) (c : Ascii.ascii) :
  single_spaced b (s1 ++ String c s2) = true → isspace_char c = true →
  c = " "%char
  ∧ ∀ c' s3, s2 = String c' s3 → isspace_char c' = false.
Proof.
  revert b; induction s1 as [|a s1 IH]; intros b.
  - change (single_spaced b (String c s2) = true → isspace_char c = true →
            c = " "%char
            ∧ ∀ c' s3, s2 = String c' s3 → isspace_char c' = false).
    cbn [single_spaced]. intros Hs Hc. rewrite Hc in Hs.
    apply andb_true_iff in Hs as [[Heq _]%andb_true_iff Hs].
    split; [by apply bool_decide_eq_true in Heq|].
    intros c' s3 ->. cbn [single_spaced] in Hs.
    destruct (isspace_char c'); [|done].
    by rewrite andb_false_r in Hs.
  - rewrite append_cons. cbn [single_spaced]. destruct (isspace_char a).
    + intros [_ Hs]%andb_true_iff. by apply (IH true).
    + apply (IH false).
Qed.

Lemma single_spaced_fixed (s : string) :
  (single_spaced false s = true → squeeze isspace_char false s = s)
  ∧ (single_spaced true s = true → ∀ b, squeeze isspace_char b s = s).
Proof.
  induction s as [|c s [IH1 IH2]]; [done|].
  cbn [single_spaced squeeze]. destruct (isspace_char c) eqn:Hc.
  - rewrite andb_false_r. split; [|done].
    intros [[Heq _]%andb_true_iff Hs]%andb_true_iff.
    apply bool_decide_eq_true in Heq as ->. by rewrite IH2.
  - split; [intros Hs|intros Hs b]; by rewrite IH1.
Qed.

Lemma count_0_forallb (c : Ascii.ascii) (s : string) :
  count c s = 0 →
  string_forallb (λ c', negb (bool_decide (c' = c))) s = true.
Proof.
  induction s as [|c' s IH]; [done|].
  cbn [count string_forallb]. destruct (decide (c' = c)) as [->|Hne].
  - done.
  - intros Hs. rewrite (bool_decide_eq_false_2 _ Hne). by apply IH.
Qed.

Lemma command_at_backslash (c : Ascii.ascii) (s : string) :
  negb (bool_decide (c = "\"%char)) = true → command_at (String c s) = None.
Proof.
  intros Hc%negb_true_iff%bool_decide_eq_false. unfold command_at.
  destruct c as [[] [] [] [] [] [] [] []]; done.
Qed.

Lemma fence_at_backquote (c : Ascii.ascii) (s : string) :
  negb (bool_decide (c = "`"%char)) = true → fence_at (String c s) = None.
Proof.
  intros Hc%negb_true_iff%bool_decide_eq_false. unfold fence_at.
  destruct c as [[] [] [] [] [] [] [] []]; done.
Qed.

Lemma newline_isspace (c : Ascii.ascii) :
  bool_decide (c = newline) = true → isspace_char c = true.
Proof. by intros ->%bool_decide_eq_true. Qed.

(** X22.  For a text of code points below 256:
    [clean_completion_minimal] returns what stripping and the substitutions
    of the three patterns of lines 719, 720 and 722 give.  The substitution
    of the runs of newlines (line 721) and the space put in front (lines
    723-724) never change the result. *)
Theorem clean_completion_minimal_steps (text : string) :
  clean_completion_minimal text
  = strip (sub (run_at isspace_char) " "
             (sub fence_at "" (sub command_at "" text))).
Proof.
  unfold clean_completion_minimal.
  destruct (decide (text = EmptyString)) as [->|_]; [done|].
  set (text2 := sub fence_at "" (sub command_at "" text)).
  assert (sub (run_at isspace_char) " "
            (sub (run_at (λ c, bool_decide (c = newline))) " " text2)
          = sub (run_at isspace_char) " " text2) as ->.
  { rewrite <- !(proj1 (sub_run_squeeze _ _)).
    by apply squeeze_squeeze; [apply newline_isspace|]. }
  destruct (_ && _); [apply strip_space|done].
Qed.

Lemma clean_completion_minimal_single_spaced (text : string) :
  single_spaced true (clean_completion_minimal text) = true.
Proof.
  rewrite clean_completion_minimal_steps.
  rewrite <- (proj1 (sub_run_squeeze _ _)).
  apply (single_spaced_strip false), single_spaced_squeeze.
Qed.

Lemma clean_completion_minimal_stripped (text : string) :
  strip (clean_completion_minimal text) = clean_completion_minimal text.
Proof. rewrite clean_completion_minimal_steps. apply strip_idem. Qed.

(** X23.  For a text of code points below 256: the text
    [clean_completion_minimal] returns has no white space at its ends, and
    the white space inside it is single spaces: every white-space character
    is a space, and the character behind it is not white space. *)
Theorem clean_completion_minimal_spacing (text : string) :
  let cleaned := clean_completion_minimal text in
  strip cleaned = cleaned
  ∧ ∀ (s1 s2 : string) (c : Ascii.ascii),
      cleaned = (s1 ++ String c s2)%string → isspace_char c = true →
      c = " "%char
      ∧ ∀ c' s3, s2 = String c' s3 → isspace_char c' = false.
Proof.
  split; [apply clean_completion_minimal_stripped|].
  intros s1 s2 c Heq. apply (single_spaced_app true s1).
  rewrite <- Heq. apply clean_completion_minimal_single_spaced.
Qed.

(** X24.  A text of code points below 256 with no backslash and no
    backquote only has its white space changed by
    [clean_completion_minimal]; if its white space is single spaces already
    and there is none at its ends, the text is returned as it is. *)
Theorem clean_completion_minimal_plain (text : string) :
  count "\"%char text = 0 → count "`"%char text = 0 →
  clean_completion_minimal text
  = strip (sub (run_at isspace_char) " " text)
  ∧ (single_spaced false text = true → strip text = text →
     clean_completion_minimal text = text).
Proof.
  intros Hcommand Hfence.
  assert (clean_completion_minimal text
          = strip (sub (run_at isspace_char) " " text)) as Heq.
  { rewrite clean_completion_minimal_steps.
    rewrite (sub_no_match command_at "" text _ command_at_backslash)
      by by apply count_0_forallb.
    rewrite (sub_no_match fence_at "" text _ fence_at_backquote)
      by by apply count_0_forallb.
    done. }
  split; [done|]. intros Hs Hstrip. rewrite Heq.
  rewrite <- (proj1 (sub_run_squeeze _ _)).
  by rewrite (proj1 (single_spaced_fixed text) Hs).
Qed.

(** ** [generate_multiple_options] *)

Lemma call_ollama_unified_Some (r : reply) (o : string) :
  call_ollama_unified r = Some o
  ↔ ∃ response,
      r = Status 200 response
      ∧ o = clean_completion_minimal (strip response).
Proof.
  destruct r as [|status_code response]; cbn [call_ollama_unified].
  - split; [done|]. by intros (? & ? & _).
  - destruct (decide (status_code = 200%Z)) as [->|Hne]; split.
    + intros Heq. simplify_eq. by eexists.
    + intros (? & Heq & ->). by simplify_eq.
    + done.
    + intros (? & Heq & _). by simplify_eq.
Qed.

Lemma add_option_spec (completion : option string) (options : list string) :
  (NoDup options → NoDup (add_option completion options))
  ∧ length (add_option completion options) ≤ S (length options)
  ∧ ∀ o, o ∈ add_option completion options
         ↔ o ∈ options
           ∨ (completion = Some o ∧ 10 < String.length (strip o)).
Proof.
  unfold add_option. destruct completion as [text|].
  2: { split; [done|]. split; [lia|]. intros o. split; [by left|].
       by intros [?|[? _]]. }
  destruct (bool_decide (text = EmptyString)) eqn:Hempty; cbn [negb andb].
  { apply bool_decide_eq_true in Hempty as ->.
    split; [done|]. split; [lia|]. intros o. split; [by left|].
    intros [?|[Heq Hlen]]; [done|]. simplify_eq. cbn in Hlen. lia. }
  destruct (10 <? String.length (strip text)) eqn:Hlen.
  2: { apply Nat.ltb_ge in Hlen.
       split; [done|]. split; [lia|]. intros o. split; [by left|].
       intros [?|[Heq ?]]; [done|]. simplify_eq. lia. }
  apply Nat.ltb_lt in Hlen.
  destruct (decide (text ∈ options)) as [Hin|Hnin].
  { split; [done|]. split; [lia|]. intros o. split; [by left|].
    intros [?|[Heq ?]]; [done|]. by simplify_eq. }
  split; [|split].
  - intros Hnd. apply NoDup_app. split; [done|]. split.
    + intros o Ho ->%list_elem_of_singleton. done.
    + apply NoDup_singleton.
  - rewrite length_app. cbn. lia.
  - intros o. rewrite elem_of_app, list_elem_of_singleton. split.
    + intros [?| ->]; [by left|by right].
    + intros [?|[Heq _]]; [by left|]. right. by simplify_eq.
Qed.

Lemma generate_from (post : nat → Q → reply) (indices : list nat)
    (options : list string) :
  let result :=
    foldl (λ options i,
             add_option (call_ollama_unified (post i (temperature i)))
               options)
      options indices in
  (NoDup options → NoDup result)
  ∧ length result ≤ length options + length indices
  ∧ ∀ o, o ∈ result
         ↔ o ∈ options
           ∨ ∃ i, i ∈ indices
                  ∧ call_ollama_unified (post i (temperature i)) = Some o
                  ∧ 10 < String.length (strip o).
Proof.
  revert options; induction indices as [|i indices IH]; intros options.
  - cbn. split; [done|]. split; [lia|]. intros o. split; [by left|].
    intros [?|(i & Hi & _)]; [done|]. by apply elem_of_nil in Hi.
  - cbn [foldl].
    pose proof (add_option_spec
                  (call_ollama_unified (post i (temperature i))) options)
      as (Hnd1 & Hlen1 & Hin1).
    specialize (IH (add_option
                      (call_ollama_unified (post i (temperature i)))
                      options)) as (Hnd & Hlen & Hin).
    split; [auto|]. split; [cbn [length]; lia|].
    intros o. rewrite Hin, Hin1. split.
    + intros [[?|[? ?]]|(j & Hj & ?)]; [by left| |].
      * right. exists i. split; [apply list_elem_of_here|done].
      * right. exists j. split; [by apply list_elem_of_further|done].
    + intros [?|(j & Hj & Hcall & Hlong)]; [by left; left|].
      apply elem_of_cons in Hj as [->|Hj].
      * left; right. done.
      * right. by exists j.
Qed.

(** X25.  The options of [generate_multiple_options] are the cleaned
    replies of status 200 among the [count] calls that are longer than ten
    characters, each of them once: the list has no duplicates and at most
    [count] entries. *)
Theorem generate_multiple_options_spec (post : nat → Q → reply)
    (count : Z) :
  let options := generate_multiple_options post count in
  NoDup options
  ∧ length options ≤ Z.to_nat count
  ∧ ∀ o, o ∈ options
         ↔ ∃ (i : nat) (response : string),
             (Z.of_nat i < count)%Z
             ∧ post i (temperature i) = Status 200 response
             ∧ o = clean_completion_minimal (strip response)
             ∧ 10 < String.length o.
Proof.
  pose proof (generate_from post (seq 0 (Z.to_nat count)) [])
    as (Hnd & Hlen & Hin).
  split; [apply Hnd, NoDup_nil_2|].
  split; [by rewrite length_seq in Hlen|].
  intros o. unfold generate_multiple_options. rewrite Hin. split.
  - intros [Ho|(i & Hi & Hcall & Hlong)]; [by apply elem_of_nil in Ho|].
    apply call_ollama_unified_Some in Hcall as (response & Hpost & ->).
    rewrite clean_completion_minimal_stripped in Hlong.
    exists i, response. apply elem_of_seq in Hi.
    split; [lia|done].
  - intros (i & response & Hi & Hpost & -> & Hlong). right. exists i.
    split; [apply elem_of_seq; lia|]. split.
    + apply call_ollama_unified_Some. by exists response.
    + by rewrite clean_completion_minimal_stripped.
Qed.

(** X26.  When [show_popup_options] comes back from
    [generate_multiple_options], [popup_active] is set exactly if one of
    the [count] replies has status 200 and a cleaned text longer than ten
    characters; otherwise no popup comes up and the flag is down again.
    Tracker and counters are not touched. *)
Theorem popup_needs_option (post : nat → Q → reply) (count : Z)
    (app : App.t) :
  let app' :=
    App.show_popup_options (generate_multiple_options post count) app in
  (App.popup_active app' = true
   ↔ ∃ (i : nat) (response : string),
       (Z.of_nat i < count)%Z
       ∧ post i (temperature i) = Status 200 response
       ∧ 10 < String.length (clean_completion_minimal (strip response)))
  ∧ App.key_tracker app' = App.key_tracker app
  ∧ App.app_stats app' = App.app_stats app.
Proof.
  pose proof (generate_multiple_options_spec post count) as (_ & _ & Hin).
  unfold App.show_popup_options.
  destruct (generate_multiple_options post count) as [|o options].
  - split; [|done]. split; [done|].
    intros (i & response & Hi & Hpost & Hlong).
    assert (clean_completion_minimal (strip response) ∈ @nil string) as Ho.
    { apply Hin. by exists i, response. }
    by apply elem_of_nil in Ho.
  - split; [|done]. split; [intros _|done].
    destruct (proj1 (Hin o)) as (i & response & Hi & Hpost & -> & Hlong).
    { apply list_elem_of_here. }
    by exists i, response.
Qed.

(** ** The popup *)

Lemma length_append (s1 s2 : string) :
  String.length (s1 ++ s2) = String.length s1 + String.length s2.
Proof.
  induction s1 as [|c s1 IH]; [done|].
  rewrite append_cons. cbn [String.length]. by rewrite IH.
Qed.

Lemma length_take_chars (n : nat) (s : string) :
  String.length (take_chars n s) ≤ n.
Proof.
  revert s; induction n as [|n IH]; intros [|c s]; cbn; try lia.
  specialize (IH s). lia.
Qed.

Lemma length_drop_chars (n : nat) (s : string) :
  String.length (drop_chars n s) ≤ String.length s.
Proof.
  revert s; induction n as [|n IH]; intros [|c s]; cbn; try lia.
  specialize (IH s). lia.
Qed.

Lemma length_remove_numbering (s : string) :
  String.length (remove_numbering s) ≤ String.length s.
Proof.
  unfold remove_numbering. destruct (numbering_at s); [|done].
  apply length_drop_chars.
Qed.

Lemma button_text_first (max_preview : Z) (option : string) :
  button_text true max_preview 0 option
  = String "["%char
      (String "1"%char
         (String "]"%char
            (String " "%char (preview_text max_preview option)))).
Proof. reflexivity. Qed.

Lemma select_by_digit_first (option : string) (options : list string) :
  CompletionPopup.select_by_digit 1 (option :: options) = Some option.
Proof.
  unfold CompletionPopup.select_by_digit.
  assert ((1 <? Nat.min 10 (length (option :: options) + 1)) = true)
    as ->.
  { apply Nat.ltb_lt. cbn [length]. lia. }
  done.
Qed.

(** X27.  With the options numbered, Enter passes the text of the first
    button without the number and without the white space at its start to
    the callback: the preview of the first option, not the option. *)
Theorem select_first_option_numbered (max_preview : Z) (option : string)
    (options : list string) :
  CompletionPopup.select_first_option true max_preview (option :: options)
  = Some (lstrip (preview_text max_preview option)).
Proof.
  unfold CompletionPopup.select_first_option.
  rewrite button_text_first.
  generalize (preview_text max_preview option) as preview; intros preview.
  cbn [startswith]. rewrite bool_decide_eq_true_2 by done.
  unfold remove_numbering.
  change (numbering_at
            (String "["%char
               (String "1"%char
                  (String "]"%char (String " "%char preview)))))
    with (Some (4 + run_length isspace_char preview)).
  cbn [drop_chars Nat.add]. by rewrite lstrip_run.
Qed.

Lemma length_select_first_option (show_numbers : bool) (max_preview : Z)
    (option : string) (options : list string) :
  ∃ text,
    CompletionPopup.select_first_option show_numbers max_preview
      (option :: options) = Some text
    ∧ String.length text
      ≤ String.length (preview_text max_preview option).
Proof.
  destruct show_numbers.
  - rewrite select_first_option_numbered. eexists. split; [done|].
    apply length_lstrip.
  - unfold CompletionPopup.select_first_option, button_text.
    eexists. split; [done|].
    destruct (startswith _ _); [apply length_remove_numbering|done].
Qed.

(** X28.  An option longer than [max_preview + 3] characters cannot be
    chosen with Enter: what Enter passes to the callback has at most
    [max_preview + 3] characters, while the key 1 passes the option. *)
Theorem enter_truncates_long_option (show_numbers : bool) (max_preview : Z)
    (option : string) (options : list string) :
  (0 ≤ max_preview)%Z →
  (max_preview + 3 < Z.of_nat (String.length option))%Z →
  (∃ text,
     CompletionPopup.select_first_option show_numbers max_preview
       (option :: options) = Some text
     ∧ (Z.of_nat (String.length text) ≤ max_preview + 3)%Z
     ∧ text ≠ option)
  ∧ CompletionPopup.select_by_digit 1 (option :: options) = Some option.
Proof.
  intros Hmax Hlong. split; [|apply select_by_digit_first].
  destruct (length_select_first_option show_numbers max_preview option
              options) as (text & Heq & Hlen).
  exists text. split; [done|].
  assert (Z.of_nat (String.length text) ≤ max_preview + 3)%Z as Hshort.
  { unfold preview_text in Hlen.
    rewrite (proj2 (Z.ltb_lt _ _)) in Hlen by lia.
    rewrite length_append in Hlen. unfold slice_to in Hlen.
    rewrite (proj2 (Z.ltb_ge _ _)) in Hlen by lia.
    pose proof (length_take_chars
                  (Z.to_nat
                     (Z.min max_preview (Z.of_nat (String.length option))))
                  option) as Htake.
    cbn [String.length] in Hlen. lia. }
  split; [done|]. intros ->. lia.
Qed.

(** X29.  For the options of [generate_multiple_options], Enter and the
    key 1 choose the same text when the first option has at most
    [max_preview] characters and the options are numbered. *)
Theorem enter_selects_short_option (post : nat → Q → reply) (count : Z)
    (max_preview : Z) (option : string) (options : list string) :
  generate_multiple_options post count = option :: options →
  (Z.of_nat (String.length option) ≤ max_preview)%Z →
  CompletionPopup.select_first_option true max_preview (option :: options)
  = Some option
  ∧ CompletionPopup.select_by_digit 1 (option :: options) = Some option.
Proof.
  intros Hgen Hshort. split; [|apply select_by_digit_first].
  rewrite select_first_option_numbered. f_equal.
  unfold preview_text. rewrite (proj2 (Z.ltb_ge _ _)) by lia.
  pose proof (generate_multiple_options_spec post count) as (_ & _ & Hin).
  destruct (proj1 (Hin option)) as (i & response & _ & _ & -> & _).
  { rewrite Hgen. apply list_elem_of_here. }
  pose proof (clean_completion_minimal_single_spaced (strip response)) as Hs.
  destruct (clean_completion_minimal (strip response)) as [|c s]; [done|].
  cbn [single_spaced] in Hs. cbn [lstrip].
  destruct (isspace_char c); [|done].
  by rewrite andb_false_r in Hs.
Qed.

(** * The parser and the application at concrete inputs *)

(** Capitals and blanks, a function key that does not exist, a number
    with a leading zero. *)
Lemma parse_key_combination_keys_witness :
  parse_key_combination 4300 " Shift + F13 + f01 "
  = Ok [Key "shift"; Key "f1"]
  ∧ Forall supported_key [Key "shift"; Key "f1"].
Proof.
  assert (H : parse_key_combination 4300 " Shift + F13 + f01 "
              = Ok [Key "shift"; Key "f1"]) by (vm_compute; reflexivity).
  split; [exact H|].
  exact (proj1 (parse_key_combination_keys 4300 " Shift + F13 + f01 " _ H)).
Defined.

(** ctrl, f12 and the letter r. *)
Lemma parse_key_combination_round_trip_witness :
  Forall supported_key [Key "ctrl"; Key "f12"; KeyCode "r"]
  ∧ parse_key_combination 4300 "ctrl+f12+r"
    = Ok [Key "ctrl"; Key "f12"; KeyCode "r"].
Proof.
  assert (H : Forall supported_key [Key "ctrl"; Key "f12"; KeyCode "r"]).
  { apply Forall_cons_2; [left; vm_compute; in_list|].
    apply Forall_cons_2; [left; vm_compute; in_list|].
    apply Forall_cons_2; [|apply Forall_nil_2].
    right. exists "r"%char. by vm_compute. }
  split; [exact H|].
  exact (parse_key_combination_round_trip 4300 _ H).
Defined.

(** The letter r, as the log lines write it. *)
Lemma key_to_string_parsed_witness :
  supported_key (KeyCode "r")
  ∧ parse_key_combination 4300 "'r'" = Ok [].
Proof.
  assert (H : supported_key (KeyCode "r")).
  { right. exists "r"%char. by vm_compute. }
  split; [exact H|].
  exact (key_to_string_parsed 4300 (KeyCode "r") H).
Defined.


(** ctrl and alt are held and r is pressed. *)
Lemma reset_combination_witness :
  App.popup_active reset_ready = false
  ∧ (on_key_press (KeyCode "r") (401 # 4) (401 # 4)
       (App.key_tracker reset_ready)).1 = Some "reset"%string
  ∧ (App.on_key_press (KeyCode "r") (401 # 4) (401 # 4) (401 # 4)
       (401 # 4) reset_ready).1 = None.
Proof.
  assert (H1 : App.popup_active reset_ready = false)
    by (vm_compute; reflexivity).
  assert (H2 : (on_key_press (KeyCode "r") (401 # 4) (401 # 4)
                  (App.key_tracker reset_ready)).1 = Some "reset"%string)
    by (vm_compute; reflexivity).
  split; [exact H1|]. split; [exact H2|].
  rewrite (reset_combination (KeyCode "r") (401 # 4) (401 # 4)
             (401 # 4) (401 # 4) reset_ready H1 H2).
  reflexivity.
Defined.

(** The default application after ctrl then space. *)
Lemma requests_never_exceed_detections_witness :
  App.__init__ 4300 (Ok default_config) 100 100 100 100 = Ok default_app
  ∧ requests_accounted
      (app_run_all
         [Event (App.KeyDown (Key "ctrl") 100 100 100 100);
          Watchdog (401 # 4) (401 # 4) (401 # 4);
          Event (App.KeyDown (Key "space") (803 # 8) (803 # 8) (803 # 8)
                   (803 # 8))]
         default_app).
Proof.
  assert (H : App.__init__ 4300 (Ok default_config) 100 100 100 100
              = Ok default_app)
    by (vm_compute; reflexivity).
  split; [exact H|].
  exact (requests_never_exceed_detections 4300 (Ok default_config)
           100 100 100 100 default_app _ H).
Defined.

(** * Completions and the popup at concrete inputs *)

(** A completion that is tidy already. *)
Lemma clean_completion_minimal_plain_witness :
  count "\"%char "return a + b" = 0
  ∧ count "`"%char "return a + b" = 0
  ∧ clean_completion_minimal "return a + b" = "return a + b"%string.
Proof.
  split; [reflexivity|]. split; [reflexivity|].
  exact (proj2 (clean_completion_minimal_plain "return a + b"
                  eq_refl eq_refl) eq_refl eq_refl).
Defined.

(** An option of twelve characters with a preview of five. *)
Lemma enter_truncates_long_option_witness :
  (0 ≤ 5)%Z
  ∧ (5 + 3 < Z.of_nat (String.length "hello world!"))%Z
  ∧ ∃ text,
      CompletionPopup.select_first_option true 5 ["hello world!"%string]
      = Some text
      ∧ (Z.of_nat (String.length text) ≤ 5 + 3)%Z
      ∧ text ≠ "hello world!"%string.
Proof.
  assert (H1 : (0 ≤ 5)%Z) by lia.
  assert (H2 : (5 + 3 < Z.of_nat (String.length "hello world!"))%Z)
    by (vm_compute; reflexivity).
  split; [exact H1|]. split; [exact H2|].
  exact (proj1 (enter_truncates_long_option true 5 "hello world!" []
                  H1 H2)).
Defined.

(** Two replies, the second as the first: one option, shorter than the
    default preview of 150 characters. *)
Lemma enter_selects_short_option_witness :
  let post := λ (_ : nat) (_ : Q), Status 200 "  and so on, and so forth. " in
  generate_multiple_options post 2 = ["and so on, and so forth."%string]
  ∧ (Z.of_nat (String.length "and so on, and so forth.") ≤ 150)%Z
  ∧ CompletionPopup.select_first_option true 150
      ["and so on, and so forth."%string]
    = Some "and so on, and so forth."%string.
Proof.
  cbv zeta.
  assert (H1 : generate_multiple_options
                 (λ (_ : nat) (_ : Q),
                    Status 200 "  and so on, and so forth. ") 2
               = ["and so on, and so forth."%string])
    by (vm_compute; reflexivity).
  assert (H2 : (Z.of_nat (String.length "and so on, and so forth.")
                ≤ 150)%Z) by (vm_compute; discriminate).
  split; [exact H1|]. split; [exact H2|].
  exact (proj1 (enter_selects_short_option _ 2 150 _ [] H1 H2)).
Defined.
